(** * translation_converter: flatten / unflatten and table reconciliation

    A shallow embedding of [scripts/json_to_excel.py] and
    [scripts/excel_to_json.py], with the properties of the conversion
    pipeline stated and proved over it.

    Conventions.
    - A Python [str] is a Rocq [string] holding its UTF-8 bytes.  The code
      only looks at ASCII characters (the double quote, the dot, the
      hyphen, letters and line feed), none of which occurs inside a
      multi-byte sequence, and byte-wise lexicographic order on UTF-8 coincides with Python's
      code-point order, so [sorted] is modelled on bytes.
    - A Python [dict] is an association list in insertion order whose keys
      are pairwise distinct ([is_dict]); [dict_set] is item assignment.
    - A Python exception is a value of [pyerr] carried by [exc].
    - Documents are finite trees; the interpreter's recursion limit is not
      part of the model.
    - A pandas frame is a list of row labels with one series of cells per
      column label.  The sheet read by [pd.read_excel] is given by its
      cells, each with what pandas makes of it when it does not read it as
      a missing value. *)

From Stdlib Require Import ZArith Ascii String List DecimalString.
From stdpp Require Import base tactics option list sorting gmap strings.


#[local] Set Warnings "-register-all".

(** ** Exceptions *)

Inductive pyerr : Type :=
| TypeError
| ValueError
| KeyError
| AttributeError
| UnicodeDecodeError
| JSONDecodeError
| OSError.

Inductive exc (A : Type) : Type :=
| OK (a : A)
| Raise (e : pyerr).
Arguments OK {A} a.
Arguments Raise {A} e.

#[global] Instance exc_ret : MRet exc := @OK.
#[global] Instance exc_bind : MBind exc := fun A B f m =>
  match m with
  | OK a => f a
  | Raise e => Raise e
  end.

(** ** Python dictionaries *)

Abbreviation dict V := (list (string * V)).

Definition is_dict {V} (d : dict V) : Prop := NoDup (d.*1).

Fixpoint dict_get {V} (d : dict V) (k : string) : option V :=
  match d with
  | [] => None
  | (k', v) :: d' => if String.eqb k' k then Some v else dict_get d' k
  end.

(** [d.get(k, default)] *)
Definition dict_get_or {V} (d : dict V) (k : string) (dflt : V) : V :=
  match dict_get d k with Some v => v | None => dflt end.

Definition dict_mem {V} (d : dict V) (k : string) : bool :=
  match dict_get d k with Some _ => true | None => false end.

(** [d[k] = v]: an existing key keeps its position, a new key goes last. *)
Fixpoint dict_set {V} (d : dict V) (k : string) (v : V) : dict V :=
  match d with
  | [] => [(k, v)]
  | (k', v') :: d' =>
      if String.eqb k' k then (k, v) :: d' else (k', v') :: dict_set d' k v
  end.

(** [dict(items)]: later pairs overwrite earlier ones. *)
Definition dict_of_items {V} (items : list (string * V)) : dict V :=
  fold_left (fun d kv => dict_set d kv.1 kv.2) items [].

(** ** Python strings *)

Definition DQ : ascii := "034"%char.
Definition LF : ascii := "010"%char.

Definition truthy (s : string) : bool :=
  match s with EmptyString => false | String _ _ => true end.

Fixpoint char_in (c : ascii) (chars : string) : bool :=
  match chars with
  | EmptyString => false
  | String a chars' => Ascii.eqb a c || char_in c chars'
  end.

Fixpoint lstrip (chars s : string) : string :=
  match s with
  | EmptyString => EmptyString
  | String a s' => if char_in a chars then lstrip chars s' else s
  end.

Fixpoint rstrip (chars s : string) : string :=
  match s with
  | EmptyString => EmptyString
  | String a s' =>
      match rstrip chars s' with
      | EmptyString => if char_in a chars then EmptyString else String a EmptyString
      | r => String a r
      end
  end.

(** [s.strip(chars)]: every leading and every trailing character that
    belongs to [chars] is removed. *)
Definition py_strip (s chars : string) : string := rstrip chars (lstrip chars s).

Definition cons_head (a : ascii) (l : list string) : list string :=
  match l with
  | [] => [String a EmptyString]
  | h :: t => String a h :: t
  end.

(** Left-to-right scan for non-overlapping occurrences of [sep]; [skip]
    counts the characters of an occurrence still to be consumed. *)
Fixpoint split_go (sep : string) (skip : nat) (s : string) : list string :=
  match s with
  | EmptyString => [EmptyString]
  | String a s' =>
      match skip with
      | S n => split_go sep n s'
      | O =>
          if String.prefix sep s
          then EmptyString :: split_go sep (String.length sep - 1) s'
          else cons_head a (split_go sep 0 s')
      end
  end.

(** [s.split(sep)]; an empty separator raises [ValueError]. *)
Definition py_split (s sep : string) : exc (list string) :=
  match sep with
  | EmptyString => Raise ValueError
  | _ => OK (split_go sep 0 s)
  end.

(** [part in s] for two strings. *)
Fixpoint contains (s part : string) : bool :=
  String.prefix part s ||
  match s with
  | EmptyString => false
  | String _ s' => contains s' part
  end.

(** ** Documents *)

(** A nested structure: mappings from segment names to children, with
    leaves of type [L]. *)
Inductive tree (L : Type) : Type :=
| Leaf (l : L)
| Node (items : list (string * tree L)).
Arguments Leaf {L} l.
Arguments Node {L} items.

(** The non-mapping values a parsed document can hold.  The code only ever
    observes a leaf through [isinstance(v, dict)] and [str(v)]; a float or an
    array is carried by the text [str] returns for it. *)
Inductive leaf : Type :=
| LStr (s : string)
| LInt (z : Z)
| LBool (b : bool)
| LNone
| LOther (text : string).

(** What [json.load] yields. *)
Abbreviation json := (tree leaf).
(** What [unflatten_dict] builds: every leaf is a [str]. *)
Abbreviation nested := (tree string).

Definition py_str (l : leaf) : string :=
  match l with
  | LStr s => s
  | LInt z => NilZero.string_of_int (Z.to_int z)
  | LBool true => "True"
  | LBool false => "False"
  | LNone => "None"
  | LOther text => text
  end.

Fixpoint tree_map {A B} (f : A → B) (t : tree A) : tree B :=
  match t with
  | Leaf l => Leaf (f l)
  | Node d => Node (map (fun kv => (kv.1, tree_map f kv.2)) d)
  end.

(** A document all of whose leaves are strings, seen as a parsed document. *)
Definition of_nested (t : nested) : json := tree_map LStr t.
Definition of_nested_dict (d : dict nested) : dict json :=
  map (fun kv => (kv.1, of_nested kv.2)) d.

(** ** json_to_excel.py: flatten_dict *)

Definition child_key (parent_key sep k : string) : string :=
  if truthy parent_key then parent_key +:+ sep +:+ k else k.

(** [flatten_node (Node d) parent_key sep] is the body of
    [flatten_dict(d, parent_key, sep)]; the loop over [d.items()] is the
    [flat_map], and the final [dict(items)] is [dict_of_items]. *)
Fixpoint flatten_node (v : json) (parent_key sep : string) {struct v} : dict string :=
  match v with
  | Leaf _ => []
  | Node d =>
      dict_of_items
        (flat_map
           (fun kv =>
              let new_key := child_key parent_key sep kv.1 in
              match kv.2 with
              | Node _ => flatten_node kv.2 new_key sep
              | Leaf l => [(new_key, py_strip (py_str l) (String DQ EmptyString))]
              end) d)
  end.

Definition flatten_dict (d : dict json) (parent_key sep : string) : dict string :=
  flatten_node (Node d) parent_key sep.

(** ** excel_to_json.py: unflatten_dict *)

(** [part in current] *)
Definition py_contains (current : nested) (part : string) : bool :=
  match current with
  | Node d => dict_mem d part
  | Leaf s => contains s part
  end.

(** [current[k] = v]; a [str] does not support item assignment. *)
Definition py_setitem (current : nested) (k : string) (v : nested) : exc nested :=
  match current with
  | Node d => OK (Node (dict_set d k v))
  | Leaf _ => Raise TypeError
  end.

(** [current[k]]; string indices must be integers. *)
Definition py_getitem (current : nested) (k : string) : exc nested :=
  match current with
  | Node d => match dict_get d k with Some v => OK v | None => Raise KeyError end
  | Leaf _ => Raise TypeError
  end.

(** The inner loop over [parts[:-1]] followed by [current[parts[-1]] = value].
    [current] is a reference into the structure being built: the child the
    loop descends into is the object stored under [part], so the updated
    child is stored back at the same position. *)
Fixpoint assign_path (init : list string) (last value : string) (current : nested)
  : exc nested :=
  match init with
  | [] => py_setitem current last (Leaf value)
  | part :: rest =>
      current1 ← (if py_contains current part then OK current
                  else py_setitem current part (Node []));
      child ← py_getitem current1 part;
      child' ← assign_path rest last value child;
      py_setitem current1 part child'
  end.

Fixpoint unflatten_loop (items : list (string * string)) (sep : string)
    (nested_dict : nested) : exc nested :=
  match items with
  | [] => OK nested_dict
  | (key, value) :: rest =>
      if truthy value then
        parts ← py_split key sep;
        nested_dict' ← assign_path (removelast parts) (List.last parts "") value nested_dict;
        unflatten_loop rest sep nested_dict'
      else unflatten_loop rest sep nested_dict
  end.

Definition unflatten_dict (flat_dict : dict string) (sep : string) : exc nested :=
  unflatten_loop flat_dict sep (Node []).

(** ** Sorting and sets of keys *)

(** [sorted(xs)] on strings.  Python's sort is stable and the order on
    strings is total and antisymmetric, so the result is the one sorted
    arrangement of [xs], whichever stable algorithm computes it. *)
Definition sorted (xs : list string) : list string := merge_sort String.le xs.

(** [cols.remove(x)] on a list that holds [x]: the first occurrence goes. *)
Fixpoint remove_first (x : string) (l : list string) : list string :=
  match l with
  | [] => []
  | y :: l' => if String.eqb y x then l' else y :: remove_first x l'
  end.

Definition list_mem (x : string) (l : list string) : bool :=
  existsb (String.eqb x) l.

(** ** Data frames *)

(** A cell of a frame.  [NaN] is pandas' missing value; a float other than
    NaN or a timestamp is carried by the text [str] returns for it. *)
Inductive cell : Type :=
| NaN
| CStr (s : string)
| CInt (z : Z)
| CBool (b : bool)
| COther (text : string).

Definition notna (c : cell) : bool :=
  match c with NaN => false | _ => true end.

Definition cell_str (c : cell) : string :=
  match c with
  | NaN => "nan"
  | CStr s => s
  | CInt z => NilZero.string_of_int (Z.to_int z)
  | CBool true => "True"
  | CBool false => "False"
  | COther text => text
  end.

(** Row labels, and one series per column label, each series holding one
    cell per row label. *)
Record DataFrame : Type := mkDataFrame {
  df_index : list string;
  df_columns : dict (list cell)
}.

Definition df_labels (df : DataFrame) : list string := (df_columns df).*1.

Fixpoint index_of (x : string) (l : list string) : option nat :=
  match l with
  | [] => None
  | y :: l' => if String.eqb y x then Some 0 else S <$> index_of x l'
  end.

(** [df.at[key, col]] *)
Definition df_cell (df : DataFrame) (key col : string) : option cell :=
  series ← dict_get (df_columns df) col;
  i ← index_of key (df_index df);
  series !! i.

(** [d[k1][k2] = v] on a [defaultdict(dict)]. *)
Definition defaultdict_set {V} (d : dict (dict V)) (k1 k2 : string) (v : V)
  : dict (dict V) :=
  dict_set d k1 (dict_set (default [] (dict_get d k1)) k2 v).

(** pandas' [_from_nested_dict]: [new_data[col][index] = v] for every
    [index, s] of the data and every [col, v] of [s]. *)
Definition from_nested_dict (data : dict (dict string)) : dict (dict string) :=
  fold_left
    (fun new_data row =>
       fold_left (fun nd cv => defaultdict_set nd cv.1 row.1 cv.2) row.2 new_data)
    data [].

(** Union of label lists in order of first appearance. *)
Definition union_labels (ls : list (list string)) : list string :=
  fold_left (fun acc k => if list_mem k acc then acc else acc ++ [k]) (concat ls) [].

(** [DataFrame(new_data)] for a dict of dicts: one column per key, the
    index is the union of the inner keys, a missing entry is NaN. *)
Definition frame_of_columns (new_data : dict (dict string)) : DataFrame :=
  let index := union_labels (map (fun col => col.2.*1) new_data) in
  {| df_index := index;
     df_columns :=
       map (fun col =>
              (col.1,
               map (fun i => match dict_get col.2 i with
                             | Some v => CStr v
                             | None => NaN
                             end) index)) new_data |}.

(** [pd.DataFrame.from_dict(data, orient='index')] on a dict of dicts. *)
Definition from_dict_index (data : dict (dict string)) : DataFrame :=
  frame_of_columns (from_nested_dict data).

(** [df[cols]]: the listed columns in the listed order; an unknown label
    raises [KeyError]. *)
Definition df_select (df : DataFrame) (cols : list string) : exc DataFrame :=
  columns ← mapM (M := exc)
               (fun c => match dict_get (df_columns df) c with
                         | Some series => OK (c, series)
                         | None => Raise KeyError
                         end) cols;
  OK {| df_index := df_index df; df_columns := columns |}.

(** ** json_to_excel.py: create_excel *)

Definition collect_keys (translations : dict (dict string)) : gset string :=
  fold_left (fun all_keys lang => all_keys ∪ list_to_set (lang.2.*1))
            translations ∅.

Definition build_df_data (translations : dict (dict string)) (keys : list string)
  : dict (dict string) :=
  fold_left
    (fun df_data key =>
       fold_left
         (fun dd lang => defaultdict_set dd key lang.1 (dict_get_or lang.2 key ""))
         translations df_data)
    keys [].

Definition order_columns (cols : list string) (priority_lang : string) : list string :=
  if list_mem priority_lang cols
  then priority_lang :: sorted (remove_first priority_lang cols)
  else sorted cols.

(** The frame [create_excel] hands to [to_excel]; writing the file and the
    progress messages around it are outside the transform. *)
Definition create_excel (translations : dict (dict string)) (priority_lang : string)
  : exc DataFrame :=
  let all_keys := collect_keys translations in
  let df_data := build_df_data translations (sorted (elements all_keys)) in
  let df := from_dict_index df_data in
  let cols := order_columns (df_labels df) priority_lang in
  df_select df cols.

(** ** excel_to_json.py: read_excel_to_translations *)

(** The dict comprehension over [df[lang_code].items()]. *)
Definition lang_dict_of (index : list string) (series : list cell) : dict string :=
  dict_of_items
    (omap (fun kv => if notna kv.2 then Some (kv.1, cell_str kv.2) else None)
          (zip index series)).

(** The loop over [df.columns] once [pd.read_excel] has returned [df]. *)
Definition read_excel_to_translations (df : DataFrame) : dict (dict string) :=
  fold_left
    (fun translations lang_code =>
       dict_set translations lang_code
         (lang_dict_of (df_index df) (default [] (dict_get (df_columns df) lang_code))))
    (df_labels df) [].

(** ** Language codes *)

Definition is_lower (c : ascii) : bool :=
  (97 <=? nat_of_ascii c)%nat && (nat_of_ascii c <=? 122)%nat.
Definition is_upper (c : ascii) : bool :=
  (65 <=? nat_of_ascii c)%nat && (nat_of_ascii c <=? 90)%nat.

(** The data model's pattern: two lowercase letters, a hyphen, two
    uppercase letters, and nothing else. *)
Definition is_lang_code (s : string) : bool :=
  match s with
  | String a (String b (String h (String c (String d EmptyString)))) =>
      is_lower a && is_lower b && Ascii.eqb h "-" && is_upper c && is_upper d
  | _ => false
  end.

(** [$] outside MULTILINE mode: the end of the string, or the position just
    before a line feed that ends the string. *)
Definition re_dollar (rest : string) : bool :=
  String.eqb rest EmptyString || String.eqb rest (String LF EmptyString).

(** [^[a-z]{2}-[A-Z]{2}] followed by what [tail] accepts. *)
Definition re_lang_prefix (tail : string → bool) (s : string) : bool :=
  match s with
  | String a (String b (String h (String c (String d rest)))) =>
      is_lower a && is_lower b && Ascii.eqb h "-" && is_upper c && is_upper d
      && tail rest
  | _ => false
  end.

(** [re.match(r'^[a-z]{2}-[A-Z]{2}$', s)] *)
Definition match_lang_code (s : string) : bool := re_lang_prefix re_dollar s.

(** [re.compile(r'^[a-z]{2}-[A-Z]{2}\.json$').match(s)] *)
Definition match_lang_file (s : string) : bool :=
  re_lang_prefix
    (fun rest =>
       match rest with
       | String p (String j (String s' (String o (String n rest')))) =>
           Ascii.eqb p "." && Ascii.eqb j "j" && Ascii.eqb s' "s" && Ascii.eqb o "o"
           && Ascii.eqb n "n" && re_dollar rest'
       | _ => false
       end) s.

(** [s.endswith(suffix)] *)
Fixpoint endswith (s suffix : string) : bool :=
  String.eqb s suffix ||
  match s with
  | EmptyString => false
  | String _ s' => endswith s' suffix
  end.

(** [s.replace(old, new)] for a non-empty [old]: every non-overlapping
    occurrence, scanning from the left. *)
Definition py_replace (s old new : string) : string :=
  String.concat new (split_go old 0 s).

(** [os.path.join(dir, name)] for a relative [name]. *)
Definition path_join (dir name : string) : string :=
  if truthy dir then
    if endswith dir "/" then dir +:+ name else dir +:+ "/" +:+ name
  else name.

(** ** Progress stream *)

Definition print (line : string) (out : list string) : list string := out ++ [line].

(** ** json_to_excel.py: load_json_files *)

(** What opening and parsing one file of the directory leads to. *)
Inductive file_read : Type :=
| ReadOK (data : json)
| ReadUnicodeError
| ReadJSONError (msg : string)
| ReadOSError.

Fixpoint load_loop (files : list (string * file_read)) (valid_langs : option (list string))
    (translations : dict (dict string)) (out : list string)
  : list string * exc (dict (dict string)) :=
  match files with
  | [] => (out, OK translations)
  | (file, content) :: rest =>
      if endswith file ".json" && match_lang_file file then
        let lang_code := py_replace file ".json" "" in
        if match valid_langs with None => true | Some vl => list_mem lang_code vl end then
          match content with
          | ReadOK (Node data) =>
              let flattened := flatten_dict data "" "." in
              let out' :=
                match flattened with
                | [] => print ("Warning: " +:+ file +:+
                               " is empty or contains no valid translations") out
                | _ => out
                end in
              load_loop rest valid_langs (dict_set translations lang_code flattened) out'
          | ReadOK (Leaf _) => (out, Raise AttributeError)
          | ReadUnicodeError =>
              load_loop rest valid_langs translations
                (print ("Encoding error in " +:+ file +:+
                        ": File must be UTF-8 encoded") out)
          | ReadJSONError msg =>
              load_loop rest valid_langs translations
                (print ("Error loading " +:+ file +:+ ": " +:+ msg) out)
          | ReadOSError => (out, Raise OSError)
          end
        else load_loop rest valid_langs translations out
      else load_loop rest valid_langs translations out
  end.

(** [listing] is [None] when [lang_dir] is not a directory, and otherwise
    what [os.listdir] returns, each name with the outcome of reading it. *)
Definition load_json_files (lang_dir : string)
    (listing : option (list (string * file_read))) (valid_langs : option (list string))
  : list string * exc (dict (dict string)) :=
  match listing with
  | None => (print ("Directory " +:+ lang_dir +:+ " does not exist!") [], OK [])
  | Some files => load_loop files valid_langs [] []
  end.

(** ** excel_to_json.py: save_translations_to_json *)

(** The progress stream and the files written so far. *)
Record world : Type := mkWorld {
  w_out : list string;
  w_files : list (string * nested)
}.

Definition w_print (line : string) (w : world) : world :=
  {| w_out := print line (w_out w); w_files := w_files w |}.
Definition w_write (path : string) (doc : nested) (w : world) : world :=
  {| w_out := w_out w; w_files := w_files w ++ [(path, doc)] |}.

(** [write_error path] is the text of the exception that opening or
    writing [path] raises, if it raises one. *)
Fixpoint save_loop (write_error : string → option string) (output_dir : string)
    (translations : dict (dict string)) (w : world) : world * exc unit :=
  match translations with
  | [] => (w, OK ())
  | (lang_code, flat_dict) :: rest =>
      if negb (match_lang_code lang_code) then
        save_loop write_error output_dir rest
          (w_print ("Skipping invalid language code: " +:+ lang_code) w)
      else
        match unflatten_dict flat_dict "." with
        | Raise e => (w, Raise e)
        | OK nested_dict =>
            let output_file := path_join output_dir (lang_code +:+ ".json") in
            match write_error output_file with
            | None =>
                save_loop write_error output_dir rest
                  (w_print ("Generated JSON file: " +:+ output_file)
                     (w_write output_file nested_dict w))
            | Some e =>
                save_loop write_error output_dir rest
                  (w_print ("Failed to write " +:+ output_file +:+ ": " +:+ e) w)
            end
        end
  end.

(** [makedirs_ok] tells whether [os.makedirs] succeeded. *)
Definition save_translations_to_json (makedirs_ok : bool)
    (write_error : string → option string)
    (translations : dict (dict string)) (output_dir : string) : world * exc unit :=
  let w0 := {| w_out := []; w_files := [] |} in
  if makedirs_ok then save_loop write_error output_dir translations w0
  else (w0, Raise OSError).

(** ** Vocabulary of the properties *)

(** The segments of a translation key. *)
Definition segments (key : string) : list string := split_go "." 0 key.

Fixpoint proper_prefix (l1 l2 : list string) : bool :=
  match l1, l2 with
  | [], _ :: _ => true
  | x :: l1', y :: l2' => String.eqb x y && proper_prefix l1' l2'
  | _, _ => false
  end.

(** No key of the list addresses a node on the way to another key. *)
Definition prefix_free (keys : list string) : bool :=
  forallb (fun k1 =>
             forallb (fun k2 => negb (proper_prefix (segments k1) (segments k2))) keys)
          keys.

(** [a == b] on nested structures: mappings compare by content, whatever
    the insertion order. *)
Fixpoint py_eq (a b : nested) {struct a} : bool :=
  match a, b with
  | Leaf s, Leaf t => String.eqb s t
  | Node d1, Node d2 =>
      (length d1 =? length d2)%nat &&
      forallb (fun kv => match dict_get d2 kv.1 with
                         | Some v2 => py_eq kv.2 v2
                         | None => false
                         end) d1
  | _, _ => false
  end.

Fixpoint quotes (n : nat) : string :=
  match n with
  | O => EmptyString
  | S n' => String DQ (quotes n')
  end.

Definition quoted (s : string) : string := String DQ (s +:+ String DQ EmptyString).

Definition starts_with_quote (s : string) : bool :=
  match s with
  | String a _ => Ascii.eqb a DQ
  | EmptyString => false
  end.

Fixpoint ends_with_quote (s : string) : bool :=
  match s with
  | EmptyString => false
  | String a EmptyString => Ascii.eqb a DQ
  | String _ s' => ends_with_quote s'
  end.

Fixpoint only_quotes (s : string) : bool :=
  match s with
  | EmptyString => true
  | String a s' => Ascii.eqb a DQ && only_quotes s'
  end.

(** The strip the specification describes: one enclosing pair, if there is
    one, and nothing more. *)
Definition strip_one_pair (s : string) : string :=
  match s with
  | String a s' =>
      if Ascii.eqb a DQ && ends_with_quote s'
      then String.substring 0 (String.length s' - 1) s'
      else s
  | EmptyString => EmptyString
  end.

(** The leaves of a document, in traversal order. *)
Fixpoint leaves {L} (t : tree L) : list L :=
  match t with
  | Leaf l => [l]
  | Node d => flat_map (fun kv => leaves kv.2) d
  end.

(** The leaves of a document with the segment names that lead to them. *)
Fixpoint paths {L} (t : tree L) : list (list string * L) :=
  match t with
  | Leaf l => [([], l)]
  | Node d => flat_map (fun kv => map (fun ps => (kv.1 :: ps.1, ps.2)) (paths kv.2)) d
  end.

(** A segment name that is not empty and holds no separator. *)
Definition segment_ok (k : string) : bool := truthy k && negb (char_in "." k).

(** A leaf that is not empty and neither starts nor ends with a double quote. *)
Definition leaf_ok (s : string) : bool :=
  truthy s && negb (starts_with_quote s) && negb (ends_with_quote s).

(** Below the root: no empty mapping, distinct well-formed segment names at
    every mapping, well-formed leaves. *)
Fixpoint subtree_ok (t : nested) : bool :=
  match t with
  | Leaf s => leaf_ok s
  | Node d =>
      match d with [] => false | _ => true end &&
      bool_decide (NoDup (d.*1)) &&
      forallb (fun kv => segment_ok kv.1 && subtree_ok kv.2) d
  end.

Definition document_ok (doc : dict nested) : bool :=
  bool_decide (NoDup (doc.*1)) &&
  forallb (fun kv => segment_ok kv.1 && subtree_ok kv.2) doc.

(** The set of characters handed to [strip]. *)
Abbreviation DQs := (String DQ EmptyString).

(** One turn of the loop of [flatten_dict]. *)
Definition flatten_item (parent_key sep : string) (kv : string * json) : dict string :=
  let new_key := child_key parent_key sep kv.1 in
  match kv.2 with
  | Node d' => flatten_dict d' new_key sep
  | Leaf l => [(new_key, py_strip (py_str l) DQs)]
  end.

(** One turn of the outer loop of [unflatten_dict] on the segments [p]. *)
Definition assign (p : list string) (s : string) (t : nested) : exc nested :=
  assign_path (removelast p) (List.last p "") s t.

Fixpoint fold_assign (ps : list (list string * string)) (t : nested) : exc nested :=
  match ps with
  | [] => OK t
  | ps1 :: r => t' ← assign ps1.1 ps1.2 t; fold_assign r t'
  end.

(** The key [flatten_dict] gives to the leaf at path [p] below [parent]. *)
Definition pkey (parent : string) (p : list string) : string :=
  if truthy parent then parent +:+ "." +:+ String.concat "." p
  else String.concat "." p.

Definition children_ok (d : dict nested) : Prop :=
  NoDup (d.*1) ∧ Forall (fun kv => segment_ok kv.1 = true ∧ subtree_ok kv.2 = true) d.

Definition loose_ok (t : nested) : Prop :=
  match t with
  | Leaf s => leaf_ok s = true
  | Node d => children_ok d
  end.

(** The structure that holds [v] at the end of the single path [p]. *)
Fixpoint chain (p : list string) (v : nested) : nested :=
  match p with
  | [] => v
  | k :: p' => Node [(k, chain p' v)]
  end.

Fixpoint last_char (s : string) : option ascii :=
  match s with
  | EmptyString => None
  | String a EmptyString => Some a
  | String _ s' => last_char s'
  end.

(** The test [load_json_files] applies to a file name. *)
Definition accepts_file (file : string) : bool :=
  endswith file ".json" && match_lang_file file.

(** A one-leaf document used in the examples. *)
Definition doc_a : json := Node [("a", Leaf (LStr "x"))].

(** The pairs the dict comprehension of [read_excel_to_translations] yields. *)
Definition notna_items (index : list string) (series : list cell) : list (string * string) :=
  omap (fun kv => if notna kv.2 then Some (kv.1, cell_str kv.2) else None)
       (zip index series).

(** The row [create_excel] builds for a key, and the column of a language
    over a list of keys. *)
Definition row_of (translations : dict (dict string)) (key : string) : dict string :=
  map (fun lang => (lang.1, dict_get_or lang.2 key "")) translations.

Definition col_of (keys : list string) (lang : string * dict string)
  : string * dict string :=
  (lang.1, map (fun key => (key, dict_get_or lang.2 key "")) keys).

Definition series_of (keys : list string) (lang : string * dict string)
  : string * list cell :=
  (lang.1, map (fun key => CStr (dict_get_or lang.2 key "")) keys).

Definition union_step (acc : list string) (k : string) : list string :=
  if list_mem k acc then acc else acc ++ [k].

Definition select_column (columns : dict (list cell)) (c : string)
  : exc (string * list cell) :=
  match dict_get columns c with
  | Some series => OK (c, series)
  | None => Raise KeyError
  end.

(** A language code followed by one line feed. *)
Definition lang_code_then_lf (s : string) : bool :=
  match s with
  | String a (String b (String h (String c (String d (String e EmptyString))))) =>
      is_lower a && is_lower b && Ascii.eqb h "-" && is_upper c && is_upper d
      && Ascii.eqb e LF
  | _ => false
  end.

(** The name of a document source: a language code followed by the
    extension, and nothing else. *)
Definition is_lang_file_name (s : string) : bool :=
  match s with
  | String a (String b (String h (String c (String d
      (String p (String j (String s' (String o (String n EmptyString))))))))) =>
      is_lower a && is_lower b && Ascii.eqb h "-" && is_upper c && is_upper d
      && (Ascii.eqb p "." && Ascii.eqb j "j" && Ascii.eqb s' "s" && Ascii.eqb o "o"
          && Ascii.eqb n "n")
  | _ => false
  end.

(** The key [flatten_dict] builds along the segment names [p], starting
    from [parent_key]: one [child_key] per level. *)
Definition join_path (parent_key sep : string) (p : list string) : string :=
  fold_left (fun pk k => child_key pk sep k) p parent_key.

(** The pairs [flatten_dict] collects over a whole document, one per leaf,
    in traversal order. *)
Definition leaf_items (t : json) (parent_key sep : string) : list (string * string) :=
  map (fun ps => (join_path parent_key sep ps.1, py_strip (py_str ps.2) DQs)) (paths t).

(** Item assignments, one after the other. *)
Definition set_all {V} (l : list (string * V)) (d : dict V) : dict V :=
  fold_left (fun d kv => dict_set d kv.1 kv.2) l d.

(** Every mapping has distinct keys and no mapping stored under a key is
    empty. *)
Fixpoint nodes_ok (t : nested) : bool :=
  match t with
  | Leaf _ => true
  | Node d =>
      bool_decide (NoDup (d.*1)) &&
      forallb (fun kv => match kv.2 with Node [] => false | _ => true end
                         && nodes_ok kv.2) d
  end.

(** A pair of a flat mapping that survives a round trip: every segment of
    the key is non-empty, the value is non-empty and has no double quote at
    either end. *)
Definition pair_ok (kv : string * string) : bool :=
  forallb truthy (segments kv.1) && leaf_ok kv.2.

(** Two lists of segments neither of which is a prefix of the other. *)
Definition apart (p q : list string) : Prop :=
  proper_prefix q p = false ∧ proper_prefix p q = false ∧ q ≠ p.

(** The test of [load_json_files] on the allow-list. *)
Definition allowed (valid_langs : option (list string)) (lang_code : string) : bool :=
  match valid_langs with
  | None => true
  | Some vl => list_mem lang_code vl
  end.

(** A directory entry that [load_json_files] opens. *)
Definition opened (valid_langs : option (list string)) (file : string) : bool :=
  is_lang_file_name file && allowed valid_langs (py_replace file ".json" "").

(** ** json_to_excel.py: writing the table, and main *)

(** What [df.to_excel] leads to. *)
Inductive to_excel_outcome : Type :=
| ToExcelOK
| ToExcelPermissionError
| ToExcelError (msg : string).

(** [create_excel] with its last step: the progress stream, and the frame
    written to [output_file] if one was. *)
Definition create_excel_io (to_excel : DataFrame → to_excel_outcome)
    (translations : dict (dict string)) (output_file priority_lang : string)
  : list string * exc (option DataFrame) :=
  match create_excel translations priority_lang with
  | Raise e => ([], Raise e)
  | OK df =>
      match to_excel df with
      | ToExcelOK => (print ("Excel file created: " +:+ output_file) [], OK (Some df))
      | ToExcelPermissionError =>
          (print ("Permission denied when writing to " +:+ output_file) [], OK None)
      | ToExcelError e => (print ("Failed to create Excel file: " +:+ e) [], OK None)
      end
  end.

(** [main] of json_to_excel.py; [project_dir] is the directory above the
    script's. *)
Definition json_to_excel_main (project_dir : string)
    (listing : option (list (string * file_read)))
    (to_excel : DataFrame → to_excel_outcome)
  : list string * exc (option DataFrame) :=
  let input_dir := path_join project_dir "input" in
  let output_file := path_join (path_join project_dir "output") "translations.xlsx" in
  let loaded := load_json_files input_dir listing None in
  match loaded.2 with
  | Raise e => (loaded.1, Raise e)
  | OK [] => (print "No translation files found!" loaded.1, OK None)
  | OK translations =>
      let written := create_excel_io to_excel translations output_file "en-US" in
      (loaded.1 ++ written.1, written.2)
  end.

(** ** excel_to_json.py as main runs it *)

(** Python does not enforce the annotations of the three functions, and
    [main] hands them what [pd.read_excel] returns: a frame whose row keys
    and column labels are text or values of another type (an integer for a
    cell that holds a number such as 404 or for a header such as 2024, a
    float, a timestamp, NaN for a blank key).  Of such a value the code
    observes that it is not a [str] and, as a dictionary key, which other
    values it is equal to: [LabelOther] carries a number that is the same for
    two values exactly when they are the same key. *)
Inductive label : Type :=
| LabelStr (s : string)
| LabelOther (n : Z).

#[global] Instance label_eq_dec : EqDecision label.
Proof. solve_decision. Defined.

Definition label_eqb (a b : label) : bool :=
  match a, b with
  | LabelStr s, LabelStr t => String.eqb s t
  | LabelOther n, LabelOther m => Z.eqb n m
  | _, _ => false
  end.

Module dyn.

Abbreviation dict V := (list (label * V)).

Fixpoint dict_get {V} (d : dict V) (k : label) : option V :=
  match d with
  | [] => None
  | (k', v) :: d' => if label_eqb k' k then Some v else dict_get d' k
  end.

Fixpoint dict_set {V} (d : dict V) (k : label) (v : V) : dict V :=
  match d with
  | [] => [(k, v)]
  | (k', v') :: d' =>
      if label_eqb k' k then (k, v) :: d' else (k', v') :: dict_set d' k v
  end.

Definition dict_of_items {V} (items : list (label * V)) : dict V :=
  fold_left (fun d kv => dict_set d kv.1 kv.2) items [].

Record DataFrame : Type := mkDataFrame {
  df_index : list label;
  df_columns : dict (list cell)
}.

Definition df_labels (df : DataFrame) : list label := (df_columns df).*1.

(** The dict comprehension over [df[lang_code].items()]. *)
Definition lang_dict_of (index : list label) (series : list cell) : dict string :=
  dict_of_items
    (omap (fun kv => if notna kv.2 then Some (kv.1, cell_str kv.2) else None)
          (zip index series)).

(** The loop over [df.columns]. *)
Definition read_excel_to_translations (df : DataFrame) : dict (dict string) :=
  fold_left
    (fun translations lang_code =>
       dict_set translations lang_code
         (lang_dict_of (df_index df) (default [] (dict_get (df_columns df) lang_code))))
    (df_labels df) [].

(** [key.split(sep)] on a key that is not a [str] raises [AttributeError]. *)
Definition key_split (key : label) (sep : string) : exc (list string) :=
  match key with
  | LabelStr k => py_split k sep
  | LabelOther _ => Raise AttributeError
  end.

Fixpoint unflatten_loop (items : list (label * string)) (sep : string)
    (nested_dict : nested) : exc nested :=
  match items with
  | [] => OK nested_dict
  | (key, value) :: rest =>
      if truthy value then
        parts ← key_split key sep;
        nested_dict' ← assign_path (removelast parts) (List.last parts "") value nested_dict;
        unflatten_loop rest sep nested_dict'
      else unflatten_loop rest sep nested_dict
  end.

Definition unflatten_dict (flat_dict : dict string) (sep : string) : exc nested :=
  unflatten_loop flat_dict sep (Node []).

(** [re.match(pattern, lang_code)] on a code that is not a [str] raises
    [TypeError]. *)
Fixpoint save_loop (write_error : string → option string) (output_dir : string)
    (translations : dict (dict string)) (w : world) : world * exc unit :=
  match translations with
  | [] => (w, OK ())
  | (LabelOther _, _) :: _ => (w, Raise TypeError)
  | (LabelStr lang_code, flat_dict) :: rest =>
      if negb (match_lang_code lang_code) then
        save_loop write_error output_dir rest
          (w_print ("Skipping invalid language code: " +:+ lang_code) w)
      else
        match unflatten_dict flat_dict "." with
        | Raise e => (w, Raise e)
        | OK nested_dict =>
            let output_file := path_join output_dir (lang_code +:+ ".json") in
            match write_error output_file with
            | None =>
                save_loop write_error output_dir rest
                  (w_print ("Generated JSON file: " +:+ output_file)
                     (w_write output_file nested_dict w))
            | Some e =>
                save_loop write_error output_dir rest
                  (w_print ("Failed to write " +:+ output_file +:+ ": " +:+ e) w)
            end
        end
  end.

Definition save_translations_to_json (makedirs_ok : bool)
    (write_error : string → option string)
    (translations : dict (dict string)) (output_dir : string) : world * exc unit :=
  let w0 := {| w_out := []; w_files := [] |} in
  if makedirs_ok then save_loop write_error output_dir translations w0
  else (w0, Raise OSError).

End dyn.

(** ** The sheet and pd.read_excel *)

(** The texts [pd.read_excel] reads as missing values when it is called, as
    here, with its defaults (the constant STR_NA_VALUES of pandas 2). *)
Definition default_na_values : list string :=
  [ EmptyString; "#N/A"; "#N/A N/A"; "#NA"; "-1.#IND"; "-1.#QNAN"; "-NaN"; "-nan";
    "1.#IND"; "1.#QNAN"; "<NA>"; "N/A"; "NA"; "NULL"; "NaN"; "None"; "n/a"; "nan";
    "null" ].

(** What pandas makes of a cell that it does not read as missing: a text, an
    integer, a boolean, or a float or timestamp carried by the text [str]
    returns for it. *)
Inductive value : Type :=
| VStr (s : string)
| VInt (z : Z)
| VBool (b : bool)
| VOther (text : string).

Definition cell_of (v : value) : cell :=
  match v with
  | VStr s => CStr s
  | VInt z => CInt z
  | VBool b => CBool b
  | VOther text => COther text
  end.

(** A data cell of the sheet, as far as the code can tell: blank (or an
    error cell); a text, given with what pandas makes of it when it does not
    read it as missing (the text itself in a column it keeps as text, a
    number in a column it infers as numeric: a float when the column has
    missing cells); or a number, a boolean or a date, given with what pandas
    makes of it. *)
Inductive sheet_cell : Type :=
| Blank
| Text (s : string) (typed : value)
| NonText (typed : value).

(** One cell of the frame: the default [na_filter] compares the text of a
    text cell with the NA texts. *)
Definition pd_read_cell (na_values : list string) (c : sheet_cell) : cell :=
  match c with
  | Blank => NaN
  | Text s typed => if list_mem s na_values then NaN else cell_of typed
  | NonText typed => cell_of typed
  end.

(** The rows below the header, with the cell of the column Key as pandas
    makes it a row key, and the other columns under their header. *)
Record Sheet : Type := mkSheet {
  sh_keys : list label;
  sh_columns : dyn.dict (list sheet_cell)
}.

(** [pd.read_excel(excel_file, index_col='Key')] on a file it can read. *)
Definition pd_read_excel (na_values : list string) (sh : Sheet) : dyn.DataFrame :=
  {| dyn.df_index := sh_keys sh;
     dyn.df_columns :=
       map (fun col => (col.1, map (pd_read_cell na_values) col.2)) (sh_columns sh) |}.

(** What looking for the file and [pd.read_excel] lead to. *)
Inductive excel_read : Type :=
| ExcelMissing
| ExcelUnreadable (msg : string)
| ExcelSheet (sh : Sheet).

(** [read_excel_to_translations(excel_file)]: the text of the exception it
    raises, or the translations. *)
Definition read_excel_file (excel_file : string) (r : excel_read)
  : string + dyn.dict (dyn.dict string) :=
  match r with
  | ExcelMissing => inl ("Excel file " +:+ excel_file +:+ " does not exist!")
  | ExcelUnreadable e => inl ("Failed to read Excel file: " +:+ e)
  | ExcelSheet sh =>
      inr (dyn.read_excel_to_translations (pd_read_excel default_na_values sh))
  end.

(** [main] of excel_to_json.py. *)
Definition excel_to_json_main (project_dir : string) (r : excel_read)
    (makedirs_ok : bool) (write_error : string → option string) : world * exc unit :=
  let excel_file := path_join (path_join project_dir "input") "translations.xlsx" in
  let output_dir := path_join (path_join project_dir "output") "translations" in
  match read_excel_file excel_file r with
  | inl msg => ({| w_out := print ("Error: " +:+ msg) []; w_files := [] |}, OK ())
  | inr [] =>
      ({| w_out := print "No translations found in Excel file!" []; w_files := [] |}, OK ())
  | inr translations =>
      dyn.save_translations_to_json makedirs_ok write_error translations output_dir
  end.

(** Typed values as [main] sees them. *)
Definition text_keys {V} (d : dict V) : dyn.dict V :=
  map (fun kv => (LabelStr kv.1, kv.2)) d.

Definition text_frame (df : DataFrame) : dyn.DataFrame :=
  {| dyn.df_index := map LabelStr (df_index df);
     dyn.df_columns := text_keys (df_columns df) |}.



(** What holds of every language [load_json_files] returns. *)
Definition loaded_from (all_files : list (string * file_read))
    (valid_langs : option (list string)) (c : string) (d : dict string) : Prop :=
  is_lang_code c = true ∧ allowed valid_langs c = true
  ∧ ∃ data, (c +:+ ".json", ReadOK (Node data)) ∈ all_files
            ∧ d = flatten_dict data "" ".".

(** The leaf [l] at the path [p] is the last leaf of the document, in
    traversal order, to which [flatten_dict] gives the key [key]. *)
Definition last_leaf_for (t : json) (parent_key sep key : string)
    (p : list string) (l : leaf) : Prop :=
  ∃ before after,
    paths t = before ++ (p, l) :: after
    ∧ join_path parent_key sep p = key
    ∧ ∀ q, q ∈ after → join_path parent_key sep q.1 ≠ key.

(** * Proofs *)

(** From [NoDup (l1 ++ x :: l2)], the head [x] of the second part is not in
    the first one. *)
Ltac head_fresh H :=
  let Hd := fresh "Hd" in
  let Hin := fresh "Hin" in
  apply NoDup_app in H as (_ & Hd & _); intros Hin;
  apply (Hd _ Hin), list_elem_of_here.

(** ** Dictionaries *)

Section dict_facts.
Context {V : Type}.
Implicit Types (d : dict V) (k : string) (v : V).

Lemma dict_get_None d k : dict_get d k = None ↔ k ∉ d.*1.
Proof.
  induction d as [|[k' v'] d IH]; simpl.
  - split; [intros _; apply not_elem_of_nil | done].
  - rewrite not_elem_of_cons. destruct (String.eqb_spec k' k) as [->|Hne].
    + split; [done | intros [? _]; done].
    + rewrite IH. split; [intros ?; split; [congruence | done] | intros [_ ?]; done].
Qed.

Lemma dict_get_Some_elem d k v : dict_get d k = Some v → (k, v) ∈ d.
Proof.
  induction d as [|[k' v'] d IH]; simpl; [done|].
  destruct (String.eqb_spec k' k) as [->|Hne].
  - intros [= ->]. apply elem_of_cons; by left.
  - intros ?. apply elem_of_cons; right; auto.
Qed.

Lemma dict_get_nodup d k v : NoDup (d.*1) → (k, v) ∈ d → dict_get d k = Some v.
Proof.
  induction d as [|[k' v'] d IH]; simpl; intros Hnd Hin.
  - by apply elem_of_nil in Hin.
  - apply NoDup_cons in Hnd as [Hk' Hnd]. apply elem_of_cons in Hin as [[= <- <-]|Hin].
    + by rewrite String.eqb_refl.
    + destruct (String.eqb_spec k' k) as [->|Hne]; [|by apply IH].
      exfalso. apply Hk'. apply list_elem_of_fmap. by exists (k, v).
Qed.

Lemma dict_set_fresh d k v : k ∉ d.*1 → dict_set d k v = d ++ [(k, v)].
Proof.
  induction d as [|[k' v'] d IH]; simpl; [done|].
  rewrite not_elem_of_cons. intros [Hne Hk].
  destruct (String.eqb_spec k' k) as [->|_]; [done|]. by rewrite IH.
Qed.

Lemma dict_get_set_eq d k v : dict_get (dict_set d k v) k = Some v.
Proof.
  induction d as [|[k' v'] d IH]; simpl.
  - by rewrite String.eqb_refl.
  - destruct (String.eqb_spec k' k) as [->|Hne]; simpl.
    + by rewrite String.eqb_refl.
    + by destruct (String.eqb_spec k' k).
Qed.

Lemma dict_set_set d k v v' : dict_set (dict_set d k v) k v' = dict_set d k v'.
Proof.
  induction d as [|[k' w] d IH]; simpl.
  - by rewrite String.eqb_refl.
  - destruct (String.eqb_spec k' k) as [->|Hne]; simpl.
    + by rewrite String.eqb_refl.
    + destruct (String.eqb_spec k' k); [done|]. by rewrite IH.
Qed.

Lemma dict_set_elem d k v kv : kv ∈ dict_set d k v → kv = (k, v) ∨ kv ∈ d.
Proof.
  induction d as [|[k' w] d IH]; simpl.
  - intros ->%list_elem_of_singleton. by left.
  - destruct (String.eqb_spec k' k) as [->|Hne]; rewrite !elem_of_cons.
    + intros [->|?]; auto.
    + intros [->|?]; [auto|]. destruct IH as [->|?]; auto.
Qed.

Lemma dict_set_keys d k v :
  (dict_set d k v).*1 = if bool_decide (k ∈ d.*1) then d.*1 else d.*1 ++ [k].
Proof.
  induction d as [|[k' w] d IH]; [done|].
  cbn [dict_set]. rewrite fmap_cons. cbn [fst].
  destruct (String.eqb_spec k' k) as [->|Hne].
  - rewrite bool_decide_eq_true_2; [done | apply elem_of_cons; by left].
  - rewrite fmap_cons, IH. cbn [fst].
    destruct (bool_decide_reflect (k ∈ d.*1)) as [Hin|Hnin].
    + rewrite bool_decide_eq_true_2; [done | apply elem_of_cons; by right].
    + rewrite bool_decide_eq_false_2; [done|].
      rewrite not_elem_of_cons. split; [congruence | done].
Qed.

Lemma fold_dict_set_fresh (l : list (string * V)) d :
  NoDup (d.*1 ++ l.*1) →
  fold_left (fun d kv => dict_set d kv.1 kv.2) l d = d ++ l.
Proof.
  revert d. induction l as [|[k v] l IH]; intros d Hnd; simpl.
  - by rewrite app_nil_r.
  - rewrite dict_set_fresh.
    + rewrite IH; [by rewrite <- app_assoc|].
      rewrite fmap_app. simpl. by rewrite <- app_assoc.
    + apply NoDup_app in Hnd as (_ & Hd & _). intros Hk. apply (Hd k Hk).
      simpl. apply elem_of_cons; by left.
Qed.

Lemma dict_of_items_nodup (l : list (string * V)) :
  NoDup (l.*1) → dict_of_items l = l.
Proof. intros Hnd. unfold dict_of_items. by rewrite fold_dict_set_fresh. Qed.

Lemma fold_dict_set_elem (l : list (string * V)) d kv :
  kv ∈ fold_left (fun d kv => dict_set d kv.1 kv.2) l d → kv ∈ d ∨ kv ∈ l.
Proof.
  revert d. induction l as [|[k v] l IH]; intros d; simpl; [by left|].
  intros [[->|?]%dict_set_elem|?]%IH; rewrite elem_of_cons; auto.
Qed.

Lemma dict_of_items_elem (l : list (string * V)) kv : kv ∈ dict_of_items l → kv ∈ l.
Proof.
  intros [Hin|Hin]%fold_dict_set_elem; [by apply elem_of_nil in Hin | done].
Qed.
End dict_facts.

(** ** Strings *)

Lemma app_String a s t : String a s +:+ t = String a (s +:+ t).
Proof. reflexivity. Qed.

Lemma app_Empty t : EmptyString +:+ t = t.
Proof. reflexivity. Qed.

Lemma app_Empty_r s : s +:+ EmptyString = s.
Proof. induction s as [|a s IH]; [done|]. by rewrite app_String, IH. Qed.

Lemma app_assoc_s s t u : (s +:+ t) +:+ u = s +:+ (t +:+ u).
Proof. induction s as [|a s IH]; [done|]. by rewrite !app_String, IH. Qed.

Lemma truthy_app_l s t : truthy s = true → truthy (s +:+ t) = true.
Proof. by destruct s. Qed.

Lemma segments_Empty : segments EmptyString = [EmptyString].
Proof. reflexivity. Qed.

Lemma segments_String a s :
  segments (String a s) =
  if Ascii.eqb a "." then EmptyString :: segments s else cons_head a (segments s).
Proof.
  unfold segments. cbn [split_go String.prefix String.length].
  destruct (ascii_dec "." a) as [<-|Hne].
  - by destruct s.
  - by destruct (Ascii.eqb_spec a ".") as [->|_].
Qed.

Lemma segments_nonempty s : segments s ≠ [].
Proof.
  induction s as [|a s IH]; [done|]. rewrite segments_String.
  destruct (Ascii.eqb a "."); [done|]. by destruct (segments s).
Qed.

Lemma cons_head_app a l1 l2 : l1 ≠ [] → cons_head a (l1 ++ l2) = cons_head a l1 ++ l2.
Proof. by destruct l1. Qed.

Lemma segments_app_dot s t :
  segments (s +:+ String "." t) = segments s ++ segments t.
Proof.
  induction s as [|a s IH].
  - rewrite app_Empty, segments_String. done.
  - rewrite app_String, !segments_String, IH.
    destruct (Ascii.eqb a "."); [done|].
    apply cons_head_app, segments_nonempty.
Qed.

Lemma segments_plain s : char_in "." s = false → segments s = [s].
Proof.
  induction s as [|a s IH]; [done|]. cbn [char_in].
  intros [Ha Hs]%orb_false_elim. rewrite segments_String, Ha, IH; done.
Qed.

Lemma concat_cons2 sep x y l :
  String.concat sep (x :: y :: l) = x +:+ sep +:+ String.concat sep (y :: l).
Proof. reflexivity. Qed.

Lemma segments_concat (p : list string) :
  p ≠ [] → Forall (fun k => char_in "." k = false) p →
  segments (String.concat "." p) = p.
Proof.
  induction p as [|x [|y p] IH]; intros Hne Hp; [done| |].
  - apply Forall_cons in Hp as [Hx _]. by apply segments_plain.
  - apply Forall_cons in Hp as [Hx Hp].
    rewrite concat_cons2. change ("." +:+ ?s) with (String "." s).
    rewrite segments_app_dot, segments_plain, IH; done.
Qed.

(** Stripping double quotes. *)

Lemma char_in_DQs a : char_in a DQs = Ascii.eqb DQ a.
Proof. cbn. by rewrite orb_false_r. Qed.

Lemma lstrip_spec s :
  ∃ n, s = quotes n +:+ lstrip DQs s ∧ starts_with_quote (lstrip DQs s) = false.
Proof.
  induction s as [|a s (n & Hs & Hq)]; [by exists 0|].
  cbn [lstrip]. rewrite char_in_DQs.
  destruct (Ascii.eqb_spec DQ a) as [<-|Hne].
  - exists (S n). split; [|done]. cbn [quotes]. by rewrite app_String, <- Hs.
  - exists 0. split; [done|]. cbn. by destruct (Ascii.eqb_spec a DQ).
Qed.

Lemma rstrip_spec s :
  ∃ m, s = rstrip DQs s +:+ quotes m ∧ ends_with_quote (rstrip DQs s) = false
       ∧ (starts_with_quote s = false → starts_with_quote (rstrip DQs s) = false).
Proof.
  induction s as [|a s (m & Hs & Hq & _)]; [by exists 0|].
  cbn [rstrip]. destruct (rstrip DQs s) as [|b r] eqn:Hr.
  - rewrite char_in_DQs. destruct (Ascii.eqb_spec DQ a) as [<-|Hne].
    + exists (S m). split; [by rewrite Hs|]. by split.
    + exists m. split; [by rewrite Hs|]. split; [|done].
      cbn. by destruct (Ascii.eqb_spec a DQ).
  - exists m. split; [by rewrite Hs|]. split; [|done]. done.
Qed.

Lemma strip_spec s :
  ∃ n m, s = quotes n +:+ py_strip s DQs +:+ quotes m
         ∧ starts_with_quote (py_strip s DQs) = false
         ∧ ends_with_quote (py_strip s DQs) = false.
Proof.
  unfold py_strip. destruct (lstrip_spec s) as (n & Hs & Hq).
  destruct (rstrip_spec (lstrip DQs s)) as (m & Ht & He & Hst).
  exists n, m. split; [|by auto]. by rewrite <- Ht.
Qed.

Lemma lstrip_id s : starts_with_quote s = false → lstrip DQs s = s.
Proof.
  destruct s as [|a s]; [done|]. cbn [starts_with_quote lstrip].
  rewrite char_in_DQs, Ascii.eqb_sym. by intros ->.
Qed.

Lemma rstrip_id s : ends_with_quote s = false → rstrip DQs s = s.
Proof.
  induction s as [|a s IH]; [done|]. cbn [ends_with_quote rstrip].
  destruct s as [|b s].
  - cbn [rstrip]. rewrite char_in_DQs, Ascii.eqb_sym. by intros ->.
  - intros He. by rewrite (IH He).
Qed.

Lemma strip_leaf_ok s : leaf_ok s = true → py_strip s DQs = s.
Proof.
  unfold leaf_ok. intros [[_ Hs%negb_true_iff]%andb_prop He%negb_true_iff]%andb_prop.
  unfold py_strip. by rewrite lstrip_id, rstrip_id.
Qed.

Lemma only_quotes_quotes n : only_quotes (quotes n) = true.
Proof.
  induction n as [|n IH]; [done|]. cbn [quotes only_quotes].
  by rewrite Ascii.eqb_refl, IH.
Qed.

Lemma only_quotes_app s t : only_quotes (s +:+ t) = only_quotes s && only_quotes t.
Proof.
  induction s as [|a s IH]; [done|]. rewrite app_String. cbn [only_quotes].
  by rewrite IH, andb_assoc.
Qed.

Lemma strip_only_quotes s : only_quotes s = true → py_strip s DQs = EmptyString.
Proof.
  intros Hs. unfold py_strip.
  assert (lstrip DQs s = EmptyString) as ->; [|done].
  induction s as [|a s IH]; [done|]. cbn [only_quotes] in Hs.
  apply andb_prop in Hs as [Ha Hs]. cbn [lstrip]. rewrite char_in_DQs.
  apply Ascii.eqb_eq in Ha as ->. rewrite Ascii.eqb_refl. by apply IH.
Qed.

(** ** Lists and trees *)

Lemma elem_of_flat_map {A B} (f : A → list B) (l : list A) (y : B) :
  y ∈ flat_map f l ↔ ∃ x, x ∈ l ∧ y ∈ f x.
Proof.
  rewrite list_elem_of_In, in_flat_map.
  split; intros (x & Hx & Hy); exists x; by rewrite ?list_elem_of_In in *.
Qed.

Lemma tree_ind' {L} (P : tree L → Prop) :
  (∀ l, P (Leaf l)) →
  (∀ d, Forall (fun kv => P kv.2) d → P (Node d)) →
  ∀ t, P t.
Proof.
  intros HL HN. fix IH 1. intros [l|d]; [apply HL|]. apply HN.
  induction d as [|[k c] d IHd]; constructor; [apply IH | apply IHd].
Qed.

(** ** flatten_dict *)

Lemma flatten_dict_unfold d parent_key sep :
  flatten_dict d parent_key sep =
  dict_of_items (flat_map (flatten_item parent_key sep) d).
Proof.
  unfold flatten_dict. cbn [flatten_node]. f_equal.
  apply flat_map_ext. intros [k [l|d']]; reflexivity.
Qed.

(** Every entry of the flattened set comes from a leaf of the document and
    holds its stripped text. *)
Lemma flatten_entry_sound (t : json) parent_key sep key v :
  (key, v) ∈ flatten_node t parent_key sep →
  ∃ l, l ∈ leaves t ∧ v = py_strip (py_str l) DQs.
Proof.
  revert parent_key key v. induction t as [l|d IH] using tree_ind';
    intros parent_key key v Hin.
  - by apply elem_of_nil in Hin.
  - cbn [flatten_node] in Hin. apply dict_of_items_elem in Hin.
    apply elem_of_flat_map in Hin as ([k c] & Hkc & Hin).
    rewrite Forall_forall in IH. specialize (IH _ Hkc). cbn [fst snd] in *.
    assert (∃ l, l ∈ leaves c ∧ v = py_strip (py_str l) DQs) as (l & Hl & ->).
    { destruct c as [l|d'].
      - apply list_elem_of_singleton in Hin as [= -> ->].
        exists l. split; [|done]. cbn. apply list_elem_of_singleton. done.
      - by apply IH in Hin. }
    exists l. split; [|done]. cbn [leaves]. apply elem_of_flat_map.
    by exists (k, c).
Qed.

Lemma flatten_single_leaf k l parent_key sep :
  flatten_dict [(k, Leaf l)] parent_key sep =
  [(child_key parent_key sep k, py_strip (py_str l) DQs)].
Proof. reflexivity. Qed.

(** C2 (as amended).  [flatten_dict] emits, for a leaf, its string
    representation with every leading and every trailing double-quote
    character removed: the text of the leaf is the emitted value between
    two runs of quotes, and the emitted value neither starts nor ends with a
    quote.  The same holds of every entry of any flattened set.  The literal
    text made of hello inside one pair of quotes flattens to hello, and so
    does hello inside two pairs. *)
Theorem flatten_strips_all_quotes :
  (∀ k l parent_key sep, ∃ v n m,
      flatten_dict [(k, Leaf l)] parent_key sep = [(child_key parent_key sep k, v)]
      ∧ py_str l = quotes n +:+ v +:+ quotes m
      ∧ starts_with_quote v = false ∧ ends_with_quote v = false)
  ∧ (∀ d parent_key sep key v,
      (key, v) ∈ flatten_dict d parent_key sep →
      ∃ l n m, l ∈ leaves (Node d)
               ∧ py_str l = quotes n +:+ v +:+ quotes m
               ∧ starts_with_quote v = false ∧ ends_with_quote v = false)
  ∧ flatten_dict [("k", Leaf (LStr (quoted "hello")))] "" "." = [("k", "hello")]
  ∧ flatten_dict [("k", Leaf (LStr (quoted (quoted "hello"))))] "" "." = [("k", "hello")].
Proof.
  split; [|split; [|split; reflexivity]].
  - intros k l parent_key sep.
    destruct (strip_spec (py_str l)) as (n & m & Hs & Hq & He).
    exists (py_strip (py_str l) DQs), n, m. by rewrite flatten_single_leaf.
  - intros d parent_key sep key v (l & Hl & ->)%flatten_entry_sound.
    destruct (strip_spec (py_str l)) as (n & m & Hs & Hq & He).
    by exists l, n, m.
Qed.

Lemma flatten_strips_all_quotes_witness :
  ∃ l n m, l ∈ leaves (Node [("a", Node [("b", Leaf (LStr (quoted "x")))])])
           ∧ py_str l = quotes n +:+ "x" +:+ quotes m
           ∧ starts_with_quote "x" = false ∧ ends_with_quote "x" = false.
Proof.
  apply (proj1 (proj2 flatten_strips_all_quotes)
           [("a", Node [("b", Leaf (LStr (quoted "x")))])] "" "." "a.b" "x").
  vm_compute. apply list_elem_of_here.
Defined.

(** C2 (as stated) fails: a value inside two pairs of quotes does not keep
    its inner pair, and a single leading quote with no closing one is
    removed too. *)
Lemma flatten_strip_one_pair_counterexample :
  let v := LStr (quoted (quoted "hello")) in
  let w := LStr (String DQ "hello") in
  flatten_dict [("k", Leaf v)] "" "." ≠ [("k", strip_one_pair (py_str v))]
  ∧ strip_one_pair (py_str v) = quoted "hello"
  ∧ flatten_dict [("k", Leaf w)] "" "." ≠ [("k", strip_one_pair (py_str w))].
Proof. vm_compute. split; [|split]; done. Qed.

(** ** unflatten_dict, one key at a time *)

Lemma bind_OK {A B} (f : A → exc B) (a : A) : (OK a ≫= f) = f a.
Proof. reflexivity. Qed.

Lemma bind_Raise {A B} (f : A → exc B) e : (Raise e ≫= f) = Raise e.
Proof. reflexivity. Qed.

Lemma assign_single k s t : assign [k] s t = py_setitem t k (Leaf s).
Proof. reflexivity. Qed.

Lemma assign_cons k p s A :
  p ≠ [] →
  assign (k :: p) s (Node A) =
  c' ← assign p s (default (Node []) (dict_get A k)); OK (Node (dict_set A k c')).
Proof.
  intros Hp. destruct p as [|k2 p]; [done|]. unfold assign.
  change (removelast (k :: k2 :: p)) with (k :: removelast (k2 :: p)).
  change (List.last (k :: k2 :: p) "") with (List.last (k2 :: p) "").
  cbn [assign_path]. unfold py_contains, dict_mem.
  destruct (dict_get A k) as [c|] eqn:Hk.
  - rewrite bind_OK. cbn [py_getitem]. rewrite Hk, bind_OK. cbn [from_option id].
    reflexivity.
  - cbn [py_setitem]. rewrite bind_OK. cbn [py_getitem].
    rewrite dict_get_set_eq, bind_OK. cbn [from_option id].
    destruct (assign_path _ _ _ (Node [])) as [c'|e]; [|done].
    rewrite !bind_OK. cbn [py_setitem]. by rewrite dict_set_set.
Qed.

Lemma fold_assign_app l1 l2 t :
  fold_assign (l1 ++ l2) t = t' ← fold_assign l1 t; fold_assign l2 t'.
Proof.
  revert t. induction l1 as [|ps l1 IH]; intros t; [done|].
  cbn [app fold_assign]. destruct (assign ps.1 ps.2 t); [|done].
  rewrite !bind_OK. apply IH.
Qed.

Lemma fold_assign_lift k ps A :
  ps ≠ [] → Forall (fun ps1 => ps1.1 ≠ []) ps →
  fold_assign (map (fun ps1 => (k :: ps1.1, ps1.2)) ps) (Node A) =
  c' ← fold_assign ps (default (Node []) (dict_get A k)); OK (Node (dict_set A k c')).
Proof.
  revert A. induction ps as [|[p s] r IH]; intros A Hne Hps; [done|].
  apply Forall_cons in Hps as [Hp Hr]. cbn [map fold_assign fst snd] in *.
  rewrite assign_cons by done.
  destruct (assign p s _) as [c1|e]; [|done]. rewrite !bind_OK.
  destruct r as [|x r]; [done|].
  rewrite IH by done. rewrite dict_get_set_eq. cbn [from_option id].
  destruct (fold_assign (x :: r) c1) as [c'|e]; [|done].
  rewrite !bind_OK. by rewrite dict_set_set.
Qed.

(** ** Paths of a well-formed document *)

Lemma subtree_ok_Node d :
  subtree_ok (Node d) = true ↔ d ≠ [] ∧ children_ok d.
Proof.
  cbn [subtree_ok]. rewrite !andb_true_iff, bool_decide_eq_true.
  unfold children_ok. rewrite Forall_forall.
  setoid_rewrite <- andb_true_iff. rewrite forallb_forall.
  setoid_rewrite <- list_elem_of_In.
  split.
  - intros [[Hd ?] ?]. split; [by destruct d | done].
  - intros [Hd [? ?]]. split; [split; [by destruct d | done] | done].
Qed.

Lemma document_ok_children d : document_ok d = true ↔ children_ok d.
Proof.
  unfold document_ok, children_ok.
  rewrite andb_true_iff, bool_decide_eq_true, Forall_forall.
  setoid_rewrite <- andb_true_iff. rewrite forallb_forall.
  by setoid_rewrite <- list_elem_of_In.
Qed.

Lemma subtree_ok_loose t : subtree_ok t = true → loose_ok t.
Proof. destruct t as [s|d]; [done|]. by intros [_ ?]%subtree_ok_Node. Qed.

Lemma paths_Node_cons {L} k (c : tree L) d :
  paths (Node ((k, c) :: d)) =
  map (fun ps => (k :: ps.1, ps.2)) (paths c) ++ paths (Node d).
Proof. reflexivity. Qed.

Lemma paths_Node_head {L} (d : dict (tree L)) ps :
  ps ∈ paths (Node d) → ∃ k p, ps.1 = k :: p ∧ k ∈ d.*1.
Proof.
  cbn [paths]. intros ([k c] & Hkc & Hin)%elem_of_flat_map.
  apply list_elem_of_fmap in Hin as (ps' & -> & _).
  exists k, ps'.1. split; [done|]. apply list_elem_of_fmap. by exists (k, c).
Qed.

Lemma paths_Node_nonnil {L} (d : dict (tree L)) :
  Forall (fun ps => ps.1 ≠ []) (paths (Node d)).
Proof.
  apply Forall_forall. intros ps (k & p & -> & _)%paths_Node_head. done.
Qed.

Lemma paths_nonempty t : subtree_ok t = true → paths t ≠ [].
Proof.
  induction t as [s|d IH] using tree_ind'; [done|].
  intros [Hd [_ Hok]]%subtree_ok_Node.
  destruct d as [|[k c] d]; [done|].
  apply Forall_cons in IH as [IH _]. apply Forall_cons in Hok as [[_ Hc] _].
  rewrite paths_Node_cons. specialize (IH Hc). cbn [snd] in IH.
  by destruct (paths c).
Qed.

Lemma paths_ok t ps :
  loose_ok t → ps ∈ paths t →
  Forall (fun k => segment_ok k = true) ps.1 ∧ leaf_ok ps.2 = true.
Proof.
  revert ps. induction t as [s|d IH] using tree_ind'; intros ps Hok Hin.
  - apply list_elem_of_singleton in Hin as ->. by split.
  - cbn [paths] in Hin. apply elem_of_flat_map in Hin as ([k c] & Hkc & Hin).
    apply list_elem_of_fmap in Hin as (ps' & -> & Hin).
    destruct Hok as [_ Hok]. rewrite Forall_forall in IH, Hok.
    destruct (Hok _ Hkc) as [Hk Hc]. cbn [fst snd] in *.
    destruct (IH _ Hkc ps' (subtree_ok_loose _ Hc) Hin) as [Hp Hs].
    split; [by constructor | done].
Qed.

Lemma paths_nodup t : loose_ok t → NoDup ((paths t).*1).
Proof.
  induction t as [s|d IH] using tree_ind'; intros Hok.
  - cbn. apply NoDup_singleton.
  - destruct Hok as [Hnd Hok].
    induction d as [|[k c] d IHd]; [constructor|].
    apply Forall_cons in IH as [IHc IH]. apply Forall_cons in Hok as [[_ Hc] Hok].
    rewrite fmap_cons in Hnd. apply NoDup_cons in Hnd as [Hk Hnd].
    rewrite paths_Node_cons, fmap_app. apply NoDup_app. split; [|split].
    + rewrite <- list_fmap_compose.
      rewrite (list_fmap_ext _ (cons k ∘ fst) (paths c)) by done.
      rewrite list_fmap_compose. apply NoDup_fmap; [apply _|].
      apply IHc, subtree_ok_loose, Hc.
    + intros p Hp1 Hp2.
      apply list_elem_of_fmap in Hp1 as (ps1 & -> & Hps1).
      apply list_elem_of_fmap in Hps1 as (ps1' & -> & _).
      apply list_elem_of_fmap in Hp2 as (ps2 & Heq & Hps2).
      apply paths_Node_head in Hps2 as (k2 & p2 & Hp2 & Hk2).
      cbn [fst] in Heq. rewrite Hp2 in Heq. injection Heq as -> _. done.
    + by apply IHd.
Qed.

(** ** Keys of the flattened set *)

Lemma segment_ok_spec k :
  segment_ok k = true → truthy k = true ∧ char_in "." k = false.
Proof. unfold segment_ok. by intros [? ?%negb_true_iff]%andb_prop. Qed.

Lemma pkey_single parent k : pkey parent [k] = child_key parent "." k.
Proof. reflexivity. Qed.

Lemma pkey_cons parent k p :
  truthy k = true → p ≠ [] →
  pkey (child_key parent "." k) p = pkey parent (k :: p).
Proof.
  intros Hk Hp. destruct p as [|y p]; [done|].
  unfold pkey, child_key. rewrite concat_cons2.
  destruct (truthy parent) eqn:Hparent.
  - rewrite !truthy_app_l by done. by rewrite !app_assoc_s.
  - by rewrite Hk.
Qed.

Lemma pkey_inj parent p1 p2 :
  p1 ≠ [] → p2 ≠ [] →
  Forall (fun k => char_in "." k = false) p1 →
  Forall (fun k => char_in "." k = false) p2 →
  pkey parent p1 = pkey parent p2 → p1 = p2.
Proof.
  intros Hn1 Hn2 H1 H2 Heq.
  assert (String.concat "." p1 = String.concat "." p2) as Hc.
  { unfold pkey in Heq. destruct (truthy parent); [|done].
    by apply (inj (String.app parent)), (inj (String.app ".")) in Heq. }
  by rewrite <- (segments_concat p1), <- (segments_concat p2), Hc.
Qed.

Lemma paths_plain t ps :
  loose_ok t → ps ∈ paths t → Forall (fun k => char_in "." k = false) ps.1.
Proof.
  intros Hok Hin. destruct (paths_ok t ps Hok Hin) as [Hp _].
  eapply Forall_impl; [exact Hp|]. by intros k [_ ?]%segment_ok_spec.
Qed.

Lemma flatten_closed t parent :
  loose_ok t →
  flatten_node (of_nested t) parent "." =
  match t with
  | Leaf _ => []
  | Node _ => map (fun ps => (pkey parent ps.1, ps.2)) (paths t)
  end.
Proof.
  revert parent. induction t as [s|d IH] using tree_ind'; intros parent Hok; [done|].
  assert (flat_map (flatten_item parent ".") (of_nested_dict d)
          = map (fun ps => (pkey parent ps.1, ps.2)) (paths (Node d))) as Hitems.
  { destruct Hok as [_ Hok]. induction d as [|[k c] d IHd]; [done|].
    apply Forall_cons in IH as [IHc IH]. apply Forall_cons in Hok as [[Hk Hc] Hok].
    cbn [of_nested_dict map flat_map]. rewrite paths_Node_cons, map_app.
    f_equal; [|by apply IHd]. cbn [fst snd] in *.
    apply segment_ok_spec in Hk as [Hk _].
    destruct c as [s|e]; unfold flatten_item; cbn [fst snd of_nested tree_map].
    - cbn [paths map fst snd py_str]. by rewrite strip_leaf_ok.
    - change (flatten_dict ?d' ?pk ?sp) with (flatten_node (Node d') pk sp).
      change (Node (map _ e)) with (of_nested (Node e)).
      rewrite IHc by by apply subtree_ok_loose.
      rewrite map_map. apply map_ext_in. intros ps Hps%list_elem_of_In.
      cbn [fst snd]. f_equal. apply pkey_cons; [done|].
      by apply paths_Node_head in Hps as (? & ? & -> & _). }
  change (of_nested (Node d)) with (Node (of_nested_dict d)).
  change (flatten_node (Node ?d') ?pk ?sp) with (flatten_dict d' pk sp).
  rewrite flatten_dict_unfold, Hitems. apply dict_of_items_nodup.
  rewrite <- list_fmap_compose.
  rewrite (list_fmap_ext _ (pkey parent ∘ fst) (paths (Node d))) by done.
  rewrite list_fmap_compose. apply NoDup_fmap_2_strong; [|by apply paths_nodup].
  intros p1 p2 (ps1 & -> & Hps1)%list_elem_of_fmap (ps2 & -> & Hps2)%list_elem_of_fmap.
  apply pkey_inj.
  - by apply paths_Node_head in Hps1 as (? & ? & -> & _).
  - by apply paths_Node_head in Hps2 as (? & ? & -> & _).
  - by apply (paths_plain (Node d)).
  - by apply (paths_plain (Node d)).
Qed.

Lemma unflatten_loop_paths l t :
  Forall (fun ps => ps.1 ≠ [] ∧ Forall (fun k => char_in "." k = false) ps.1
                    ∧ truthy ps.2 = true) l →
  unflatten_loop (map (fun ps => (pkey "" ps.1, ps.2)) l) "." t = fold_assign l t.
Proof.
  revert t. induction l as [|[p s] l IH]; intros t Hl; [done|].
  apply Forall_cons in Hl as [(Hp & Hplain & Hs) Hl]. cbn [fst snd] in *.
  cbn [map unflatten_loop fold_assign fst snd]. rewrite Hs.
  unfold pkey. cbn [truthy py_split]. fold (segments (String.concat "." p)).
  rewrite segments_concat by done. rewrite bind_OK. fold (assign p s t).
  destruct (assign p s t) as [t'|e]; [|done]. rewrite !bind_OK. by apply IH.
Qed.

Lemma fold_assign_paths t :
  loose_ok t →
  match t with
  | Leaf _ => True
  | Node d =>
      ∀ acc, (∀ k, k ∈ d.*1 → k ∉ acc.*1) →
             fold_assign (paths (Node d)) (Node acc) = OK (Node (acc ++ d))
  end.
Proof.
  induction t as [s|d IH] using tree_ind'; [done|]. intros [Hnd Hok].
  induction d as [|[k c] d IHd]; intros acc Hacc.
  { cbn. by rewrite app_nil_r. }
  apply Forall_cons in IH as [IHc IH]. apply Forall_cons in Hok as [[Hk Hc] Hok].
  rewrite fmap_cons in Hnd. apply NoDup_cons in Hnd as [Hkd Hnd]. cbn [fst snd] in *.
  assert (k ∉ acc.*1) as Hkacc by (apply Hacc, list_elem_of_here).
  rewrite paths_Node_cons, fold_assign_app.
  assert (fold_assign (map (fun ps => (k :: ps.1, ps.2)) (paths c)) (Node acc)
          = OK (Node (acc ++ [(k, c)]))) as ->.
  { destruct c as [s|e].
    - cbn [paths map fold_assign fst snd]. rewrite assign_single. cbn [py_setitem].
      rewrite bind_OK. by rewrite dict_set_fresh.
    - rewrite fold_assign_lift;
        [|by apply paths_nonempty|by apply paths_Node_nonnil].
      rewrite (proj2 (dict_get_None acc k) Hkacc). cbn [from_option].
      rewrite (IHc (subtree_ok_loose _ Hc) []) by (intros; apply not_elem_of_nil).
      rewrite bind_OK. by rewrite dict_set_fresh. }
  rewrite bind_OK, IHd; [by rewrite <- app_assoc|done..|].
  intros k' Hk'. rewrite fmap_app, elem_of_app.
  intros [Hin|Hin%list_elem_of_singleton].
  - revert Hin. apply Hacc. by apply list_elem_of_further.
  - cbn in Hin. by subst.
Qed.

Lemma py_eq_refl t : loose_ok t → py_eq t t = true.
Proof.
  induction t as [s|d IH] using tree_ind'; intros Hok.
  - apply String.eqb_refl.
  - cbn [py_eq]. rewrite Nat.eqb_refl. destruct Hok as [Hnd Hok].
    apply forallb_forall. intros [k c] Hkc%list_elem_of_In. cbn [fst snd].
    rewrite (dict_get_nodup d k c) by done.
    rewrite Forall_forall in IH, Hok.
    apply (IH _ Hkc). apply subtree_ok_loose. by destruct (Hok _ Hkc).
Qed.

(** C1 (as amended).  For every document whose leaves are non-empty strings
    that neither start nor end with a double quote, whose segment names are
    pairwise distinct within a mapping, non-empty and free of dots, and
    which has no empty mapping below its root, unflattening the flattened
    document gives back the document: the same mapping, with the same
    insertion order, hence equal under [==]. *)
Theorem unflatten_flatten_roundtrip (doc : dict nested) :
  document_ok doc = true →
  ∃ r, unflatten_dict (flatten_dict (of_nested_dict doc) "" ".") "." = OK r
       ∧ r = Node doc ∧ py_eq r (Node doc) = true.
Proof.
  intros Hok%document_ok_children. exists (Node doc).
  split; [|split; [done | by apply py_eq_refl]].
  unfold flatten_dict, unflatten_dict.
  change (Node (of_nested_dict doc)) with (of_nested (Node doc)).
  rewrite (flatten_closed (Node doc)) by done.
  rewrite unflatten_loop_paths.
  - apply (fold_assign_paths (Node doc) Hok []). intros; apply not_elem_of_nil.
  - apply Forall_forall. intros ps Hps. split; [|split].
    + by apply paths_Node_head in Hps as (? & ? & -> & _).
    + by apply (paths_plain (Node doc)).
    + destruct (paths_ok (Node doc) ps Hok Hps) as [_ Hs].
      unfold leaf_ok in Hs. by apply andb_prop in Hs as [[? _]%andb_prop _].
Qed.

Lemma unflatten_flatten_roundtrip_witness :
  ∃ r, unflatten_dict
         (flatten_dict
            (of_nested_dict
               [("common", Node [("i18n", Node [("title", Leaf "Hi")]); ("ok", Leaf "OK")]);
                ("z", Leaf "last")]) "" ".") "." = OK r
       ∧ r = Node [("common", Node [("i18n", Node [("title", Leaf "Hi")]); ("ok", Leaf "OK")]);
                   ("z", Leaf "last")]
       ∧ py_eq r (Node [("common", Node [("i18n", Node [("title", Leaf "Hi")]);
                                         ("ok", Leaf "OK")]);
                        ("z", Leaf "last")]) = true.
Proof.
  apply (unflatten_flatten_roundtrip
           [("common", Node [("i18n", Node [("title", Leaf "Hi")]); ("ok", Leaf "OK")]);
            ("z", Leaf "last")]).
  vm_compute. reflexivity.
Defined.

(** C1 (as stated) fails.  Each of these documents has string leaves only
    and flattens to keys none of which is a prefix of another, yet the round
    trip returns something else: an empty leaf is dropped, enclosing quotes
    are lost, a segment name with a dot is split in two, and an empty
    mapping disappears. *)
Lemma unflatten_flatten_counterexample :
  let fails doc :=
    prefix_free ((flatten_dict (of_nested_dict doc) "" ".").*1) = true
    ∧ ∃ r, unflatten_dict (flatten_dict (of_nested_dict doc) "" ".") "." = OK r
           ∧ py_eq r (Node doc) = false in
  fails [("a", Leaf EmptyString)]
  ∧ fails [("a", Leaf (quoted "hello"))]
  ∧ fails [("a.b", Leaf "x")]
  ∧ fails [("a", Node []); ("b", Leaf "x")].
Proof.
  intros fails. unfold fails.
  repeat split; try (vm_compute; reflexivity); eexists; split; vm_compute; reflexivity.
Qed.

(** ** unflatten_dict: a leaf on the way *)

Lemma assign_leaf q v x : q ≠ [] → assign q v (Leaf x) = Raise TypeError.
Proof.
  destruct q as [|k [|k2 q]]; [done|done|]. intros _. unfold assign.
  change (removelast (k :: k2 :: q)) with (k :: removelast (k2 :: q)).
  cbn [assign_path]. by destruct (py_contains (Leaf x) k).
Qed.

Lemma assign_empty p v : p ≠ [] → assign p v (Node []) = OK (chain p (Leaf v)).
Proof.
  induction p as [|k p IH]; [done|]. intros _.
  destruct p as [|k2 p]; [done|].
  rewrite assign_cons by done. cbn [dict_get from_option].
  by rewrite IH.
Qed.

Lemma assign_through_leaf p q v v' :
  p ≠ [] → q ≠ [] → assign (p ++ q) v' (chain p (Leaf v)) = Raise TypeError.
Proof.
  intros Hp Hq. induction p as [|k p IH]; [done|].
  cbn [app chain]. rewrite assign_cons by by destruct p, q.
  cbn [dict_get]. rewrite String.eqb_refl. cbn [from_option id].
  destruct p as [|k2 p].
  - cbn [app chain]. by rewrite assign_leaf.
  - by rewrite IH.
Qed.

Lemma assign_over_node p q v v' :
  p ≠ [] → assign p v (chain (p ++ q) (Leaf v')) = OK (chain p (Leaf v)).
Proof.
  intros Hp. induction p as [|k p IH]; [done|].
  destruct p as [|k2 p].
  - rewrite assign_single. cbn [app chain py_setitem dict_set].
    by rewrite String.eqb_refl.
  - cbn [app chain] in *. rewrite assign_cons by done.
    cbn [dict_get]. rewrite String.eqb_refl. cbn [from_option id].
    rewrite IH by done. rewrite bind_OK. cbn [dict_set]. by rewrite String.eqb_refl.
Qed.

Lemma unflatten_two k1 v1 k2 v2 :
  truthy v1 = true → truthy v2 = true →
  unflatten_dict [(k1, v1); (k2, v2)] "." =
  t ← assign (segments k1) v1 (Node []); assign (segments k2) v2 t.
Proof.
  intros H1 H2. unfold unflatten_dict. cbn [unflatten_loop]. rewrite H1.
  cbn [py_split]. rewrite bind_OK. fold (segments k1). fold (assign (segments k1) v1 (Node [])).
  destruct (assign (segments k1) v1 (Node [])) as [t|e]; [|done].
  rewrite !bind_OK, H2, ?bind_OK.
  fold (segments k2). fold (assign (segments k2) v2 t).
  by destruct (assign (segments k2) v2 t).
Qed.

(** C3, the behaviour of the code.  When a key has been given a leaf and a
    later key goes through that leaf, [unflatten_dict] does not overwrite the
    leaf with a mapping: it stops with [TypeError].  In the other order the
    mapping is replaced by the leaf without any error. *)
Theorem unflatten_prefix_conflict (k rest v v' : string) :
  truthy v = true → truthy v' = true →
  unflatten_dict [(k, v); (k +:+ "." +:+ rest, v')] "." = Raise TypeError
  ∧ unflatten_dict [(k +:+ "." +:+ rest, v'); (k, v)] "."
    = OK (chain (segments k) (Leaf v)).
Proof.
  intros Hv Hv'. rewrite !unflatten_two by done.
  change ("." +:+ rest) with (String "." rest). rewrite segments_app_dot.
  pose proof (segments_nonempty k). pose proof (segments_nonempty rest).
  split.
  - rewrite assign_empty by done. rewrite bind_OK. by apply assign_through_leaf.
  - rewrite assign_empty by by destruct (segments k).
    rewrite bind_OK. by apply assign_over_node.
Qed.

Lemma unflatten_prefix_conflict_witness :
  unflatten_dict [("a", "x"); ("a.b", "y")] "." = Raise TypeError
  ∧ unflatten_dict [("a.b", "y"); ("a", "x")] "." = OK (Node [("a", Leaf "x")]).
Proof. apply (unflatten_prefix_conflict "a" "b" "x" "y"); reflexivity. Defined.

(** ** unflatten_dict: blanks *)

Lemma leaves_dict_get {L} (A : dict (tree L)) k c l :
  dict_get A k = Some c → l ∈ leaves c → l ∈ leaves (Node A).
Proof.
  intros Hk%dict_get_Some_elem Hl. cbn [leaves]. apply elem_of_flat_map.
  by exists (k, c).
Qed.

Lemma leaves_dict_set {L} (A : dict (tree L)) k c l :
  l ∈ leaves (Node (dict_set A k c)) → l ∈ leaves c ∨ l ∈ leaves (Node A).
Proof.
  cbn [leaves]. intros ([k' c'] & [[= -> ->]|Hin]%dict_set_elem & Hl)%elem_of_flat_map.
  - by left.
  - right. apply elem_of_flat_map. by exists (k', c').
Qed.

Lemma assign_path_no_blank init last value current t' :
  truthy value = true →
  EmptyString ∉ leaves current →
  assign_path init last value current = OK t' →
  EmptyString ∉ leaves t'.
Proof.
  intros Hv. revert current t'.
  induction init as [|part rest IH]; intros current t' Hcur.
  - destruct current as [x|A]; [done|]. cbn [assign_path py_setitem].
    intros [= <-] [Hl|Hl]%leaves_dict_set; [|done].
    cbn in Hl. apply list_elem_of_singleton in Hl as <-. done.
  - cbn [assign_path]. destruct current as [x|A].
    { by destruct (py_contains (Leaf x) part). }
    assert (∃ A1, (if py_contains (Node A) part then OK (Node A)
                   else py_setitem (Node A) part (Node [])) = OK (Node A1)
                  ∧ EmptyString ∉ leaves (Node A1)) as (A1 & -> & HA1).
    { destruct (py_contains (Node A) part); [by exists A|].
      eexists; split; [done|]. intros [Hl|Hl]%leaves_dict_set; [|done].
      cbn in Hl. by apply elem_of_nil in Hl. }
    rewrite bind_OK. cbn [py_getitem].
    destruct (dict_get A1 part) as [child|] eqn:Hchild; [|done]. rewrite bind_OK.
    destruct (assign_path rest last value child) as [child'|e] eqn:Hrec; [|done].
    rewrite bind_OK. cbn [py_setitem]. intros [= <-] [Hl|Hl]%leaves_dict_set; [|done].
    revert Hl. apply (IH child); [|done].
    intros Hl. apply HA1. by eapply leaves_dict_get.
Qed.

Lemma unflatten_loop_no_blank items sep t r :
  EmptyString ∉ leaves t →
  unflatten_loop items sep t = OK r → EmptyString ∉ leaves r.
Proof.
  revert t. induction items as [|[key value] items IH]; intros t Ht; cbn [unflatten_loop].
  - by intros [= <-].
  - destruct (truthy value) eqn:Hv; [|by apply IH].
    destruct (py_split key sep) as [parts|e]; [|done]. rewrite bind_OK.
    destruct (assign_path _ _ value t) as [t'|e] eqn:Hassign; [|done].
    rewrite bind_OK. apply IH. by eapply assign_path_no_blank.
Qed.

Lemma unflatten_loop_filter items sep t :
  unflatten_loop items sep t
  = unflatten_loop (List.filter (fun kv => truthy kv.2) items) sep t.
Proof.
  revert t. induction items as [|[key value] items IH]; intros t; [done|].
  cbn [List.filter unflatten_loop snd].
  destruct (truthy value) eqn:Hv; [|by apply IH].
  cbn [unflatten_loop]. rewrite Hv.
  destruct (py_split key sep) as [parts|e]; [|done]. rewrite !bind_OK.
  destruct (assign_path _ _ value t) as [t'|e']; [|done]. rewrite !bind_OK. apply IH.
Qed.

(** C6.  [unflatten_dict] skips every pair whose value is empty: the result
    is the one obtained from the pairs with a non-empty value alone, so a
    skipped pair brings no key into the document, and the document never
    holds an empty-string leaf. *)
Theorem unflatten_skips_blanks :
  (∀ flat_dict sep,
      unflatten_dict flat_dict sep
      = unflatten_dict (List.filter (fun kv => truthy kv.2) flat_dict) sep)
  ∧ (∀ flat_dict sep r,
      unflatten_dict flat_dict sep = OK r → EmptyString ∉ leaves r)
  ∧ unflatten_dict [("a.b", EmptyString)] "." = OK (Node []).
Proof.
  split; [|split; [|reflexivity]].
  - intros. apply unflatten_loop_filter.
  - intros flat_dict sep r. apply unflatten_loop_no_blank. cbn. apply not_elem_of_nil.
Qed.

Lemma unflatten_skips_blanks_witness :
  EmptyString ∉ leaves (Node [("a", Node [("c", Leaf "x")])]).
Proof.
  apply (proj1 (proj2 unflatten_skips_blanks)
           [("a.b", EmptyString); ("a.c", "x"); ("d", EmptyString)] ".").
  reflexivity.
Defined.

(** ** unflatten_dict: keys none of which is a prefix of another *)

Lemma paths_dict_get {L} (A : dict (tree L)) k c ps :
  dict_get A k = Some c → ps ∈ paths c → (k :: ps.1, ps.2) ∈ paths (Node A).
Proof.
  intros Hk%dict_get_Some_elem Hps. cbn [paths]. apply elem_of_flat_map.
  exists (k, c). split; [done|]. apply list_elem_of_fmap. by exists ps.
Qed.

Lemma paths_dict_set {L} (A : dict (tree L)) k c ps :
  ps ∈ paths (Node (dict_set A k c)) →
  (∃ ps', ps = (k :: ps'.1, ps'.2) ∧ ps' ∈ paths c) ∨ ps ∈ paths (Node A).
Proof.
  cbn [paths]. intros ([k' c'] & [[= -> ->]|Hin]%dict_set_elem & Hps)%elem_of_flat_map.
  - left. apply list_elem_of_fmap in Hps as (ps' & -> & Hps'). by exists ps'.
  - right. apply elem_of_flat_map. by exists (k', c').
Qed.

Lemma assign_prefix_free p s A :
  p ≠ [] →
  (∀ ps, ps ∈ paths (Node A) → proper_prefix ps.1 p = false) →
  ∃ A', assign p s (Node A) = OK (Node A')
        ∧ ∀ ps, ps ∈ paths (Node A') → ps.1 = p ∨ ps ∈ paths (Node A).
Proof.
  revert A. induction p as [|k p IH]; intros A Hp HA; [done|].
  destruct p as [|k2 p].
  - rewrite assign_single. eexists; split; [done|].
    intros ps [(ps' & -> & Hps')|Hps]%paths_dict_set; [left|by right].
    cbn in Hps'. by apply list_elem_of_singleton in Hps' as ->.
  - rewrite assign_cons by done.
    assert (∃ A0, default (Node []) (dict_get A k) = Node A0
                  ∧ ∀ ps, ps ∈ paths (Node A0) → (k :: ps.1, ps.2) ∈ paths (Node A))
      as (A0 & -> & HA0).
    { destruct (dict_get A k) as [[x|A0]|] eqn:Hk; cbn [from_option id].
      - exfalso. specialize (HA ([k], x)). cbn [fst proper_prefix] in HA.
        rewrite String.eqb_refl in HA. enough (true = false) by done. apply HA.
        apply (paths_dict_get A k (Leaf x) ([], x) Hk). cbn. apply list_elem_of_here.
      - exists A0. split; [done|]. intros ps. by apply paths_dict_get.
      - exists []. split; [done|]. intros ps Hps. cbn in Hps. by apply elem_of_nil in Hps. }
    destruct (IH A0) as (A0' & -> & HA0'); [done| |].
    { intros ps Hps. specialize (HA _ (HA0 _ Hps)). cbn [fst proper_prefix] in HA.
      by rewrite String.eqb_refl in HA. }
    rewrite bind_OK. eexists; split; [done|].
    intros ps [(ps' & -> & Hps')|Hps]%paths_dict_set; [|by right].
    destruct (HA0' _ Hps') as [Heq|Hin].
    + left. cbn [fst]. by rewrite Heq.
    + right. by apply HA0.
Qed.

Lemma unflatten_loop_prefix_free items A :
  (∀ ps kv, ps ∈ paths (Node A) → kv ∈ items →
            proper_prefix ps.1 (segments kv.1) = false) →
  (∀ kv1 kv2, kv1 ∈ items → kv2 ∈ items →
              proper_prefix (segments kv1.1) (segments kv2.1) = false) →
  ∃ A', unflatten_loop items "." (Node A) = OK (Node A').
Proof.
  revert A. induction items as [|[key value] items IH]; intros A HA Hitems.
  { by exists A. }
  cbn [unflatten_loop].
  assert (∀ kv1 kv2, kv1 ∈ items → kv2 ∈ items →
            proper_prefix (segments kv1.1) (segments kv2.1) = false) as Hrest.
  { intros kv1 kv2 H1 H2. apply Hitems; by apply list_elem_of_further. }
  destruct (truthy value).
  - cbn [py_split]. rewrite bind_OK. fold (segments key).
    fold (assign (segments key) value (Node A)).
    destruct (assign_prefix_free (segments key) value A) as (A' & -> & HA').
    { apply segments_nonempty. }
    { intros ps Hps. apply (HA ps (key, value) Hps), list_elem_of_here. }
    rewrite bind_OK. apply IH; [|done].
    intros ps kv [Heq|Hps]%HA' Hkv.
    + rewrite Heq. apply (Hitems (key, value) kv);
        [apply list_elem_of_here | by apply list_elem_of_further].
    + apply HA; [done | by apply list_elem_of_further].
  - apply IH; [|done]. intros ps kv Hps Hkv. apply HA; [done|].
    by apply list_elem_of_further.
Qed.

Lemma prefix_free_spec keys k1 k2 :
  prefix_free keys = true → k1 ∈ keys → k2 ∈ keys →
  proper_prefix (segments k1) (segments k2) = false.
Proof.
  unfold prefix_free. rewrite forallb_forall.
  intros Hall H1%list_elem_of_In H2%list_elem_of_In.
  specialize (Hall _ H1). rewrite forallb_forall in Hall.
  by apply negb_true_iff, Hall.
Qed.

(** ** Language codes and the two filters *)

(** The writer's test lets through a language code, a language code
    followed by one line feed, and nothing else. *)
Lemma match_lang_code_exact s :
  match_lang_code s = is_lang_code s || lang_code_then_lf s.
Proof.
  destruct s as [|a [|b [|h [|c [|d rest]]]]]; try reflexivity.
  unfold match_lang_code, re_lang_prefix, is_lang_code, lang_code_then_lf, re_dollar.
  destruct (is_lower a && is_lower b && Ascii.eqb h "-" && is_upper c && is_upper d);
    [|by destruct rest as [|e [|? ?]]].
  destruct rest as [|e [|e' rest]]; cbn [andb orb String.eqb]; [done| |].
  - by destruct (Ascii.eqb e LF).
  - by destruct (Ascii.eqb e LF).
Qed.

Lemma endswith_app pre suffix : endswith (pre +:+ suffix) suffix = true.
Proof.
  induction pre as [|a pre IH].
  - rewrite app_Empty. destruct suffix; cbn [endswith]; by rewrite String.eqb_refl.
  - rewrite app_String. cbn [endswith]. by rewrite IH, orb_true_r.
Qed.

Lemma endswith_last_char s suffix :
  suffix ≠ EmptyString → endswith s suffix = true → last_char s = last_char suffix.
Proof.
  intros Hsuf. induction s as [|a s IH]; cbn [endswith].
  - rewrite orb_false_r. intros ->%String.eqb_eq. done.
  - intros [->%String.eqb_eq|Hs]%orb_prop; [done|].
    rewrite <- (IH Hs). destruct s as [|b s]; [|done].
    cbn in Hs. by destruct suffix.
Qed.

(** The loader's test lets through a language code followed by the
    extension, and nothing else. *)
Lemma accepts_file_exact file : accepts_file file = is_lang_file_name file.
Proof.
  unfold accepts_file.
  destruct file as [|a [|b [|h [|c [|d [|p [|j [|s [|o [|n rest]]]]]]]]]];
    try (unfold match_lang_file, re_lang_prefix, is_lang_file_name;
         by rewrite ?andb_false_r).
  unfold match_lang_file, re_lang_prefix, is_lang_file_name.
  destruct (is_lower a && is_lower b && Ascii.eqb h "-" && is_upper c && is_upper d);
    [|by rewrite andb_false_r; destruct rest].
  destruct (Ascii.eqb_spec p ".") as [->|]; [|by rewrite andb_false_r; destruct rest].
  destruct (Ascii.eqb_spec j "j") as [->|]; [|by rewrite andb_false_r; destruct rest].
  destruct (Ascii.eqb_spec s "s") as [->|]; [|by rewrite andb_false_r; destruct rest].
  destruct (Ascii.eqb_spec o "o") as [->|]; [|by rewrite andb_false_r; destruct rest].
  destruct (Ascii.eqb_spec n "n") as [->|]; [|by rewrite andb_false_r; destruct rest].
  cbn [andb]. destruct rest as [|e rest].
  - rewrite andb_true_r.
    apply (endswith_app (String a (String b (String h (String c (String d EmptyString)))))).
  - destruct (re_dollar (String e rest)) eqn:Hd; [|by rewrite andb_false_r].
    rewrite andb_true_r.
    destruct (endswith _ ".json") eqn:Hend; [|done].
    apply endswith_last_char in Hend; [|done].
    unfold re_dollar in Hd. cbn [String.eqb orb] in Hd.
    destruct (Ascii.eqb_spec e LF) as [->|]; [|done].
    apply String.eqb_eq in Hd as ->. cbn in Hend. done.
Qed.

Lemma save_loop_skip write_error output_dir lang_code flat_dict rest w :
  is_lang_code lang_code = false → lang_code_then_lf lang_code = false →
  save_loop write_error output_dir ((lang_code, flat_dict) :: rest) w
  = save_loop write_error output_dir rest
      (w_print ("Skipping invalid language code: " +:+ lang_code) w).
Proof.
  intros H1 H2. cbn [save_loop]. by rewrite match_lang_code_exact, H1, H2.
Qed.

Lemma load_loop_skip file content rest valid_langs translations out :
  is_lang_file_name file = false →
  load_loop ((file, content) :: rest) valid_langs translations out
  = load_loop rest valid_langs translations out.
Proof.
  intros Hfile. cbn [load_loop]. fold (accepts_file file).
  by rewrite accepts_file_exact, Hfile.
Qed.

Lemma load_loop_filter files valid_langs translations out :
  load_loop files valid_langs translations out
  = load_loop (List.filter (fun f => is_lang_file_name f.1) files)
      valid_langs translations out.
Proof.
  revert translations out. induction files as [|[file content] files IH];
    intros translations out; [done|].
  cbn [List.filter fst]. destruct (is_lang_file_name file) eqn:Hfile.
  - cbn [load_loop]. fold (accepts_file file). rewrite accepts_file_exact, Hfile.
    destruct (match valid_langs with None => true | Some vl => _ end); [|apply IH].
    destruct content as [[l|data]| |msg|]; try done; apply IH.
  - rewrite load_loop_skip by done. apply IH.
Qed.

Lemma save_loop_out_mono write_error output_dir tr w line :
  line ∈ w_out w → line ∈ w_out (save_loop write_error output_dir tr w).1.
Proof.
  revert w. induction tr as [|[c d] tr IH]; intros w Hline; [done|].
  cbn [save_loop]. destruct (negb (match_lang_code c)).
  { apply IH. cbn. apply elem_of_app. by left. }
  destruct (unflatten_dict d ".") as [t|e]; [|done].
  destruct (write_error _); apply IH; cbn; apply elem_of_app; by left.
Qed.

Lemma save_loop_diagnostic write_error output_dir tr w c d :
  (save_loop write_error output_dir tr w).2 = OK () →
  (c, d) ∈ tr → match_lang_code c = false →
  ("Skipping invalid language code: " +:+ c)
    ∈ w_out (save_loop write_error output_dir tr w).1.
Proof.
  revert w. induction tr as [|[c' d'] tr IH]; intros w Hok Hin Hc.
  { by apply elem_of_nil in Hin. }
  apply elem_of_cons in Hin as [[= <- <-]|Hin].
  - cbn [save_loop]. rewrite Hc. cbn [negb]. apply save_loop_out_mono.
    cbn. apply elem_of_app. right. apply list_elem_of_here.
  - cbn [save_loop] in *. destruct (negb (match_lang_code c')); [by apply IH|].
    destruct (unflatten_dict d' ".") as [t|e]; [|done].
    destruct (write_error _); by apply IH.
Qed.

Lemma save_loop_filter write_error output_dir tr w w' :
  w_files w = w_files w' →
  (save_loop write_error output_dir tr w).2
  = (save_loop write_error output_dir
       (List.filter (fun l => match_lang_code l.1) tr) w').2
  ∧ w_files (save_loop write_error output_dir tr w).1
    = w_files (save_loop write_error output_dir
                 (List.filter (fun l => match_lang_code l.1) tr) w').1.
Proof.
  revert w w'. induction tr as [|[c d] tr IH]; intros w w' Hw; [done|].
  cbn [List.filter fst]. destruct (match_lang_code c) eqn:Hc.
  - cbn [save_loop]. rewrite Hc. cbn [negb].
    destruct (unflatten_dict d ".") as [t|e]; [|done].
    destruct (write_error _); apply IH; cbn; by rewrite ?Hw.
  - cbn [save_loop]. rewrite Hc. cbn [negb]. by apply IH.
Qed.

(** C9 (as amended).  Writing: a language code that is neither of the form
    xx-YY nor such a code followed by a line feed is skipped, one line naming
    it goes to the progress stream, no file is written for it, and the
    remaining languages are processed as if it had not been there; a run
    that ends normally has emitted that line for every such code, and the
    files written and the way the run ends are those of the run without
    these codes.  Loading: a file whose name is not a language code followed
    by the extension is skipped without any line on the progress stream, and
    the run is the run on the remaining files. *)
Theorem invalid_code_skipped :
  (∀ write_error output_dir lang_code flat_dict rest w,
      is_lang_code lang_code = false → lang_code_then_lf lang_code = false →
      save_loop write_error output_dir ((lang_code, flat_dict) :: rest) w
      = save_loop write_error output_dir rest
          (w_print ("Skipping invalid language code: " +:+ lang_code) w))
  ∧ (∀ write_error output_dir translations,
      let keep (l : string * dict string) := is_lang_code l.1 || lang_code_then_lf l.1 in
      let run := save_translations_to_json true write_error translations output_dir in
      let run' := save_translations_to_json true write_error
                    (List.filter keep translations) output_dir in
      run.2 = run'.2
      ∧ w_files run.1 = w_files run'.1
      ∧ (run.2 = OK () →
         ∀ c d, (c, d) ∈ translations → keep (c, d) = false →
                ("Skipping invalid language code: " +:+ c) ∈ w_out run.1))
  ∧ (∀ file content rest valid_langs translations out,
      is_lang_file_name file = false →
      load_loop ((file, content) :: rest) valid_langs translations out
      = load_loop rest valid_langs translations out)
  ∧ (∀ lang_dir files valid_langs,
      load_json_files lang_dir (Some files) valid_langs
      = load_json_files lang_dir
          (Some (List.filter (fun f => is_lang_file_name f.1) files)) valid_langs)
  ∧ load_json_files "input"
      (Some [("english.json", ReadOK doc_a); ("en-US.json", ReadOK doc_a);
             ("fr-FR.json", ReadOK doc_a)]) None
    = ([], OK [("en-US", [("a", "x")]); ("fr-FR", [("a", "x")])])
  ∧ save_translations_to_json true (fun _ => None)
      [("english", [("a", "x")]); ("en-US", [("a", "x")])] "out"
    = ({| w_out := ["Skipping invalid language code: english";
                    "Generated JSON file: out/en-US.json"];
          w_files := [("out/en-US.json", Node [("a", Leaf "x")])] |}, OK ()).
Proof.
  split; [|split; [|split; [|split; [|split; reflexivity]]]].
  - intros. by apply save_loop_skip.
  - intros write_error output_dir translations keep run run'.
    unfold run, run', save_translations_to_json.
    rewrite (List.filter_ext keep (fun l => match_lang_code l.1))
      by (intros l; unfold keep; by rewrite match_lang_code_exact).
    split; [|split].
    + by apply save_loop_filter.
    + by apply save_loop_filter.
    + intros Hok c d Hin Hkeep. eapply save_loop_diagnostic; [done|done|].
      unfold keep in Hkeep. by rewrite match_lang_code_exact.
  - intros. by apply load_loop_skip.
  - intros. apply load_loop_filter.
Qed.

Lemma invalid_code_skipped_witness :
  save_loop (fun _ => None) "out" [("english", [("a", "x")]); ("en-US", [("a", "x")])]
    {| w_out := []; w_files := [] |}
  = save_loop (fun _ => None) "out" [("en-US", [("a", "x")])]
      (w_print "Skipping invalid language code: english" {| w_out := []; w_files := [] |})
  ∧ load_loop [("english.json", ReadOK doc_a); ("en-US.json", ReadOK doc_a)] None [] []
    = load_loop [("en-US.json", ReadOK doc_a)] None [] []
  ∧ "Skipping invalid language code: english"
    ∈ w_out (save_translations_to_json true (fun _ => None)
               [("en-US", [("a", "x")]); ("english", [("a", "x")])] "out").1.
Proof.
  split; [|split].
  - apply (proj1 invalid_code_skipped (fun _ => None) "out" "english"); reflexivity.
  - apply (proj1 (proj2 (proj2 invalid_code_skipped)) "english.json"). reflexivity.
  - apply (proj1 (proj2 invalid_code_skipped) (fun _ => None) "out"
             [("en-US", [("a", "x")]); ("english", [("a", "x")])])
      with (d := [("a", "x")]).
    + reflexivity.
    + apply list_elem_of_further, list_elem_of_here.
    + reflexivity.
Defined.

(** C9 (as stated) fails on the loading side: the file whose name is not a
    language code is left out, but the progress stream holds no line at all,
    so none that names it. *)
Lemma load_skips_silently_counterexample :
  let run := load_json_files "input"
               (Some [("english.json", ReadOK doc_a); ("en-US.json", ReadOK doc_a);
                      ("fr-FR.json", ReadOK doc_a)]) None in
  is_lang_file_name "english.json" = false
  ∧ run.2 = OK [("en-US", [("a", "x")]); ("fr-FR", [("a", "x")])]
  ∧ ¬ ∃ line, line ∈ run.1 ∧ contains line "english.json" = true.
Proof.
  split; [reflexivity|]. split; [reflexivity|]. intros (line & Hline & _).
  vm_compute in Hline. by apply elem_of_nil in Hline.
Qed.

(** ** More on dictionaries *)

Section dict_more.
Context {V : Type}.
Implicit Types (d : dict V) (k : string) (v : V).

Lemma dict_set_key_elem d k v k' : k' ∈ (dict_set d k v).*1 ↔ k' = k ∨ k' ∈ d.*1.
Proof.
  rewrite dict_set_keys. destruct (bool_decide_reflect (k ∈ d.*1)) as [Hin|Hnin].
  - split; [by right | by intros [->|?]].
  - rewrite elem_of_app, list_elem_of_singleton. tauto.
Qed.

Lemma dict_set_is_dict d k v : NoDup (d.*1) → NoDup ((dict_set d k v).*1).
Proof.
  intros Hnd. rewrite dict_set_keys.
  destruct (bool_decide_reflect (k ∈ d.*1)) as [Hin|Hnin]; [done|].
  apply NoDup_app. split; [done|]. split; [|apply NoDup_singleton].
  by intros x Hx ->%list_elem_of_singleton.
Qed.

Lemma fold_dict_set_keys (l : list (string * V)) d k :
  k ∈ (fold_left (fun d kv => dict_set d kv.1 kv.2) l d).*1 ↔ k ∈ d.*1 ∨ k ∈ l.*1.
Proof.
  revert d. induction l as [|[k' v] l IH]; intros d; cbn [fold_left].
  - rewrite fmap_nil, elem_of_nil. tauto.
  - rewrite IH, dict_set_key_elem, fmap_cons, elem_of_cons. cbn [fst]. tauto.
Qed.

Lemma dict_of_items_keys (l : list (string * V)) k :
  k ∈ (dict_of_items l).*1 ↔ k ∈ l.*1.
Proof.
  unfold dict_of_items. rewrite fold_dict_set_keys, fmap_nil, elem_of_nil. tauto.
Qed.

Lemma fold_dict_set_is_dict (l : list (string * V)) d :
  NoDup (d.*1) → NoDup ((fold_left (fun d kv => dict_set d kv.1 kv.2) l d).*1).
Proof.
  revert d. induction l as [|[k v] l IH]; intros d Hd; [done|].
  cbn [fold_left]. apply IH. by apply dict_set_is_dict.
Qed.

Lemma dict_of_items_is_dict (l : list (string * V)) : is_dict (dict_of_items l).
Proof. apply fold_dict_set_is_dict. constructor. Qed.

Lemma fold_dict_set_labels (G : string → V) (labels : list string) d :
  fold_left (fun d L => dict_set d L (G L)) labels d
  = fold_left (fun d kv => dict_set d kv.1 kv.2) (map (fun L => (L, G L)) labels) d.
Proof. revert d. induction labels as [|L labels IH]; intros d; [done|]. apply IH. Qed.

Lemma dict_get_app_r d d' k : k ∉ d.*1 → dict_get (d ++ d') k = dict_get d' k.
Proof.
  induction d as [|[k' v'] d IH]; [done|]. rewrite fmap_cons, not_elem_of_cons.
  intros [Hne Hk]. cbn [app dict_get fst].
  destruct (String.eqb_spec k' k) as [->|_]; [done | by apply IH].
Qed.

Lemma dict_set_app_r d d' k v :
  k ∉ d.*1 → dict_set (d ++ d') k v = d ++ dict_set d' k v.
Proof.
  induction d as [|[k' v'] d IH]; [done|]. rewrite fmap_cons, not_elem_of_cons.
  intros [Hne Hk]. cbn [app dict_set fst].
  destruct (String.eqb_spec k' k) as [->|_]; [done | by rewrite IH].
Qed.
End dict_more.

(** ** read_excel_to_translations *)

Lemma notna_items_elem index series key s :
  (key, s) ∈ notna_items index series ↔
  ∃ c, (key, c) ∈ zip index series ∧ notna c = true ∧ s = cell_str c.
Proof.
  unfold notna_items. rewrite list_elem_of_omap. split.
  - intros ([k c] & Hin & Hf). cbn [fst snd] in Hf.
    destruct (notna c) eqn:Hc; [|done]. injection Hf as -> <-. by exists c.
  - intros (c & Hin & Hc & ->). exists (key, c). cbn [fst snd]. by rewrite Hc.
Qed.

Lemma notna_items_keys index series key :
  key ∈ (notna_items index series).*1 → key ∈ index.
Proof.
  intros ([k s] & -> & (c & Hin & _)%notna_items_elem)%list_elem_of_fmap.
  by apply elem_of_zip_l in Hin.
Qed.

Lemma notna_items_nodup index series :
  NoDup index → NoDup ((notna_items index series).*1).
Proof.
  intros Hnd. revert series. induction Hnd as [|k index Hk Hnd IH]; intros series.
  { constructor. }
  destruct series as [|c series]; [constructor|].
  unfold notna_items. cbn [zip zip_with omap list_omap fst snd].
  destruct (notna c).
  - rewrite fmap_cons. apply NoDup_cons. split; [|apply IH].
    intros Hin. by apply Hk, (notna_items_keys index series).
  - apply IH.
Qed.

Lemma read_excel_closed df :
  NoDup (df_labels df) →
  read_excel_to_translations df
  = map (fun col => (col.1, lang_dict_of (df_index df) col.2)) (df_columns df).
Proof.
  intros Hnd. unfold read_excel_to_translations.
  rewrite (fold_dict_set_labels
             (fun L => lang_dict_of (df_index df) (default [] (dict_get (df_columns df) L)))).
  rewrite fold_dict_set_fresh.
  - unfold df_labels. cbn [app]. rewrite map_map. apply map_ext_in.
    intros [L series] Hin%list_elem_of_In. cbn [fst snd].
    by rewrite (dict_get_nodup _ L series).
  - cbn [fmap list_fmap app]. rewrite <- list_fmap_compose.
    by rewrite (list_fmap_ext _ id (df_labels df)), list_fmap_id.
Qed.

Lemma zip_key_unique {K A} (index : list K) (series : list A) key c c' :
  NoDup index → (key, c) ∈ zip index series → (key, c') ∈ zip index series → c = c'.
Proof.
  intros Hnd. revert series. induction Hnd as [|k index Hk Hnd IH]; intros series.
  { by intros ?%elem_of_nil. }
  destruct series as [|c0 series]; [by intros ?%elem_of_nil|].
  cbn [zip zip_with].
  intros [E1|H1]%elem_of_cons [E2|H2]%elem_of_cons.
  - congruence.
  - injection E1 as -> ->. by apply elem_of_zip_l in H2.
  - injection E2 as -> ->. by apply elem_of_zip_l in H1.
  - by apply (IH series).
Qed.

Lemma notna_spec c : notna c = true ↔ c ≠ NaN.
Proof. by destruct c. Qed.

(** The loop of [read_excel_to_translations] on a frame: an entry exactly
    for the cells that are not the missing value, holding what [str] gives
    for the cell. *)
Lemma read_excel_frame_cells (df : DataFrame) (lang : string) (series : list cell) :
  NoDup (df_labels df) →
  (lang, series) ∈ df_columns df →
  ∃ lang_dict,
    dict_get (read_excel_to_translations df) lang = Some lang_dict
    ∧ is_dict lang_dict
    ∧ (∀ key, key ∈ lang_dict.*1 ↔
              ∃ c, (key, c) ∈ zip (df_index df) series ∧ c ≠ NaN)
    ∧ (∀ key s, dict_get lang_dict key = Some s →
                ∃ c, (key, c) ∈ zip (df_index df) series
                     ∧ (c = CStr s
                        ∨ (∃ z, c = CInt z ∧ s = NilZero.string_of_int (Z.to_int z))
                        ∨ (c = CBool true ∧ s = "True")
                        ∨ (c = CBool false ∧ s = "False")
                        ∨ c = COther s))
    ∧ (NoDup (df_index df) →
       (∀ key t, (key, CStr t) ∈ zip (df_index df) series →
                 dict_get lang_dict key = Some t)
       ∧ (∀ key z, (key, CInt z) ∈ zip (df_index df) series →
                   dict_get lang_dict key = Some (NilZero.string_of_int (Z.to_int z)))
       ∧ (∀ key b, (key, CBool b) ∈ zip (df_index df) series →
                   dict_get lang_dict key = Some (if b then "True" else "False"))
       ∧ (∀ key text, (key, COther text) ∈ zip (df_index df) series →
                      dict_get lang_dict key = Some text)
       ∧ (∀ key, (key, NaN) ∈ zip (df_index df) series →
                 dict_get lang_dict key = None))
    ∧ (∀ key, (∀ c, (key, c) ∈ zip (df_index df) series → c = NaN) →
              dict_get lang_dict key = None).
Proof.
  intros Hnd Hcol. exists (lang_dict_of (df_index df) series).
  assert (∀ key, key ∈ (lang_dict_of (df_index df) series).*1 ↔
              ∃ c, (key, c) ∈ zip (df_index df) series ∧ c ≠ NaN) as Hkeys.
  { intros key. unfold lang_dict_of. fold (notna_items (df_index df) series).
    rewrite dict_of_items_keys, list_elem_of_fmap. split.
    - intros ([k s] & -> & (c & Hin & Hc%notna_spec & _)%notna_items_elem). by exists c.
    - intros (c & Hin & Hc%notna_spec). exists (key, cell_str c). split; [done|].
      apply notna_items_elem. by exists c. }
  assert (∀ key, (∀ c, (key, c) ∈ zip (df_index df) series → c = NaN) →
                 dict_get (lang_dict_of (df_index df) series) key = None) as Hnone.
  { intros key Hall. apply dict_get_None. rewrite Hkeys.
    intros (c & Hin & Hc). by apply Hc, Hall. }
  split; [|split; [|split; [|split; [|split]]]].
  - rewrite read_excel_closed by done.
    apply (dict_get_nodup _ lang (lang_dict_of (df_index df) series)).
    + rewrite <- list_fmap_compose.
      by rewrite (list_fmap_ext _ fst (df_columns df)).
    + apply list_elem_of_fmap. by exists (lang, series).
  - apply dict_of_items_is_dict.
  - exact Hkeys.
  - intros key s Hget%dict_get_Some_elem.
    apply dict_of_items_elem, notna_items_elem in Hget as (c & Hin & Hc & ->).
    exists c. split; [done|]. destruct c as [|t|z|[|]|text]; cbn [cell_str]; try done.
    + by left.
    + right. left. by exists z.
    + right. right. by left.
    + do 3 right. by left.
    + by do 4 right.
  - intros Hindex.
    assert (∀ key c, (key, c) ∈ zip (df_index df) series → c ≠ NaN →
                     dict_get (lang_dict_of (df_index df) series) key = Some (cell_str c))
      as Hsome.
    { intros key c Hin Hc%notna_spec. unfold lang_dict_of.
      fold (notna_items (df_index df) series).
      rewrite dict_of_items_nodup by by apply notna_items_nodup.
      apply dict_get_nodup; [by apply notna_items_nodup|].
      apply notna_items_elem. by exists c. }
    split; [|split; [|split; [|split]]].
    + intros key t Hin. by apply (Hsome key (CStr t)).
    + intros key z Hin. by apply (Hsome key (CInt z)).
    + intros key b Hin. rewrite (Hsome key (CBool b)) by done. by destruct b.
    + intros key text Hin. by apply (Hsome key (COther text)).
    + intros key Hin. apply Hnone. intros c Hc.
      by apply (zip_key_unique (df_index df) series key).
  - exact Hnone.
Qed.

(** ** The frame built by create_excel *)

Lemma list_mem_spec x l : list_mem x l = true ↔ x ∈ l.
Proof.
  unfold list_mem. rewrite existsb_exists. split.
  - intros (y & Hy%list_elem_of_In & ->%String.eqb_eq). done.
  - intros Hx. exists x. split; [by apply list_elem_of_In | apply String.eqb_refl].
Qed.

Lemma list_mem_false x l : list_mem x l = false ↔ x ∉ l.
Proof. rewrite <- list_mem_spec. by destruct (list_mem x l). Qed.

Lemma defaultdict_set_fresh {V} (d : dict (dict V)) k1 k2 v :
  k1 ∉ d.*1 → defaultdict_set d k1 k2 v = d ++ [(k1, [(k2, v)])].
Proof.
  intros Hk. unfold defaultdict_set.
  rewrite (proj2 (dict_get_None d k1) Hk). cbn [from_option dict_set].
  by apply dict_set_fresh.
Qed.

Lemma defaultdict_set_at {V} (A B : dict (dict V)) k1 X k2 v :
  k1 ∉ A.*1 → k2 ∉ X.*1 →
  defaultdict_set (A ++ (k1, X) :: B) k1 k2 v = A ++ (k1, X ++ [(k2, v)]) :: B.
Proof.
  intros Hk1 Hk2. unfold defaultdict_set.
  rewrite dict_get_app_r by done. cbn [dict_get]. rewrite String.eqb_refl.
  cbn [from_option id]. rewrite dict_set_app_r by done.
  cbn [dict_set]. rewrite String.eqb_refl. by rewrite dict_set_fresh.
Qed.

Lemma fold_row_at (g : string * dict string → string) key dd r X :
  key ∉ dd.*1 → NoDup (X.*1 ++ r.*1) →
  fold_left (fun dd lang => defaultdict_set dd key lang.1 (g lang)) r (dd ++ [(key, X)])
  = dd ++ [(key, X ++ map (fun lang => (lang.1, g lang)) r)].
Proof.
  intros Hkey. revert X. induction r as [|lang r IH]; intros X Hnd.
  { cbn. by rewrite app_nil_r. }
  cbn [fold_left map]. rewrite defaultdict_set_at; [|done|].
  - rewrite IH.
    + by rewrite <- app_assoc.
    + rewrite fmap_app. cbn. by rewrite <- app_assoc.
  - head_fresh Hnd.
Qed.

Lemma fold_row (g : string * dict string → string) key dd tr :
  tr ≠ [] → NoDup (tr.*1) → key ∉ dd.*1 →
  fold_left (fun dd lang => defaultdict_set dd key lang.1 (g lang)) tr dd
  = dd ++ [(key, map (fun lang => (lang.1, g lang)) tr)].
Proof.
  intros Htr Hnd Hkey. destruct tr as [|lang r]; [done|].
  cbn [fold_left map]. rewrite defaultdict_set_fresh by done.
  by rewrite (fold_row_at g key dd r [(lang.1, g lang)]).
Qed.

Lemma build_df_data_app tr todo acc :
  tr ≠ [] → NoDup (tr.*1) → NoDup (acc.*1 ++ todo) →
  fold_left
    (fun df_data key =>
       fold_left (fun dd lang => defaultdict_set dd key lang.1 (dict_get_or lang.2 key ""))
                 tr df_data) todo acc
  = acc ++ map (fun key => (key, row_of tr key)) todo.
Proof.
  intros Htr Hnd. revert acc. induction todo as [|key todo IH]; intros acc Hacc.
  { cbn. by rewrite app_nil_r. }
  cbn [fold_left map].
  rewrite (fold_row (fun lang => dict_get_or lang.2 key "")); [|done|done|].
  - fold (row_of tr key). rewrite IH; [by rewrite <- app_assoc|].
    rewrite fmap_app. cbn. by rewrite <- app_assoc.
  - head_fresh Hacc.
Qed.

Lemma build_df_data_closed tr keys :
  tr ≠ [] → NoDup (tr.*1) → NoDup keys →
  build_df_data tr keys = map (fun key => (key, row_of tr key)) keys.
Proof. intros. unfold build_df_data. by rewrite build_df_data_app. Qed.

Lemma fold_first_row k (row : dict string) nd :
  NoDup (nd.*1 ++ row.*1) →
  fold_left (fun nd cv => defaultdict_set nd cv.1 k cv.2) row nd
  = nd ++ map (fun cv => (cv.1, [(k, cv.2)])) row.
Proof.
  revert nd. induction row as [|cv row IH]; intros nd Hnd.
  { cbn. by rewrite app_nil_r. }
  cbn [fold_left map]. rewrite defaultdict_set_fresh.
  - rewrite IH; [by rewrite <- app_assoc|]. rewrite fmap_app. cbn. by rewrite <- app_assoc.
  - head_fresh Hnd.
Qed.

Lemma col_of_snoc done k lang :
  col_of (done ++ [k]) lang = (lang.1, (col_of done lang).2 ++ [(k, dict_get_or lang.2 k "")]).
Proof. unfold col_of. cbn [fst snd]. by rewrite map_app. Qed.

Lemma fold_next_row done k pre post :
  NoDup ((pre ++ post).*1) → k ∉ done →
  fold_left (fun nd cv => defaultdict_set nd cv.1 k cv.2) (row_of post k)
    (map (col_of (done ++ [k])) pre ++ map (col_of done) post)
  = map (col_of (done ++ [k])) (pre ++ post).
Proof.
  intros Hnd Hk. revert pre Hnd. induction post as [|lang post IH]; intros pre Hnd.
  { cbn. by rewrite !app_nil_r. }
  cbn [row_of map fold_left fst snd]. fold (row_of post k).
  change (col_of done lang) with (lang.1, (col_of done lang).2).
  rewrite defaultdict_set_at.
  - rewrite <- col_of_snoc.
    replace (pre ++ lang :: post) with ((pre ++ [lang]) ++ post) in * by by rewrite <- app_assoc.
    rewrite <- (IH (pre ++ [lang])) by done.
    by rewrite map_app, <- app_assoc.
  - rewrite fmap_app in Hnd. apply NoDup_app in Hnd as (_ & Hd & _).
    intros Hin. apply (Hd lang.1).
    + apply list_elem_of_fmap in Hin as (c & Hc & Hin).
      apply list_elem_of_fmap in Hin as (l' & -> & Hl'). cbn in Hc. rewrite Hc.
      by apply list_elem_of_fmap_2.
    + apply list_elem_of_here.
  - cbn [col_of snd]. intros Hin. apply Hk.
    apply list_elem_of_fmap in Hin as (c & -> & Hin).
    apply list_elem_of_fmap in Hin as (k' & -> & Hk'). done.
Qed.

Lemma from_nested_rows tr done todo :
  NoDup (tr.*1) → NoDup (done ++ todo) → done ≠ [] →
  fold_left
    (fun new_data row =>
       fold_left (fun nd cv => defaultdict_set nd cv.1 row.1 cv.2) row.2 new_data)
    (map (fun key => (key, row_of tr key)) todo) (map (col_of done) tr)
  = map (col_of (done ++ todo)) tr.
Proof.
  intros Htr. revert done. induction todo as [|k todo IH]; intros done Hnd Hdone.
  { cbn. by rewrite app_nil_r. }
  cbn [map fold_left fst snd].
  pose proof (fold_next_row done k [] tr) as Hrow. cbn [map app] in Hrow.
  rewrite Hrow; [|done|].
  - replace (done ++ k :: todo) with ((done ++ [k]) ++ todo) in *
      by by rewrite <- app_assoc.
    apply IH; [done | by destruct done].
  - head_fresh Hnd.
Qed.

Lemma from_nested_dict_closed tr keys :
  NoDup (tr.*1) → NoDup keys → keys ≠ [] →
  from_nested_dict (map (fun key => (key, row_of tr key)) keys) = map (col_of keys) tr.
Proof.
  intros Htr Hkeys Hne. destruct keys as [|k keys]; [done|].
  unfold from_nested_dict. cbn [map fold_left fst snd].
  rewrite fold_first_row.
  - cbn [app]. unfold row_of at 2. rewrite map_map. cbn [fst snd].
    change (k :: keys) with ([k] ++ keys) in *.
    by rewrite <- (from_nested_rows tr [k] keys).
  - cbn [fmap list_fmap app]. unfold row_of. rewrite <- list_fmap_compose.
    by rewrite (list_fmap_ext _ fst tr).
Qed.

Lemma fold_union_known l acc :
  (∀ k, k ∈ l → k ∈ acc) → fold_left union_step l acc = acc.
Proof.
  induction l as [|k l IH]; intros Hl; [done|]. cbn [fold_left]. unfold union_step at 2.
  rewrite (proj2 (list_mem_spec k acc)) by apply Hl, list_elem_of_here.
  apply IH. intros k' Hk'. by apply Hl, list_elem_of_further.
Qed.

Lemma fold_union_fresh l acc :
  NoDup (acc ++ l) → fold_left union_step l acc = acc ++ l.
Proof.
  revert acc. induction l as [|k l IH]; intros acc Hnd.
  { cbn. by rewrite app_nil_r. }
  cbn [fold_left]. unfold union_step at 2.
  rewrite (proj2 (list_mem_false k acc)).
  - rewrite IH; by rewrite <- app_assoc.
  - head_fresh Hnd.
Qed.

Lemma union_labels_same {X} (keys : list string) (tr : list X) :
  tr ≠ [] → NoDup keys → union_labels (map (fun _ => keys) tr) = keys.
Proof.
  intros Htr Hnd. destruct tr as [|x tr]; [done|].
  unfold union_labels. change (fold_left _ ?l ?a) with (fold_left union_step l a).
  cbn [map concat]. rewrite fold_left_app. rewrite (fold_union_fresh keys []) by exact Hnd.
  cbn [app].
  apply fold_union_known. intros k (l & Hl & Hk)%list_elem_of_In%in_concat.
  apply in_map_iff in Hl as (_ & <- & _). by apply list_elem_of_In.
Qed.

Lemma dict_get_map_key {V} (f : string → V) keys i :
  i ∈ keys → dict_get (map (fun k => (k, f k)) keys) i = Some (f i).
Proof.
  induction keys as [|k keys IH]; [by intros ?%elem_of_nil|].
  cbn [map dict_get]. destruct (String.eqb_spec k i) as [->|Hne]; [done|].
  intros [?|?]%elem_of_cons; [congruence | by apply IH].
Qed.

Lemma frame_of_columns_closed tr keys :
  tr ≠ [] → NoDup keys →
  frame_of_columns (map (col_of keys) tr)
  = {| df_index := keys; df_columns := map (series_of keys) tr |}.
Proof.
  intros Htr Hnd. unfold frame_of_columns.
  assert (union_labels (map (fun col => col.2.*1) (map (col_of keys) tr)) = keys) as ->.
  { rewrite map_map. rewrite (map_ext _ (fun _ => keys)).
    - by apply union_labels_same.
    - intros lang. cbn [col_of snd]. rewrite <- list_fmap_compose.
      by rewrite (list_fmap_ext _ id keys), list_fmap_id. }
  f_equal. rewrite map_map. apply map_ext. intros lang.
  unfold series_of, col_of. cbn [fst snd]. f_equal.
  apply map_ext_in. intros i Hi%list_elem_of_In.
  by rewrite (dict_get_map_key (fun key => dict_get_or lang.2 key "")).
Qed.

Lemma mapM_select_ok columns cols :
  (∀ c, c ∈ cols → c ∈ columns.*1) →
  mapM (M := exc) (select_column columns) cols
  = OK (map (fun c => (c, default [] (dict_get columns c))) cols).
Proof.
  induction cols as [|c cols IH]; intros Hcols; [done|].
  cbn [mapM map]. rewrite IH by (intros; by apply Hcols, list_elem_of_further).
  unfold select_column at 1.
  destruct (dict_get columns c) as [series|] eqn:Hc; [done|].
  apply dict_get_None in Hc. destruct Hc. apply Hcols, list_elem_of_here.
Qed.

Lemma df_select_ok df cols :
  (∀ c, c ∈ cols → c ∈ df_labels df) →
  df_select df cols
  = OK {| df_index := df_index df;
          df_columns := map (fun c => (c, default [] (dict_get (df_columns df) c))) cols |}.
Proof.
  intros Hcols. unfold df_select.
  change (mapM _ cols) with (mapM (M := exc) (select_column (df_columns df)) cols).
  by rewrite mapM_select_ok.
Qed.

Lemma sorted_perm l : sorted l ≡ₚ l.
Proof. apply merge_sort_Permutation. Qed.

Lemma sorted_Sorted l : Sorted String.le (sorted l).
Proof. apply (Sorted_merge_sort String.le). Qed.

Lemma remove_first_perm x l : x ∈ l → x :: remove_first x l ≡ₚ l.
Proof.
  induction l as [|y l IH]; [by intros ?%elem_of_nil|].
  cbn [remove_first]. destruct (String.eqb_spec y x) as [->|Hne]; [done|].
  intros [?|Hin]%elem_of_cons; [congruence|].
  rewrite Permutation_swap. by rewrite (IH Hin).
Qed.

Lemma order_columns_perm cols p : order_columns cols p ≡ₚ cols.
Proof.
  unfold order_columns. destruct (list_mem p cols) eqn:Hp.
  - rewrite sorted_perm. by apply remove_first_perm, list_mem_spec.
  - apply sorted_perm.
Qed.

Lemma order_columns_shape cols p :
  (p ∈ cols → ∃ rest, order_columns cols p = p :: rest ∧ Sorted String.le rest)
  ∧ (p ∉ cols → Sorted String.le (order_columns cols p)).
Proof.
  unfold order_columns. split.
  - intros Hp%list_mem_spec. rewrite Hp. eexists; split; [done|]. apply sorted_Sorted.
  - intros Hp%list_mem_false. rewrite Hp. apply sorted_Sorted.
Qed.

Lemma collect_keys_fold tr (acc : gset string) k :
  k ∈ fold_left (fun all_keys lang => all_keys ∪ list_to_set (lang.2.*1)) tr acc
  ↔ k ∈ acc ∨ ∃ lang : string * dict string, lang ∈ tr ∧ k ∈ lang.2.*1.
Proof.
  revert acc. induction tr as [|lang tr IH]; intros acc; cbn [fold_left].
  - split; [by left|]. intros [?|(? & []%elem_of_nil & _)]. done.
  - rewrite IH, elem_of_union, elem_of_list_to_set. split.
    + intros [[?|?]|(l & ? & ?)]; [by left| |].
      * right. exists lang. split; [apply list_elem_of_here | done].
      * right. exists l. split; [by apply list_elem_of_further | done].
    + intros [?|(l & [->|?]%elem_of_cons & ?)]; [by left; left|by left; right|].
      right. by exists l.
Qed.

Lemma collect_keys_spec tr k :
  k ∈ collect_keys tr ↔ ∃ lang : string * dict string, lang ∈ tr ∧ k ∈ lang.2.*1.
Proof.
  unfold collect_keys. rewrite collect_keys_fold. split; [|by right].
  intros [[]%not_elem_of_empty|?]. done.
Qed.

Lemma row_keys_spec tr :
  let keys := sorted (elements (collect_keys tr)) in
  NoDup keys ∧ Sorted String.le keys
  ∧ ∀ k, k ∈ keys ↔ ∃ lang : string * dict string, lang ∈ tr ∧ k ∈ lang.2.*1.
Proof.
  intros keys. unfold keys. split; [|split].
  - rewrite sorted_perm. apply NoDup_elements.
  - apply sorted_Sorted.
  - intros k. by rewrite sorted_perm, elem_of_elements, collect_keys_spec.
Qed.

Lemma series_labels keys tr : (map (series_of keys) tr).*1 = tr.*1.
Proof. rewrite <- list_fmap_compose. by apply list_fmap_ext. Qed.

Lemma create_excel_closed tr p :
  NoDup (tr.*1) →
  let keys := sorted (elements (collect_keys tr)) in
  (keys ≠ [] →
   create_excel tr p
   = OK {| df_index := keys;
           df_columns :=
             map (fun c => (c, default [] (dict_get (map (series_of keys) tr) c)))
                 (order_columns (tr.*1) p) |})
  ∧ (keys = [] → create_excel tr p = OK {| df_index := []; df_columns := [] |}).
Proof.
  intros Htr keys. destruct (row_keys_spec tr) as (Hnd & _ & Hkeys). fold keys in Hnd, Hkeys.
  unfold create_excel. fold keys. split.
  - intros Hne. assert (tr ≠ []) as Htr'.
    { destruct keys as [|k ?]; [done|].
      destruct (proj1 (Hkeys k) (list_elem_of_here _ _)) as (lang & Hlang & _).
      intros ->. by apply elem_of_nil in Hlang. }
    rewrite build_df_data_closed by done. unfold from_dict_index.
    rewrite from_nested_dict_closed, frame_of_columns_closed by done.
    rewrite df_select_ok; unfold df_labels; cbn [df_index df_columns];
      rewrite series_labels; [done|].
    intros c Hc. by rewrite order_columns_perm in Hc.
  - intros ->. reflexivity.
Qed.

Lemma create_excel_no_keys tr p :
  (∀ lang : string * dict string, lang ∈ tr → lang.2 = []) →
  create_excel tr p = OK {| df_index := []; df_columns := [] |}.
Proof.
  intros Hempty. destruct (row_keys_spec tr) as (_ & _ & Hkeys).
  unfold create_excel.
  destruct (sorted (elements (collect_keys tr))) as [|k keys] eqn:Hk; [reflexivity|].
  destruct (proj1 (Hkeys k) (list_elem_of_here _ _)) as (lang & Hlang & Hin).
  rewrite (Hempty lang Hlang) in Hin. by apply elem_of_nil in Hin.
Qed.

Lemma index_of_spec x l : x ∈ l → ∃ i, index_of x l = Some i ∧ l !! i = Some x.
Proof.
  induction l as [|y l IH]; [by intros ?%elem_of_nil|].
  cbn [index_of]. destruct (String.eqb_spec y x) as [->|Hne].
  - intros _. by exists 0.
  - intros [?|Hin]%elem_of_cons; [congruence|].
    destruct (IH Hin) as (i & -> & Hi). by exists (S i).
Qed.

Lemma lookup_map {A B} (f : A → B) l i x : l !! i = Some x → map f l !! i = Some (f x).
Proof. intros H. change (map f l) with (f <$> l). by rewrite list_lookup_fmap, H. Qed.

Lemma selected_labels {V} (G : string → V) cols : (map (fun c => (c, G c)) cols).*1 = cols.
Proof.
  rewrite <- list_fmap_compose. by rewrite (list_fmap_ext _ id cols), list_fmap_id.
Qed.

(** C7 (as amended).  When at least one language has at least one key, the
    columns of the table are exactly the input languages, with the priority
    language first if it is among them and the others after it in ascending
    order, and all of them in ascending order if it is not; nothing is
    raised in either case.  When no language has any key the table has no
    column at all. *)
Theorem create_excel_columns :
  (∀ tr p,
      is_dict tr →
      (∃ lang : string * dict string, lang ∈ tr ∧ lang.2 ≠ []) →
      ∃ df, create_excel tr p = OK df
            ∧ df_labels df ≡ₚ tr.*1
            ∧ (p ∈ tr.*1 → ∃ rest, df_labels df = p :: rest ∧ Sorted String.le rest)
            ∧ (p ∉ tr.*1 → Sorted String.le (df_labels df)))
  ∧ (∀ tr p,
      (∀ lang : string * dict string, lang ∈ tr → lang.2 = []) →
      create_excel tr p = OK {| df_index := []; df_columns := [] |})
  ∧ (∃ df, create_excel [("fr-FR", [("a", "x")]); ("en-US", [("a", "y")]);
                         ("de-DE", [("b", "z")])] "en-US" = OK df
           ∧ df_labels df = ["en-US"; "de-DE"; "fr-FR"]).
Proof.
  split; [|split; [apply create_excel_no_keys | by eexists]].
  intros tr p Htr (lang & Hlang & Hne).
  destruct (create_excel_closed tr p Htr) as [Hclosed _].
  destruct (row_keys_spec tr) as (_ & _ & Hkeys).
  rewrite Hclosed.
  - eexists; split; [done|]. unfold df_labels. cbn [df_columns].
    rewrite selected_labels. split; [apply order_columns_perm | apply order_columns_shape].
  - destruct lang as [L [|[k v] d]]; [done|]. intros Hnil.
    assert (k ∈ sorted (elements (collect_keys tr))) as Hk.
    { apply Hkeys. exists (L, (k, v) :: d). split; [done | apply list_elem_of_here]. }
    rewrite Hnil in Hk. by apply elem_of_nil in Hk.
Qed.

Lemma create_excel_columns_witness :
  ∃ df, create_excel [("fr-FR", [("a", "x")]); ("it-IT", [])] "en-US" = OK df
        ∧ df_labels df ≡ₚ ["fr-FR"; "it-IT"]
        ∧ create_excel [("fr-FR", []); ("en-US", [])] "en-US"
          = OK {| df_index := []; df_columns := [] |}.
Proof.
  destruct (proj1 create_excel_columns [("fr-FR", [("a", "x")]); ("it-IT", [])] "en-US")
    as (df & Hdf & Hperm & _).
  - apply (bool_decide_unpack _). vm_compute. exact I.
  - exists ("fr-FR", [("a", "x")]). split; [apply list_elem_of_here | done].
  - exists df. split; [done|]. split; [done|].
    apply (proj1 (proj2 create_excel_columns)).
    intros lang [->|[->|[]%elem_of_nil]%elem_of_cons]%elem_of_cons; reflexivity.
Defined.

(** C7 (as stated) fails: the priority language is among the input
    languages, yet the table has no column, because no language has a key. *)
Lemma create_excel_columns_counterexample :
  ∃ df, create_excel [("en-US", [])] "en-US" = OK df
        ∧ "en-US" ∈ [("en-US", @nil (string * string))].*1
        ∧ df_labels df = []
        ∧ ¬ ∃ rest, df_labels df = "en-US" :: rest.
Proof.
  eexists. split; [reflexivity|]. split; [apply list_elem_of_here|].
  split; [reflexivity|]. by intros (rest & Hrest).
Qed.

(** C8.  The table has one row per key of the union of the languages' keys,
    the rows are in strictly ascending order of key, and the cell of a key
    and a language is the language's string for the key, or the empty
    string when the language lacks the key; nothing is raised. *)
Theorem create_excel_rows :
  (∀ tr p,
      is_dict tr →
      ∃ df, create_excel tr p = OK df
            ∧ Sorted String.le (df_index df)
            ∧ NoDup (df_index df)
            ∧ (∀ k, k ∈ df_index df ↔
                    ∃ lang : string * dict string, lang ∈ tr ∧ k ∈ lang.2.*1)
            ∧ (∀ (lang : string * dict string) k,
                  lang ∈ tr → k ∈ df_index df →
                  df_cell df k lang.1 = Some (CStr (dict_get_or lang.2 k ""))))
  ∧ create_excel [("en-US", [("z", "1"); ("a.b", "2")]); ("fr-FR", [("a.c", "3")])] "en-US"
    = OK {| df_index := ["a.b"; "a.c"; "z"];
            df_columns := [("en-US", [CStr "2"; CStr ""; CStr "1"]);
                           ("fr-FR", [CStr ""; CStr "3"; CStr ""])] |}.
Proof.
  split; [|reflexivity].
  intros tr p Htr. destruct (create_excel_closed tr p Htr) as [Hclosed Hnone].
  destruct (row_keys_spec tr) as (Hnd & Hsorted & Hkeys).
  destruct (sorted (elements (collect_keys tr))) as [|k0 keys] eqn:Hk.
  { rewrite Hnone by done. eexists; split; [done|]. cbn [df_index].
    split; [done|]. split; [done|]. split; [done|].
    intros lang k _ []%elem_of_nil. }
  rewrite Hclosed by done. eexists; split; [done|]. cbn [df_index].
  split; [done|]. split; [done|]. split; [done|].
  intros lang k Hlang Hin. unfold df_cell. cbn [df_index df_columns].
  rewrite (dict_get_map_key
             (fun c => default [] (dict_get (map (series_of (k0 :: keys)) tr) c))).
  - rewrite (dict_get_nodup _ lang.1 (series_of (k0 :: keys) lang).2).
    + destruct (index_of_spec k (k0 :: keys) Hin) as (i & -> & Hi).
      cbn [mbind option_bind from_option id series_of snd].
      by apply (lookup_map (fun key => CStr (dict_get_or lang.2 key ""))).
    + by rewrite series_labels.
    + apply list_elem_of_fmap. by exists lang.
  - rewrite order_columns_perm. by apply list_elem_of_fmap_2.
Qed.

Lemma create_excel_rows_witness :
  ∃ df, create_excel [("en-US", [("z", "1"); ("a.b", "2")]); ("fr-FR", [("a.c", "3")])]
          "en-US" = OK df
        ∧ df_index df = ["a.b"; "a.c"; "z"]
        ∧ df_cell df "a.c" "en-US" = Some (CStr "").
Proof.
  destruct (proj1 create_excel_rows
              [("en-US", [("z", "1"); ("a.b", "2")]); ("fr-FR", [("a.c", "3")])] "en-US")
    as (df & Hdf & _).
  - apply (bool_decide_unpack _). vm_compute. exact I.
  - exists df. vm_compute in Hdf. injection Hdf as <-. by split.
Defined.

(** * Further properties of the code *)

(** ** flatten_dict on arbitrary documents *)

Lemma dict_set_comm {V} (d : dict V) k v k2 v2 :
  k ∈ d.*1 → k ≠ k2 →
  dict_set (dict_set d k2 v2) k v = dict_set (dict_set d k v) k2 v2.
Proof.
  induction d as [|[k0 v0] d IH]; [by intros ?%elem_of_nil|].
  rewrite fmap_cons, elem_of_cons. cbn [fst]. intros Hk Hne.
  assert (k0 ≠ k → dict_set (dict_set d k2 v2) k v = dict_set (dict_set d k v) k2 v2)
    as IH'.
  { intros Hk0. apply IH; [|done]. by destruct Hk as [->|?]. }
  cbn [dict_set].
  destruct (String.eqb_spec k0 k2) as [E2|E2]; destruct (String.eqb_spec k0 k) as [E|E];
    cbn [dict_set];
    repeat match goal with
           | |- context [String.eqb ?x ?y] => destruct (String.eqb_spec x y); try congruence
           end.
  by rewrite IH'.
Qed.

Lemma set_all_app {V} (l1 l2 : list (string * V)) d :
  set_all (l1 ++ l2) d = set_all l2 (set_all l1 d).
Proof. apply fold_left_app. Qed.

Lemma dict_set_set_all {V} (l : list (string * V)) d k v :
  k ∈ d.*1 → k ∉ l.*1 → dict_set (set_all l d) k v = set_all l (dict_set d k v).
Proof.
  revert d. induction l as [|[k2 v2] l IH]; intros d Hk Hl; [done|].
  rewrite fmap_cons, not_elem_of_cons in Hl. destruct Hl as [Hne Hl]. cbn [fst] in Hne.
  unfold set_all in *. cbn [fold_left fst snd].
  rewrite IH; [|apply dict_set_key_elem; by right|done].
  by rewrite dict_set_comm.
Qed.

Lemma set_all_dict_set {V} (D : dict V) A k v :
  NoDup (D.*1) → set_all (dict_set D k v) A = dict_set (set_all D A) k v.
Proof.
  revert A. induction D as [|[k' v'] D IH]; intros A Hnd; [done|].
  rewrite fmap_cons in Hnd. apply NoDup_cons in Hnd as [Hk' Hnd]. cbn [fst] in Hk'.
  cbn [dict_set]. destruct (String.eqb_spec k' k) as [->|Hne].
  - unfold set_all. cbn [fold_left fst snd]. fold (set_all D (dict_set A k v)).
    fold (set_all D (dict_set A k v')).
    rewrite dict_set_set_all; [|apply dict_set_key_elem; by left|done].
    by rewrite dict_set_set.
  - unfold set_all in *. cbn [fold_left fst snd]. by apply IH.
Qed.

(** Assigning the items of [dict(b)] has the effect of assigning the items
    of [b]. *)
Lemma set_all_dict_of_items {V} (b : list (string * V)) A :
  set_all (dict_of_items b) A = set_all b A.
Proof.
  induction b as [|[k v] b IH] using rev_ind; [done|].
  change (dict_of_items ?l) with (set_all l []) in *.
  rewrite !set_all_app. change (set_all [(k, v)] ?d) with (dict_set d k v).
  rewrite set_all_dict_set by apply fold_dict_set_is_dict, NoDup_nil_2.
  by rewrite IH.
Qed.

Lemma set_all_flat_map {A V} (X Y : A → list (string * V)) (l : list A) d :
  Forall (fun a => ∀ d, set_all (X a) d = set_all (Y a) d) l →
  set_all (flat_map X l) d = set_all (flat_map Y l) d.
Proof.
  intros Hl. revert d. induction Hl as [|a l Ha Hl IH]; intros d; [done|].
  cbn [flat_map]. by rewrite !set_all_app, Ha, IH.
Qed.

Lemma map_flat_map {A B C} (g : B → C) (f : A → list B) (l : list A) :
  map g (flat_map f l) = flat_map (fun a => map g (f a)) l.
Proof.
  induction l as [|a l IH]; [done|]. cbn [flat_map]. by rewrite map_app, IH.
Qed.

Lemma flatten_node_leaf_items t parent_key sep d :
  set_all (match t with
           | Node _ => flatten_node t parent_key sep
           | Leaf l => [(parent_key, py_strip (py_str l) DQs)]
           end) d
  = set_all (leaf_items t parent_key sep) d.
Proof.
  revert parent_key d. induction t as [l|items IH] using tree_ind'; intros parent_key d.
  { reflexivity. }
  cbn [flatten_node]. fold (set_all (flat_map
    (fun kv => match kv.2 with
               | Node _ => flatten_node kv.2 (child_key parent_key sep kv.1) sep
               | Leaf l => [(child_key parent_key sep kv.1, py_strip (py_str l) DQs)]
               end) items) []).
  rewrite set_all_dict_of_items.
  unfold leaf_items. cbn [paths]. rewrite map_flat_map.
  apply set_all_flat_map. eapply Forall_impl; [exact IH|].
  intros [k c] Hc d'. cbn [fst snd] in *. rewrite Hc. unfold leaf_items.
  by rewrite map_map.
Qed.

Lemma flatten_dict_leaf_items (d : dict json) (parent_key sep : string) :
  flatten_dict d parent_key sep = dict_of_items (leaf_items (Node d) parent_key sep).
Proof.
  unfold flatten_dict.
  transitivity (set_all (flatten_node (Node d) parent_key sep) []).
  - symmetry. unfold set_all. rewrite fold_dict_set_fresh; [done|].
    cbn [app flatten_node]. apply dict_of_items_is_dict.
  - apply (flatten_node_leaf_items (Node d)).
Qed.

(** X1.  On every document, with any parent key and separator, the
    recursive [flatten_dict] with its nested [dict(items)] is one [dict]
    over the pairs of all leaves in traversal order: the key of a leaf is
    built from the segment names on its path, its value is the stripped
    text of the leaf. *)
Theorem flatten_dict_all_leaves (d : dict json) (parent_key sep : string) :
  flatten_dict d parent_key sep = dict_of_items (leaf_items (Node d) parent_key sep).
Proof. apply flatten_dict_leaf_items. Qed.

Lemma dict_of_items_nil_inv {V} (l : list (string * V)) : dict_of_items l = [] → l = [].
Proof.
  destruct l as [|[k v] l]; [done|]. intros Hnil.
  assert (k ∈ (dict_of_items ((k, v) :: l)).*1) as Hk.
  { apply dict_of_items_keys. rewrite fmap_cons. apply list_elem_of_here. }
  rewrite Hnil in Hk. by apply elem_of_nil in Hk.
Qed.

Lemma leaves_paths {L} (t : tree L) : leaves t = (paths t).*2.
Proof.
  induction t as [l|d IH] using tree_ind'; [done|].
  cbn [leaves paths]. induction IH as [|[k c] d Hc _ IHd]; [done|].
  cbn [flat_map fst snd] in *. rewrite fmap_app, Hc, IHd. f_equal.
  rewrite <- list_fmap_compose. by apply list_fmap_ext.
Qed.

(** X2.  The keys of a flattened set are pairwise distinct and are exactly
    the keys built along the paths of the leaves; the set is empty exactly
    when the document has no leaf at all (it is empty or made of empty
    mappings only). *)
Theorem flatten_dict_keys (d : dict json) (parent_key sep : string) :
  is_dict (flatten_dict d parent_key sep)
  ∧ (∀ key, key ∈ (flatten_dict d parent_key sep).*1 ↔
            ∃ ps, ps ∈ paths (Node d) ∧ key = join_path parent_key sep ps.1)
  ∧ (flatten_dict d parent_key sep = [] ↔ leaves (Node d) = []).
Proof.
  rewrite flatten_dict_leaf_items. split; [apply dict_of_items_is_dict|]. split.
  - intros key. rewrite dict_of_items_keys. unfold leaf_items.
    rewrite <- list_fmap_compose, list_elem_of_fmap. split.
    + intros (ps & -> & Hps). by exists ps.
    + intros (ps & Hps & ->). by exists ps.
  - rewrite leaves_paths. split.
    + intros Hnil%dict_of_items_nil_inv. unfold leaf_items in Hnil.
      by destruct (paths (Node d)).
    + intros Hnil. unfold leaf_items. by destruct (paths (Node d)).
Qed.

Lemma dict_get_set {V} (d : dict V) k v k' :
  dict_get (dict_set d k v) k' = if String.eqb k k' then Some v else dict_get d k'.
Proof.
  induction d as [|[k0 v0] d IH]; cbn [dict_set dict_get].
  - by destruct (String.eqb k k').
  - destruct (String.eqb_spec k0 k) as [->|Hne]; cbn [dict_get].
    + by destruct (String.eqb k k').
    + rewrite IH. destruct (String.eqb_spec k0 k') as [->|?]; [|done].
      by destruct (String.eqb_spec k k').
Qed.

Lemma dict_get_dict_of_items {V} (l : list (string * V)) k :
  dict_get (dict_of_items l) k = dict_get (reverse l) k.
Proof.
  induction l as [|[k' v] l IH] using rev_ind; [done|].
  change (dict_of_items ?l) with (set_all l []) in *.
  rewrite set_all_app, reverse_app. change (set_all [(k', v)] ?d) with (dict_set d k' v).
  rewrite dict_get_set. cbn [reverse rev_append app dict_get]. by rewrite IH.
Qed.

(** X3.  When several leaves are given the same key (segment names with a
    dot, or an empty segment name, make that possible), the flattened set
    holds the value of the last of them in traversal order: looking a key up
    in the flattened set is looking it up among the pairs of the leaves,
    last pair first. *)
Theorem flatten_dict_last_leaf_wins (d : dict json) (parent_key sep key : string) :
  dict_get (flatten_dict d parent_key sep) key
  = dict_get (reverse (leaf_items (Node d) parent_key sep)) key.
Proof. rewrite flatten_dict_leaf_items. apply dict_get_dict_of_items. Qed.

(** ** flatten_dict: empty values *)

Lemma dict_get_split {V} (A : dict V) k c :
  dict_get A k = Some c → ∃ A1 A2, A = A1 ++ (k, c) :: A2 ∧ k ∉ A1.*1.
Proof.
  induction A as [|[k' v'] A IH]; [done|]. cbn [dict_get].
  destruct (String.eqb_spec k' k) as [->|Hne].
  - intros [= ->]. exists [], A. split; [done | apply not_elem_of_nil].
  - intros (A1 & A2 & -> & Hk)%IH. exists ((k', v') :: A1), A2. split; [done|].
    rewrite fmap_cons, not_elem_of_cons. cbn [fst]. split; [congruence | done].
Qed.

Lemma dict_get_reverse {V} (l : list (string * V)) k v :
  dict_get (reverse l) k = Some v ↔ ∃ l1 l2, l = l1 ++ (k, v) :: l2 ∧ k ∉ l2.*1.
Proof.
  split.
  - intros (A1 & A2 & Hrev & Hk)%dict_get_split.
    exists (reverse A2), (reverse A1). split.
    + rewrite <- (reverse_involutive l), Hrev, reverse_app, reverse_cons, <- app_assoc.
      done.
    + by rewrite fmap_reverse, elem_of_reverse.
  - intros (l1 & l2 & -> & Hk). rewrite reverse_app, reverse_cons, <- app_assoc.
    rewrite dict_get_app_r by (by rewrite fmap_reverse, elem_of_reverse).
    cbn [app dict_get]. by rewrite String.eqb_refl.
Qed.

Lemma strip_empty s : py_strip s DQs = EmptyString ↔ only_quotes s = true.
Proof.
  split; [|apply strip_only_quotes]. intros Hs.
  destruct (strip_spec s) as (n & m & Heq & _). rewrite Hs, app_Empty in Heq.
  by rewrite Heq, only_quotes_app, !only_quotes_quotes.
Qed.

Lemma flatten_dict_entry (d : dict json) (parent_key sep key v : string) :
  (key, v) ∈ flatten_dict d parent_key sep ↔
  ∃ p l, last_leaf_for (Node d) parent_key sep key p l ∧ v = py_strip (py_str l) DQs.
Proof.
  rewrite flatten_dict_leaf_items.
  transitivity (dict_get (dict_of_items (leaf_items (Node d) parent_key sep)) key = Some v).
  { split; [apply dict_get_nodup, dict_of_items_is_dict | apply dict_get_Some_elem]. }
  rewrite dict_get_dict_of_items, dict_get_reverse. unfold leaf_items, last_leaf_for. split.
  - intros (l1 & l2 & Heq & Hk).
    apply fmap_app_inv in Heq as (P1 & P2' & -> & Heq & HP).
    symmetry in Heq. apply fmap_cons_inv in Heq as ([p l] & P2 & [= Hkey Hv] & -> & ->).
    cbn [fst snd] in Hkey, Hv. exists p, l. split; [|done].
    exists P1, P2. split; [done|]. split; [done|].
    intros q Hq Heq. apply Hk. rewrite <- list_fmap_compose.
    apply list_elem_of_fmap. by exists q.
  - intros (p & l & (P1 & P2 & -> & <- & Hk) & ->). eexists _, _. split.
    + rewrite map_app. cbn [map fst snd]. done.
    + rewrite <- list_fmap_compose. intros (q & Heq & Hq)%list_elem_of_fmap.
      by apply (Hk q Hq).
Qed.

(** C4 (as amended).  [flatten_dict] has no test on the value of a leaf: an
    empty value is stored like any other.  Under each key the flattened set
    holds the stripped text of the last leaf, in traversal order, that is
    given this key.  So it holds the empty string under a key exactly when
    the text of that last leaf is empty or made of double quotes only, and a
    null leaf that is the last one of its key is stored as the text None.
    The flattened set holds no empty value as soon as every leaf's text has
    a character that is not a double quote; the one-leaf document with an
    empty or only-quotes leaf flattens to one entry with the empty string. *)
Theorem flatten_empty_values (d : dict json) (parent_key sep : string) :
  (∀ key v, (key, v) ∈ flatten_dict d parent_key sep ↔
      ∃ p l, last_leaf_for (Node d) parent_key sep key p l
             ∧ v = py_strip (py_str l) DQs)
  ∧ (∀ key, (key, EmptyString) ∈ flatten_dict d parent_key sep ↔
      ∃ p l, last_leaf_for (Node d) parent_key sep key p l
             ∧ only_quotes (py_str l) = true)
  ∧ (∀ key p, last_leaf_for (Node d) parent_key sep key p LNone →
      (key, "None") ∈ flatten_dict d parent_key sep)
  ∧ ((∀ l, l ∈ leaves (Node d) → only_quotes (py_str l) = false) →
      ∀ key v, (key, v) ∈ flatten_dict d parent_key sep → v ≠ EmptyString)
  ∧ (∀ k l, only_quotes (py_str l) = true →
      flatten_dict [(k, Leaf l)] parent_key sep
      = [(child_key parent_key sep k, EmptyString)]).
Proof.
  split; [apply flatten_dict_entry|]. split; [|split; [|split]].
  - intros key. rewrite flatten_dict_entry. split.
    + intros (p & l & Hlast & Hv). exists p, l. split; [done|]. by apply strip_empty.
    + intros (p & l & Hlast & Hq). exists p, l. split; [done|].
      symmetry. by apply strip_empty.
  - intros key p Hlast. apply flatten_dict_entry. by exists p, LNone.
  - intros Hl key v (l & Hin & Hv)%flatten_entry_sound ->.
    symmetry in Hv. apply strip_empty in Hv. specialize (Hl l Hin). congruence.
  - intros k l Hl. by rewrite flatten_single_leaf, strip_only_quotes.
Qed.

Lemma flatten_empty_values_witness :
  "x" ≠ EmptyString
  ∧ flatten_dict [("a", Leaf (LStr (quotes 2)))] "" "." = [("a", EmptyString)]
  ∧ ("a.b", EmptyString)
    ∈ flatten_dict [("a.b", Leaf (LStr "x")); ("a", Node [("b", Leaf (LStr EmptyString))])]
                   "" ".".
Proof.
  split; [|split].
  - apply (proj1 (proj2 (proj2 (proj2 (flatten_empty_values [("a", Leaf (LStr "x"))] "" "."))))
             ) with (key := "a").
    + intros l Hl. vm_compute in Hl. apply list_elem_of_singleton in Hl as ->. reflexivity.
    + vm_compute. apply list_elem_of_here.
  - apply (proj2 (proj2 (proj2 (proj2 (flatten_empty_values [] "" ".")))) "a" (LStr (quotes 2))).
    reflexivity.
  - apply (proj1 (proj2 (flatten_empty_values
             [("a.b", Leaf (LStr "x")); ("a", Node [("b", Leaf (LStr EmptyString))])] "" "."))).
    exists ["a"; "b"], (LStr EmptyString). split; [|reflexivity].
    exists [(["a.b"], LStr "x")], []. split; [reflexivity|]. split; [reflexivity|].
    by intros q ?%elem_of_nil.
Defined.

(** C4 (as stated) fails: an empty leaf is stored as an empty string. *)
Lemma flatten_keeps_empty_counterexample :
  ("a", EmptyString) ∈ flatten_dict [("a", Leaf (LStr EmptyString))] "" ".".
Proof. vm_compute. apply list_elem_of_here. Qed.

(** ** unflatten_dict: what it raises and what it returns *)

Lemma split_go_nonempty sep skip s : split_go sep skip s ≠ [].
Proof.
  revert skip. induction s as [|a s IH]; intros skip; [done|]. cbn [split_go].
  destruct skip; [|apply IH]. destruct (String.prefix sep (String a s)); [done|].
  specialize (IH 0). by destruct (split_go sep 0 s).
Qed.

Lemma assign_path_raises init last value current e :
  assign_path init last value current = Raise e → e = TypeError.
Proof.
  revert current. induction init as [|part rest IH]; intros current.
  - destruct current; cbn; congruence.
  - cbn [assign_path]. destruct current as [x|A].
    { destruct (py_contains (Leaf x) part); cbn; congruence. }
    assert (∃ A1, (if py_contains (Node A) part then OK (Node A)
                   else py_setitem (Node A) part (Node [])) = OK (Node A1)
                  ∧ is_Some (dict_get A1 part)) as (A1 & -> & [child Hchild]).
    { unfold py_contains, dict_mem. destruct (dict_get A part) as [c|] eqn:Hc.
      - exists A. by rewrite Hc.
      - eexists. split; [done|]. by rewrite dict_get_set_eq. }
    rewrite bind_OK. cbn [py_getitem]. rewrite Hchild, bind_OK.
    destruct (assign_path rest last value child) as [child'|e'] eqn:Hrec.
    + by rewrite bind_OK.
    + rewrite bind_Raise. intros [= <-]. by eapply IH.
Qed.

Lemma unflatten_loop_raises items sep t e :
  unflatten_loop items sep t = Raise e →
  (e = TypeError ∧ sep ≠ EmptyString) ∨ (e = ValueError ∧ sep = EmptyString).
Proof.
  revert t. induction items as [|[key value] items IH]; intros t; [done|].
  cbn [unflatten_loop]. destruct (truthy value); [|apply IH].
  destruct sep as [|a sep].
  - cbn. intros [= <-]. by right.
  - cbn [py_split]. rewrite bind_OK.
    destruct (assign_path _ _ value t) as [t'|e'] eqn:Hassign.
    + rewrite bind_OK. apply IH.
    + rewrite bind_Raise. intros [= <-]. left.
      split; [by eapply assign_path_raises | done].
Qed.

(** X4.  [unflatten_dict] raises nothing but [TypeError], and that only
    with a non-empty separator, or [ValueError], and that only with the
    empty separator; in particular no [KeyError] escapes from the walk over
    the segments. *)
Theorem unflatten_dict_raises (flat_dict : dict string) (sep : string) (e : pyerr) :
  unflatten_dict flat_dict sep = Raise e →
  (e = TypeError ∧ sep ≠ EmptyString) ∨ (e = ValueError ∧ sep = EmptyString).
Proof. apply unflatten_loop_raises. Qed.

Lemma unflatten_dict_raises_witness :
  (TypeError = TypeError ∧ "." ≠ EmptyString)
  ∨ (TypeError = ValueError ∧ "." = EmptyString).
Proof.
  apply (unflatten_dict_raises [("a", "x"); ("a.b.c", "y")] "." TypeError). reflexivity.
Defined.

Lemma unflatten_loop_empty_sep items t :
  unflatten_loop items EmptyString t
  = if existsb (fun kv => truthy kv.2) items then Raise ValueError else OK t.
Proof.
  induction items as [|[key value] items IH]; [done|].
  cbn [unflatten_loop existsb snd]. by destruct (truthy value).
Qed.

(** X5.  With the empty separator [unflatten_dict] raises [ValueError] as
    soon as one value is not empty, whatever the keys, and returns the empty
    mapping otherwise. *)
Theorem unflatten_dict_empty_sep (flat_dict : dict string) :
  unflatten_dict flat_dict EmptyString
  = if existsb (fun kv => truthy kv.2) flat_dict then Raise ValueError else OK (Node []).
Proof. apply unflatten_loop_empty_sep. Qed.

Lemma nodes_ok_Node d :
  nodes_ok (Node d) = true ↔
  NoDup (d.*1) ∧ ∀ kv, kv ∈ d → kv.2 ≠ Node [] ∧ nodes_ok kv.2 = true.
Proof.
  cbn [nodes_ok]. rewrite andb_true_iff, bool_decide_eq_true, forallb_forall.
  setoid_rewrite <- list_elem_of_In. setoid_rewrite andb_true_iff.
  split; intros [Hnd Hall]; (split; [done|]); intros kv Hkv;
    destruct (Hall kv Hkv) as [H1 H2]; (split; [|done]).
  - by destruct kv.2 as [|[|]].
  - by destruct kv.2 as [|[|]].
Qed.

Lemma nodes_ok_dict_set A k c :
  nodes_ok (Node A) = true → c ≠ Node [] → nodes_ok c = true →
  nodes_ok (Node (dict_set A k c)) = true.
Proof.
  intros [Hnd Hall]%nodes_ok_Node Hc Hok. apply nodes_ok_Node.
  split; [by apply dict_set_is_dict|].
  intros kv [->|Hkv]%dict_set_elem; [by split | by apply Hall].
Qed.

Lemma dict_set_nonempty {V} (A : dict V) k v : dict_set A k v ≠ [].
Proof. destruct A as [|[k' v'] A]; [done|]. cbn. by destruct (String.eqb k' k). Qed.

Lemma assign_nodes_ok p v A t' :
  p ≠ [] → nodes_ok (Node A) = true → assign p v (Node A) = OK t' →
  ∃ A', t' = Node A' ∧ A' ≠ [] ∧ nodes_ok (Node A') = true.
Proof.
  revert A t'. induction p as [|k p IH]; intros A t' Hp HA; [done|].
  destruct p as [|k2 p].
  - rewrite assign_single. cbn [py_setitem]. intros [= <-].
    eexists. split; [done|]. split; [apply dict_set_nonempty|].
    by apply nodes_ok_dict_set.
  - rewrite assign_cons by done.
    destruct (default (Node []) (dict_get A k)) as [x|A0] eqn:Hc0.
    { by rewrite assign_leaf. }
    assert (nodes_ok (Node A0) = true) as HA0.
    { destruct (dict_get A k) as [c|] eqn:Hk; cbn in Hc0.
      - subst c. apply nodes_ok_Node in HA as [_ Hall].
        by destruct (Hall _ (dict_get_Some_elem _ _ _ Hk)).
      - by injection Hc0 as <-. }
    destruct (assign (k2 :: p) v (Node A0)) as [c'|e] eqn:Hrec; [|done].
    destruct (IH A0 c') as (A0' & -> & Hne & Hok); [done..|].
    rewrite bind_OK. intros [= <-].
    eexists. split; [done|]. split; [apply dict_set_nonempty|].
    apply nodes_ok_dict_set; [done| |done]. by intros [= ->].
Qed.

Lemma unflatten_loop_nodes_ok items sep A r :
  nodes_ok (Node A) = true →
  unflatten_loop items sep (Node A) = OK r →
  ∃ A', r = Node A' ∧ nodes_ok (Node A') = true.
Proof.
  revert A. induction items as [|[key value] items IH]; intros A HA.
  { intros [= <-]. by exists A. }
  cbn [unflatten_loop]. destruct (truthy value); [|by apply IH].
  destruct sep as [|a sep]; [done|]. cbn [py_split]. rewrite bind_OK.
  fold (assign (split_go (String a sep) 0 key) value (Node A)).
  destruct (assign _ value (Node A)) as [t'|e] eqn:Hassign; [|done].
  apply assign_nodes_ok in Hassign as (A' & -> & _ & HA');
    [|apply split_go_nonempty|done].
  rewrite bind_OK. by apply IH.
Qed.

(** X6.  Whatever [unflatten_dict] returns is a mapping in which every
    mapping, at any depth, has pairwise distinct keys and no key holds an
    empty mapping: the intermediate nodes it creates never stay empty. *)
Theorem unflatten_dict_shape (flat_dict : dict string) (sep : string) (r : nested) :
  unflatten_dict flat_dict sep = OK r →
  ∃ d, r = Node d ∧ nodes_ok (Node d) = true.
Proof. by apply unflatten_loop_nodes_ok. Qed.

Lemma unflatten_dict_shape_witness :
  ∃ d, Node [("a", Node [("b", Leaf "x"); ("c", Leaf "y")])] = Node d
       ∧ nodes_ok (Node d) = true.
Proof.
  apply (unflatten_dict_shape [("a.b", "x"); ("q", ""); ("a.c", "y")] ".").
  reflexivity.
Defined.

(** ** From a flat mapping to a document and back *)

Lemma concat_cons_head a l :
  l ≠ [] → String.concat "." (cons_head a l) = String a (String.concat "." l).
Proof. destruct l as [|h [|h2 t]]; done. Qed.

Lemma concat_segments key : String.concat "." (segments key) = key.
Proof.
  induction key as [|a key IH]; [done|]. rewrite segments_String.
  pose proof (segments_nonempty key) as Hne.
  destruct (Ascii.eqb_spec a ".") as [->|_].
  - destruct (segments key) as [|h t] eqn:Hs; [done|].
    rewrite concat_cons2, IH. done.
  - by rewrite concat_cons_head, IH.
Qed.

Lemma segments_inj k1 k2 : segments k1 = segments k2 → k1 = k2.
Proof. intros H. by rewrite <- (concat_segments k1), <- (concat_segments k2), H. Qed.

Lemma cons_head_plain a l :
  Ascii.eqb a "." = false →
  Forall (fun seg => char_in "." seg = false) l →
  Forall (fun seg => char_in "." seg = false) (cons_head a l).
Proof.
  intros Ha Hl. destruct Hl as [|h t Hh Ht]; constructor; try done.
  - cbn. by rewrite Ha.
  - cbn [char_in]. by rewrite Ha, Hh.
Qed.

Lemma segments_plain_all key : Forall (fun seg => char_in "." seg = false) (segments key).
Proof.
  induction key as [|a key IH]; [by repeat constructor|]. rewrite segments_String.
  destruct (Ascii.eqb a ".") eqn:Ha; [by constructor | by apply cons_head_plain].
Qed.

Lemma dict_set_at {V} (A1 A2 : dict V) k c c' :
  k ∉ A1.*1 → dict_set (A1 ++ (k, c) :: A2) k c' = A1 ++ (k, c') :: A2.
Proof.
  intros Hk. rewrite dict_set_app_r by done. cbn [dict_set]. by rewrite String.eqb_refl.
Qed.

Lemma paths_Node_app {L} (A1 A2 : dict (tree L)) :
  paths (Node (A1 ++ A2)) = paths (Node A1) ++ paths (Node A2).
Proof. cbn [paths]. apply flat_map_app. Qed.

Lemma paths_chain p (v : string) : paths (chain p (Leaf v)) = [(p, v)].
Proof.
  induction p as [|k p IH]; [done|]. cbn [chain]. rewrite paths_Node_cons, IH. done.
Qed.

Lemma subtree_ok_chain p v :
  Forall (fun k => segment_ok k = true) p → leaf_ok v = true →
  subtree_ok (chain p (Leaf v)) = true.
Proof.
  intros Hp Hv. induction Hp as [|k p Hk Hp IH]; [done|].
  cbn [chain]. apply subtree_ok_Node. split; [done|]. split.
  - cbn. apply NoDup_singleton.
  - by repeat constructor.
Qed.

Lemma proper_prefix_cons k q p : proper_prefix (k :: q) (k :: p) = proper_prefix q p.
Proof. cbn. by rewrite String.eqb_refl. Qed.

Lemma apart_cons k p q : apart (k :: p) (k :: q) → apart p q.
Proof.
  unfold apart. rewrite !proper_prefix_cons. intros (? & ? & Hne).
  split; [done|]. split; [done|]. congruence.
Qed.

Lemma assign_fresh_path p v A :
  p ≠ [] → Forall (fun k => segment_ok k = true) p → leaf_ok v = true →
  children_ok A →
  (∀ ps, ps ∈ paths (Node A) → apart p ps.1) →
  ∃ A', assign p v (Node A) = OK (Node A') ∧ children_ok A'
        ∧ paths (Node A') ≡ₚ paths (Node A) ++ [(p, v)].
Proof.
  intros Hp Hsegs Hv. revert A.
  induction Hsegs as [|k p Hk Hsegs IH]; intros A HA Hapart; [done|].
  destruct (dict_get A k) as [c|] eqn:Hget.
  - (* the first segment is already there *)
    destruct (dict_get_split A k c Hget) as (A1 & A2 & -> & Hk1).
    destruct HA as [Hnd Hall].
    assert (segment_ok k = true ∧ subtree_ok c = true) as [_ Hc].
    { rewrite Forall_forall in Hall. apply (Hall (k, c)).
      apply elem_of_app. right. apply list_elem_of_here. }
    destruct c as [x|A0].
    { exfalso. destruct (Hapart ([k], x)) as (H1 & H2 & H3).
      - apply (paths_dict_get _ k (Leaf x) ([], x) Hget). cbn. apply list_elem_of_here.
      - destruct p as [|k2 p]; [done|]. cbn in H1. by rewrite String.eqb_refl in H1. }
    apply subtree_ok_Node in Hc as [HA0ne HA0].
    destruct p as [|k2 p].
    { exfalso. destruct (paths (Node A0)) as [|ps l] eqn:Hps.
      - by apply (paths_nonempty (Node A0)); [apply subtree_ok_Node|].
      - destruct (Hapart (k :: ps.1, ps.2)) as (H1 & H2 & H3).
        + apply (paths_dict_get _ k (Node A0) ps Hget). rewrite Hps. apply list_elem_of_here.
        + pose proof (paths_Node_nonnil A0) as Hnn. rewrite Hps in Hnn.
          apply Forall_cons in Hnn as [Hnn _]. cbn [fst] in H2.
          rewrite proper_prefix_cons in H2. by destruct ps.1. }
    destruct (IH ltac:(done) A0 HA0) as (A0' & Hassign & HA0' & Hperm).
    { intros ps Hps. apply (apart_cons k).
      apply (Hapart (k :: ps.1, ps.2)), (paths_dict_get _ k (Node A0) ps Hget Hps). }
    rewrite assign_cons by done. rewrite Hget. cbn [from_option id].
    rewrite Hassign, bind_OK, dict_set_at by done.
    eexists. split; [done|]. split.
    + split.
      * by rewrite fmap_app, fmap_cons in *.
      * rewrite Forall_app, Forall_cons in *. destruct Hall as (? & [? ?] & ?).
        split; [done|]. split; [|done]. split; [done|]. cbn [snd].
        apply subtree_ok_Node. split; [|done]. intros ->.
        apply Permutation_nil_l in Hperm. by destruct (paths (Node A0)).
    + rewrite !paths_Node_app, !paths_Node_cons, Hperm, map_app. cbn [map fst snd].
      rewrite <- !app_assoc. apply Permutation_app_head.
      apply Permutation_app_head. apply Permutation_app_comm.
  - (* the first segment is new *)
    apply dict_get_None in Hget.
    assert (assign (k :: p) v (Node A) = OK (Node (A ++ [(k, chain p (Leaf v))]))) as ->.
    { destruct p as [|k2 p].
      - rewrite assign_single. cbn [py_setitem chain]. by rewrite dict_set_fresh.
      - rewrite assign_cons by done. rewrite (proj2 (dict_get_None A k) Hget).
        cbn [from_option]. rewrite assign_empty by done.
        rewrite bind_OK. by rewrite dict_set_fresh. }
    eexists. split; [done|]. destruct HA as [Hnd Hall]. split.
    + split.
      * rewrite fmap_app. apply NoDup_app. split; [done|].
        split; [|apply NoDup_singleton]. by intros x Hx ->%list_elem_of_singleton.
      * apply Forall_app. split; [done|]. constructor; [|done]. split; [done|].
        by apply subtree_ok_chain.
    + rewrite paths_Node_app. apply Permutation_app_head.
      rewrite paths_Node_cons, paths_chain. done.
Qed.

Lemma unflatten_loop_fresh items A :
  children_ok A →
  Forall (fun kv => pair_ok kv = true) items →
  NoDup (items.*1) →
  (∀ kv1 kv2, kv1 ∈ items → kv2 ∈ items →
              proper_prefix (segments kv1.1) (segments kv2.1) = false) →
  (∀ ps kv, ps ∈ paths (Node A) → kv ∈ items → apart (segments kv.1) ps.1) →
  ∃ A', unflatten_loop items "." (Node A) = OK (Node A') ∧ children_ok A'
        ∧ paths (Node A') ≡ₚ paths (Node A) ++ map (fun kv => (segments kv.1, kv.2)) items.
Proof.
  revert A. induction items as [|[key value] items IH]; intros A HA Hok Hnd Hfree Hapart.
  { exists A. split; [done|]. split; [done|]. by rewrite app_nil_r. }
  apply Forall_cons in Hok as [Hkv Hok]. rewrite fmap_cons in Hnd.
  apply NoDup_cons in Hnd as [Hkey Hnd]. cbn [fst snd] in *.
  unfold pair_ok in Hkv. apply andb_prop in Hkv as [Hsegs Hv]. cbn [fst snd] in *.
  assert (truthy value = true) as Htruthy.
  { unfold leaf_ok in Hv. by apply andb_prop in Hv as [[? _]%andb_prop _]. }
  destruct (assign_fresh_path (segments key) value A) as (A' & Hassign & HA' & Hperm);
    [apply segments_nonempty| |done|done| |].
  { rewrite forallb_forall in Hsegs. apply Forall_forall. intros seg Hseg.
    unfold segment_ok. apply andb_true_intro.
    split; [by apply Hsegs, list_elem_of_In|]. apply negb_true_iff.
    by apply (proj1 (Forall_forall _ _) (segments_plain_all key)). }
  { intros ps Hps. apply (Hapart ps (key, value) Hps), list_elem_of_here. }
  cbn [unflatten_loop]. rewrite Htruthy. cbn [py_split]. rewrite bind_OK.
  fold (segments key). fold (assign (segments key) value (Node A)).
  rewrite Hassign, bind_OK.
  destruct (IH A') as (A'' & Hloop & HA'' & Hperm'); [done|done|done| | |].
  { intros kv1 kv2 H1 H2. apply Hfree; by apply list_elem_of_further. }
  { intros ps kv Hps Hkv. rewrite Hperm in Hps.
    apply elem_of_app in Hps as [Hps|Hps%list_elem_of_singleton].
    - apply Hapart; [done | by apply list_elem_of_further].
    - subst ps. cbn [fst]. split; [|split].
      + apply (Hfree (key, value) kv); [apply list_elem_of_here|by apply list_elem_of_further].
      + apply (Hfree kv (key, value)); [by apply list_elem_of_further|apply list_elem_of_here].
      + intros Heq%segments_inj. apply Hkey. rewrite Heq. by apply list_elem_of_fmap_2. }
  exists A''. split; [done|]. split; [done|].
  rewrite Hperm', Hperm. cbn [map fst snd]. by rewrite <- app_assoc.
Qed.

(** ** unflatten_dict: every key at the end of its own path *)

Lemma nodes_ok_chain p (v : string) :
  chain p (Leaf v) ≠ Node [] ∧ nodes_ok (chain p (Leaf v)) = true.
Proof.
  induction p as [|k p [IH1 IH2]]; [done|]. split; [done|].
  cbn [chain]. apply nodes_ok_Node. split; [cbn; apply NoDup_singleton|].
  by intros kv ->%list_elem_of_singleton.
Qed.

Lemma nodes_ok_paths t : nodes_ok t = true → t ≠ Node [] → paths t ≠ [].
Proof.
  induction t as [s|d IH] using tree_ind'; [done|].
  intros [_ Hall]%nodes_ok_Node Hne. destruct d as [|[k c] d]; [done|].
  apply Forall_cons in IH as [IHc _]. cbn [snd] in IHc.
  destruct (Hall (k, c)) as [Hc Hok]; [apply list_elem_of_here|]. cbn [snd] in *.
  rewrite paths_Node_cons. specialize (IHc Hok Hc).
  by destruct (paths c).
Qed.

(** One key whose segments are apart from every path of the structure: the
    assignment succeeds and adds exactly the path of the key. *)
Lemma assign_apart p v A :
  p ≠ [] → nodes_ok (Node A) = true →
  (∀ ps, ps ∈ paths (Node A) → apart p ps.1) →
  ∃ A', assign p v (Node A) = OK (Node A') ∧ nodes_ok (Node A') = true
        ∧ paths (Node A') ≡ₚ paths (Node A) ++ [(p, v)].
Proof.
  intros Hp. revert A. induction p as [|k p IH]; intros A HA Hapart; [done|].
  destruct (dict_get A k) as [c|] eqn:Hget.
  - (* the first segment is already there *)
    destruct (proj1 (nodes_ok_Node A) HA) as [_ Hall].
    destruct (Hall (k, c) (dict_get_Some_elem _ _ _ Hget)) as [Hcne Hc]. cbn [snd] in *.
    destruct c as [x|A0].
    { exfalso. destruct (Hapart ([k], x)) as (H1 & H2 & H3).
      - apply (paths_dict_get _ k (Leaf x) ([], x) Hget). cbn. apply list_elem_of_here.
      - destruct p as [|k2 p]; [done|]. cbn in H1. by rewrite String.eqb_refl in H1. }
    destruct p as [|k2 p].
    { exfalso. destruct (paths (Node A0)) as [|ps l] eqn:Hps.
      - by apply (nodes_ok_paths (Node A0)).
      - destruct (Hapart (k :: ps.1, ps.2)) as (H1 & H2 & H3).
        + apply (paths_dict_get _ k (Node A0) ps Hget). rewrite Hps. apply list_elem_of_here.
        + pose proof (paths_Node_nonnil A0) as Hnn. rewrite Hps in Hnn.
          apply Forall_cons in Hnn as [Hnn _]. cbn [fst] in H2.
          rewrite proper_prefix_cons in H2. by destruct ps.1. }
    destruct (IH ltac:(done) A0 Hc) as (A0' & Hassign & HA0' & Hperm).
    { intros ps Hps. apply (apart_cons k).
      apply (Hapart (k :: ps.1, ps.2)), (paths_dict_get _ k (Node A0) ps Hget Hps). }
    rewrite assign_cons by done. rewrite Hget. cbn [from_option id].
    rewrite Hassign, bind_OK.
    eexists. split; [done|]. split.
    + apply nodes_ok_dict_set; [done| |done]. intros [= ->].
      apply Permutation_nil_l in Hperm. by destruct (paths (Node A0)).
    + destruct (dict_get_split A k _ Hget) as (A1 & A2 & -> & Hk1).
      rewrite dict_set_at by done.
      rewrite !paths_Node_app, !paths_Node_cons, Hperm, map_app. cbn [map fst snd].
      rewrite <- !app_assoc. apply Permutation_app_head.
      apply Permutation_app_head. apply Permutation_app_comm.
  - (* the first segment is new *)
    apply dict_get_None in Hget.
    assert (assign (k :: p) v (Node A) = OK (Node (dict_set A k (chain p (Leaf v))))) as ->.
    { destruct p as [|k2 p].
      - by rewrite assign_single.
      - rewrite assign_cons by done. rewrite (proj2 (dict_get_None A k) Hget).
        cbn [from_option]. rewrite assign_empty by done. by rewrite bind_OK. }
    eexists. split; [done|]. split.
    + apply nodes_ok_dict_set; [done|apply nodes_ok_chain..].
    + rewrite dict_set_fresh by done. rewrite paths_Node_app. apply Permutation_app_head.
      rewrite paths_Node_cons, paths_chain. done.
Qed.

Lemma unflatten_loop_apart items A :
  nodes_ok (Node A) = true →
  NoDup (items.*1) →
  (∀ kv1 kv2, kv1 ∈ items → kv2 ∈ items →
              proper_prefix (segments kv1.1) (segments kv2.1) = false) →
  (∀ ps kv, ps ∈ paths (Node A) → kv ∈ items → apart (segments kv.1) ps.1) →
  ∃ A', unflatten_loop items "." (Node A) = OK (Node A') ∧ nodes_ok (Node A') = true
        ∧ paths (Node A')
          ≡ₚ paths (Node A)
             ++ map (fun kv => (segments kv.1, kv.2))
                    (List.filter (fun kv => truthy kv.2) items).
Proof.
  revert A. induction items as [|[key value] items IH]; intros A HA Hnd Hfree Hapart.
  { exists A. split; [done|]. split; [done|]. by rewrite app_nil_r. }
  rewrite fmap_cons in Hnd. apply NoDup_cons in Hnd as [Hkey Hnd]. cbn [fst snd] in *.
  assert (∀ kv1 kv2, kv1 ∈ items → kv2 ∈ items →
            proper_prefix (segments kv1.1) (segments kv2.1) = false) as Hrest.
  { intros kv1 kv2 H1 H2. apply Hfree; by apply list_elem_of_further. }
  cbn [unflatten_loop List.filter snd]. destruct (truthy value) eqn:Htruthy.
  - destruct (assign_apart (segments key) value A) as (A' & Hassign & HA' & Hperm);
      [apply segments_nonempty|done| |].
    { intros ps Hps. apply (Hapart ps (key, value) Hps), list_elem_of_here. }
    cbn [py_split]. rewrite bind_OK.
    fold (segments key). fold (assign (segments key) value (Node A)).
    rewrite Hassign, bind_OK.
    destruct (IH A') as (A'' & Hloop & HA'' & Hperm'); [done|done|done| |].
    { intros ps kv Hps Hkv. rewrite Hperm in Hps.
      apply elem_of_app in Hps as [Hps|Hps%list_elem_of_singleton].
      - apply Hapart; [done | by apply list_elem_of_further].
      - subst ps. cbn [fst]. split; [|split].
        + apply (Hfree (key, value) kv);
            [apply list_elem_of_here|by apply list_elem_of_further].
        + apply (Hfree kv (key, value));
            [by apply list_elem_of_further|apply list_elem_of_here].
        + intros Heq%segments_inj. apply Hkey. rewrite Heq. by apply list_elem_of_fmap_2. }
    exists A''. split; [done|]. split; [done|].
    rewrite Hperm', Hperm. cbn [map fst snd]. by rewrite <- app_assoc.
  - apply IH; [done|done|done|].
    intros ps kv Hps Hkv. apply Hapart; [done | by apply list_elem_of_further].
Qed.

Lemma segments_double_dot s t :
  segments (s +:+ ".." +:+ t) = segments s ++ EmptyString :: segments t.
Proof.
  change (".." +:+ t) with (String "." (String "." t)).
  by rewrite segments_app_dot, segments_String.
Qed.

(** C10.  When no key of the flat mapping is a proper prefix, segment by
    segment, of another key, [unflatten_dict] returns a nested mapping and
    raises nothing.  The mapping it returns holds every pair with a
    non-empty value, and nothing else: its leaves, with the segment names
    that lead to them, are exactly the values of those pairs with the
    segments of their keys.  Keys are not validated: the segments of the
    empty key and of a key with two dots in a row include the empty string,
    so such a key is accepted and its value sits below nodes named by the
    empty string. *)
Theorem unflatten_prefix_free_total :
  (∀ flat_dict : dict string,
      prefix_free (flat_dict.*1) = true →
      ∃ d, unflatten_dict flat_dict "." = OK (Node d))
  ∧ (∀ flat_dict : dict string,
      is_dict flat_dict → prefix_free (flat_dict.*1) = true →
      ∃ d, unflatten_dict flat_dict "." = OK (Node d)
           ∧ paths (Node d)
             ≡ₚ map (fun kv => (segments kv.1, kv.2))
                    (List.filter (fun kv => truthy kv.2) flat_dict)
           ∧ ∀ key value, (key, value) ∈ flat_dict → truthy value = true →
                          (segments key, value) ∈ paths (Node d))
  ∧ segments EmptyString = [EmptyString]
  ∧ (∀ s t, segments (s +:+ ".." +:+ t) = segments s ++ EmptyString :: segments t)
  ∧ unflatten_dict [(EmptyString, "x")] "." = OK (Node [(EmptyString, Leaf "x")])
  ∧ unflatten_dict [("a..b", "x")] "."
    = OK (Node [("a", Node [(EmptyString, Node [("b", Leaf "x")])])]).
Proof.
  split; [|split; [|split; [reflexivity|split; [apply segments_double_dot|split; reflexivity]]]].
  - intros flat_dict Hfree. apply unflatten_loop_prefix_free.
    + intros ps kv Hps. cbn in Hps. by apply elem_of_nil in Hps.
    + intros kv1 kv2 H1 H2. apply (prefix_free_spec (flat_dict.*1)); [done|..];
        by apply list_elem_of_fmap_2.
  - intros flat_dict Hnd Hfree.
    destruct (unflatten_loop_apart flat_dict []) as (d & Hloop & _ & Hperm);
      [done|done| | |].
    { intros kv1 kv2 H1 H2. apply (prefix_free_spec (flat_dict.*1)); [done|..];
        by apply list_elem_of_fmap_2. }
    { intros ps kv Hps. cbn in Hps. by apply elem_of_nil in Hps. }
    change (paths (Node []) ++ ?l) with l in Hperm.
    exists d. split; [done|]. split; [done|].
    intros key value Hin Htruthy. rewrite Hperm.
    apply (list_elem_of_fmap_2 (fun kv => (segments kv.1, kv.2)) _ (key, value)).
    apply list_elem_of_In, filter_In. split; [by apply list_elem_of_In | done].
Qed.

Lemma unflatten_prefix_free_total_witness :
  (∃ d, unflatten_dict [("a.b", "x"); ("a.c", "y"); ("a..b", "z"); ("", "w")] "."
        = OK (Node d))
  ∧ ∃ d, unflatten_dict [("a.b", "x"); ("q", ""); ("a..b", "z"); ("", "w")] "." = OK (Node d)
         ∧ paths (Node d)
           ≡ₚ [(["a"; "b"], "x"); (["a"; ""; "b"], "z"); ([""], "w")]
         ∧ ∀ key value,
             (key, value) ∈ [("a.b", "x"); ("q", ""); ("a..b", "z"); ("", "w")] →
             truthy value = true → (segments key, value) ∈ paths (Node d).
Proof.
  split.
  - apply (proj1 unflatten_prefix_free_total). vm_compute. reflexivity.
  - apply (proj1 (proj2 unflatten_prefix_free_total)
             [("a.b", "x"); ("q", ""); ("a..b", "z"); ("", "w")]).
    + apply (bool_decide_unpack _). vm_compute. exact I.
    + vm_compute. reflexivity.
Defined.

(** X7.  The round trip in the other direction.  For a flat mapping with
    pairwise distinct keys, none of which is a prefix of another segment by
    segment, whose keys have no empty segment and whose values are non-empty
    with no double quote at either end, [unflatten_dict] returns a document
    and flattening that document gives the same key-value pairs back
    (possibly in another order: the document groups them by prefix). *)
Theorem flatten_unflatten_roundtrip (flat_dict : dict string) :
  NoDup (flat_dict.*1) →
  prefix_free (flat_dict.*1) = true →
  forallb pair_ok flat_dict = true →
  ∃ d, unflatten_dict flat_dict "." = OK (Node d)
       ∧ flatten_dict (of_nested_dict d) "" "." ≡ₚ flat_dict.
Proof.
  intros Hnd Hfree Hok.
  destruct (unflatten_loop_fresh flat_dict []) as (d & Hloop & Hd & Hperm).
  - split; [constructor | constructor].
  - apply Forall_forall. intros kv Hkv%list_elem_of_In.
    by apply (proj1 (forallb_forall _ _) Hok).
  - done.
  - intros kv1 kv2 H1 H2. apply (prefix_free_spec (flat_dict.*1)); [done|..];
      by apply list_elem_of_fmap_2.
  - intros ps kv Hps. cbn in Hps. by apply elem_of_nil in Hps.
  - exists d. split; [done|]. unfold flatten_dict.
    change (Node (of_nested_dict d)) with (of_nested (Node d)).
    rewrite (flatten_closed (Node d)) by done. rewrite Hperm.
    change (paths (Node []) ++ ?l) with l. rewrite map_map. cbn [fst snd]. unfold pkey. cbn [truthy].
    rewrite (map_ext _ id); [by rewrite map_id|].
    intros [k v]. cbn. by rewrite concat_segments.
Qed.

Lemma flatten_unflatten_roundtrip_witness :
  ∃ d, unflatten_dict [("a.x", "1"); ("b", "2"); ("a.y.z", "3")] "." = OK (Node d)
       ∧ flatten_dict (of_nested_dict d) "" "." ≡ₚ [("a.x", "1"); ("b", "2"); ("a.y.z", "3")].
Proof.
  apply (flatten_unflatten_roundtrip [("a.x", "1"); ("b", "2"); ("a.y.z", "3")]).
  - apply (bool_decide_unpack _). vm_compute. exact I.
  - vm_compute. reflexivity.
  - vm_compute. reflexivity.
Defined.

(** ** create_excel: shape of the table and order of the input *)

(** X8.  The table [create_excel] builds is rectangular and complete:
    column labels are pairwise distinct, every column has one cell per row,
    and every cell is a string (never a missing value), blank where a
    language lacks the key. *)
Theorem create_excel_rectangular (tr : dict (dict string)) (p : string) :
  is_dict tr →
  ∃ df, create_excel tr p = OK df
        ∧ NoDup (df_labels df)
        ∧ Forall (fun col => length col.2 = length (df_index df)
                             ∧ Forall (fun c => ∃ s, c = CStr s) col.2)
                 (df_columns df).
Proof.
  intros Htr. destruct (create_excel_closed tr p Htr) as [Hclosed Hnone].
  destruct (sorted (elements (collect_keys tr))) as [|k0 keys] eqn:Hk.
  { rewrite Hnone by done. eexists. split; [done|]. split; constructor. }
  rewrite Hclosed by done. eexists. split; [done|]. unfold df_labels.
  cbn [df_index df_columns]. rewrite selected_labels. split.
  { by rewrite order_columns_perm. }
  apply Forall_forall. intros col (c & -> & Hc)%list_elem_of_fmap. cbn [snd].
  rewrite order_columns_perm in Hc. apply list_elem_of_fmap in Hc as (lang & -> & Hlang).
  rewrite (dict_get_nodup _ lang.1 (series_of (k0 :: keys) lang).2).
  - cbn [from_option id series_of snd]. split; [by rewrite length_map|].
    apply Forall_forall. intros c (key & -> & _)%list_elem_of_fmap. by eexists.
  - by rewrite series_labels.
  - apply list_elem_of_fmap. by exists lang.
Qed.

Lemma create_excel_rectangular_witness :
  ∃ df, create_excel [("fr-FR", [("a", "x")]); ("en-US", [("b", "y"); ("a", "z")])] "en-US"
        = OK df
        ∧ NoDup (df_labels df)
        ∧ Forall (fun col => length col.2 = length (df_index df)
                             ∧ Forall (fun c => ∃ s, c = CStr s) col.2)
                 (df_columns df).
Proof.
  apply (create_excel_rectangular
           [("fr-FR", [("a", "x")]); ("en-US", [("b", "y"); ("a", "z")])] "en-US").
  apply (bool_decide_unpack _). vm_compute. exact I.
Defined.

Lemma dict_get_perm {V} (d d' : dict V) k :
  NoDup (d.*1) → d ≡ₚ d' → dict_get d k = dict_get d' k.
Proof.
  intros Hnd Hperm. assert (NoDup (d'.*1)) as Hnd' by by rewrite <- Hperm.
  destruct (dict_get d k) as [v|] eqn:Hk.
  - symmetry. apply dict_get_nodup; [done|]. rewrite <- Hperm.
    by apply dict_get_Some_elem.
  - symmetry. apply dict_get_None. rewrite <- Hperm. by apply dict_get_None.
Qed.

Lemma list_mem_perm x l l' : l ≡ₚ l' → list_mem x l = list_mem x l'.
Proof.
  intros Hperm. destruct (list_mem x l') eqn:Hx.
  - apply list_mem_spec. rewrite Hperm. by apply list_mem_spec.
  - apply list_mem_false. rewrite Hperm. by apply list_mem_false.
Qed.

Lemma sorted_perm_eq l l' : l ≡ₚ l' → sorted l = sorted l'.
Proof.
  intros Hperm. apply (Sorted_unique String.le); [apply sorted_Sorted..|].
  by rewrite !sorted_perm.
Qed.

Lemma order_columns_perm_eq l l' p : l ≡ₚ l' → order_columns l p = order_columns l' p.
Proof.
  intros Hperm. unfold order_columns. rewrite (list_mem_perm p l l') by done.
  destruct (list_mem p l') eqn:Hp; [|by apply sorted_perm_eq].
  f_equal. apply sorted_perm_eq. apply (Permutation_cons_inv (a := p)).
  apply list_mem_spec in Hp.
  rewrite !remove_first_perm; [done|done|by rewrite Hperm].
Qed.

Lemma collect_keys_perm tr tr' : tr ≡ₚ tr' → collect_keys tr = collect_keys tr'.
Proof.
  intros Hperm. apply set_eq. intros k. rewrite !collect_keys_spec.
  by setoid_rewrite Hperm.
Qed.

(** X9.  The table depends on the languages given, not on the order in
    which they are given (the order of [os.listdir] is arbitrary): two
    inputs that hold the same languages in different orders give the same
    table, rows, columns and cells. *)
Theorem create_excel_order_independent (tr tr' : dict (dict string)) (p : string) :
  is_dict tr → tr ≡ₚ tr' → create_excel tr p = create_excel tr' p.
Proof.
  intros Htr Hperm. assert (is_dict tr') as Htr'.
  { unfold is_dict. by rewrite <- Hperm. }
  destruct (create_excel_closed tr p Htr) as [Hclosed Hnone].
  destruct (create_excel_closed tr' p Htr') as [Hclosed' Hnone'].
  rewrite <- (collect_keys_perm tr tr' Hperm) in Hclosed', Hnone'.
  destruct (sorted (elements (collect_keys tr))) as [|k0 keys] eqn:Hk.
  { by rewrite Hnone, Hnone'. }
  rewrite Hclosed, Hclosed' by done. do 2 f_equal.
  rewrite (order_columns_perm_eq (tr.*1) (tr'.*1)) by by rewrite Hperm.
  apply map_ext. intros c. f_equal. f_equal. apply dict_get_perm.
  - by rewrite series_labels.
  - change (map ?f ?l) with (f <$> l). by rewrite Hperm.
Qed.

Lemma create_excel_order_independent_witness :
  create_excel [("fr-FR", [("a", "x")]); ("en-US", [("b", "y")])] "en-US"
  = create_excel [("en-US", [("b", "y")]); ("fr-FR", [("a", "x")])] "en-US".
Proof.
  apply create_excel_order_independent.
  - apply (bool_decide_unpack _). vm_compute. exact I.
  - apply Permutation_swap.
Defined.

(** ** load_json_files: what it returns and what stops it *)

Lemma lower_not_dot a : is_lower a = true → a ≠ "."%char.
Proof. by intros H ->. Qed.

Lemma upper_not_dot a : is_upper a = true → a ≠ "."%char.
Proof. by intros H ->. Qed.

Lemma split_go_skip_char sep a s :
  String.prefix sep (String a s) = false →
  split_go sep 0 (String a s) = cons_head a (split_go sep 0 s).
Proof. intros H. cbn [split_go]. by rewrite H. Qed.

Lemma prefix_json_other a s : a ≠ "."%char → String.prefix ".json" (String a s) = false.
Proof. intros Ha. cbn [String.prefix]. by destruct (ascii_dec "." a) as [<-|]. Qed.

(** The language code [load_json_files] derives from an accepted name. *)
Lemma lang_code_of_file file :
  is_lang_file_name file = true →
  ∃ c, file = c +:+ ".json" ∧ is_lang_code c = true ∧ py_replace file ".json" "" = c.
Proof.
  destruct file as [|a [|b [|h [|c [|d [|p [|j [|s [|o [|n [|? ?]]]]]]]]]]]; try done.
  unfold is_lang_file_name. intros [Hcode Hext]%andb_prop.
  repeat (apply andb_prop in Hext as [Hext ?]).
  repeat match goal with H : Ascii.eqb _ _ = true |- _ => apply Ascii.eqb_eq in H; subst end.
  exists (String a (String b (String h (String c (String d EmptyString))))).
  split; [done|]. split; [done|].
  apply andb_prop in Hcode as [[[[Hla Hlb]%andb_prop Hh]%andb_prop Huc]%andb_prop Hud].
  apply Ascii.eqb_eq in Hh as ->. unfold py_replace.
  rewrite (split_go_skip_char _ a) by by apply prefix_json_other, lower_not_dot.
  rewrite (split_go_skip_char _ b) by by apply prefix_json_other, lower_not_dot.
  rewrite (split_go_skip_char _ "-") by done.
  rewrite (split_go_skip_char _ c) by by apply prefix_json_other, upper_not_dot.
  rewrite (split_go_skip_char _ d) by by apply prefix_json_other, upper_not_dot.
  reflexivity.
Qed.

Section load_facts.
Variable valid_langs : option (list string).

Lemma load_loop_sound all_files files tr0 out0 tr :
  (∀ f, f ∈ files → f ∈ all_files) →
  NoDup (tr0.*1) → (∀ c d, (c, d) ∈ tr0 → loaded_from all_files valid_langs c d) →
  (load_loop files valid_langs tr0 out0).2 = OK tr →
  NoDup (tr.*1) ∧ ∀ c d, (c, d) ∈ tr → loaded_from all_files valid_langs c d.
Proof.
  revert tr0 out0. induction files as [|[file content] files IH];
    intros tr0 out0 Hsub Hnd Htr0.
  { cbn. by intros [= <-]. }
  assert (∀ f, f ∈ files → f ∈ all_files) as Hsub'.
  { intros f Hf. by apply Hsub, list_elem_of_further. }
  cbn [load_loop]. fold (accepts_file file). rewrite accepts_file_exact.
  destruct (is_lang_file_name file) eqn:Hfile; [|by apply IH].
  destruct (lang_code_of_file file Hfile) as (c & -> & Hc & ->).
  fold (allowed valid_langs c). destruct (allowed valid_langs c) eqn:Hallowed; [|by apply IH].
  destruct content as [[l|data]| |msg|]; try done; try by apply IH.
  apply IH; [done|by apply dict_set_is_dict|].
  intros c' d' [[= -> ->]|Hin]%dict_set_elem; [|by apply Htr0].
  split; [done|]. split; [done|]. exists data. split; [|done].
  apply Hsub, list_elem_of_here.
Qed.

Lemma load_loop_out_mono files tr0 out0 line :
  line ∈ out0 → line ∈ (load_loop files valid_langs tr0 out0).1.
Proof.
  revert tr0 out0. induction files as [|[file content] files IH]; intros tr0 out0 Hline;
    [done|].
  cbn [load_loop].
  destruct (endswith file ".json" && match_lang_file file); [|by apply IH].
  destruct (match valid_langs with None => true | Some vl => _ end); [|by apply IH].
  destruct content as [[l|data]| |msg|]; try done.
  - apply IH. destruct (flatten_dict data "" "."); [|done].
    unfold print. apply elem_of_app. by left.
  - apply IH. unfold print. apply elem_of_app. by left.
  - apply IH. unfold print. apply elem_of_app. by left.
Qed.

Lemma load_loop_completes files tr0 out0 :
  (∀ file content, (file, content) ∈ files →
                   content ≠ ReadOSError ∧ ∀ l, content ≠ ReadOK (Leaf l)) →
  ∃ tr, (load_loop files valid_langs tr0 out0).2 = OK tr.
Proof.
  revert tr0 out0. induction files as [|[file content] files IH]; intros tr0 out0 Hfiles.
  { by eexists. }
  assert (∀ file content, (file, content) ∈ files →
            content ≠ ReadOSError ∧ ∀ l, content ≠ ReadOK (Leaf l)) as Hfiles'.
  { intros f c Hf. apply (Hfiles f c). by apply list_elem_of_further. }
  destruct (Hfiles file content (list_elem_of_here _ _)) as [Hos Hleaf].
  cbn [load_loop].
  destruct (endswith file ".json" && match_lang_file file); [|by apply IH].
  destruct (match valid_langs with None => true | Some vl => _ end); [|by apply IH].
  destruct content as [[l|data]| |msg|]; try done; try by apply IH.
  by destruct (Hleaf l).
Qed.

Lemma load_loop_reports files tr0 out0 file content line :
  (file, content) ∈ files → opened valid_langs file = true →
  (content = ReadUnicodeError
   ∧ line = "Encoding error in " +:+ file +:+ ": File must be UTF-8 encoded")
  ∨ (∃ msg, content = ReadJSONError msg
            ∧ line = "Error loading " +:+ file +:+ ": " +:+ msg) →
  is_Some (match (load_loop files valid_langs tr0 out0).2 with
           | OK tr => Some tr | Raise _ => None end) →
  line ∈ (load_loop files valid_langs tr0 out0).1.
Proof.
  intros Hin Hopened Hline. revert tr0 out0.
  induction files as [|[file' content'] files IH]; intros tr0 out0.
  { by apply elem_of_nil in Hin. }
  apply elem_of_cons in Hin as [[= <- <-]|Hin].
  - intros _. unfold opened in Hopened. apply andb_prop in Hopened as [Hfile Hallowed].
    cbn [load_loop]. fold (accepts_file file). rewrite accepts_file_exact, Hfile.
    fold (allowed valid_langs (py_replace file ".json" "")). rewrite Hallowed.
    destruct Hline as [[-> ->]|(msg & -> & ->)];
      apply load_loop_out_mono; unfold print; apply elem_of_app; right;
      apply list_elem_of_here.
  - specialize (IH Hin). cbn [load_loop].
    destruct (endswith file' ".json" && match_lang_file file'); [|by apply IH].
    destruct (match valid_langs with None => true | Some vl => _ end); [|by apply IH].
    destruct content' as [[l|data]| |msg'|]; try by apply IH.
    + cbn. by intros [? [=]].
    + cbn. by intros [? [=]].
Qed.
End load_facts.

(** X10.  Every language [load_json_files] returns has a code of the form
    xx-YY that passed the allow-list when one is given, codes are pairwise
    distinct, and its set is the flattening of the document read from the
    file named by the code and the extension. *)
Theorem load_json_files_sound (lang_dir : string) (files : list (string * file_read))
    (valid_langs : option (list string)) (tr : dict (dict string)) :
  (load_json_files lang_dir (Some files) valid_langs).2 = OK tr →
  is_dict tr
  ∧ ∀ c d, (c, d) ∈ tr →
      is_lang_code c = true ∧ allowed valid_langs c = true
      ∧ ∃ data, (c +:+ ".json", ReadOK (Node data)) ∈ files
                ∧ d = flatten_dict data "" ".".
Proof.
  cbn [load_json_files]. apply (load_loop_sound valid_langs files files [] []).
  - done.
  - constructor.
  - intros c d Hin. by apply elem_of_nil in Hin.
Qed.

Lemma load_json_files_sound_witness :
  is_dict [("en-US", [("a", "x")])]
  ∧ ∀ c d, (c, d) ∈ [("en-US", [("a", "x")])] →
      is_lang_code c = true ∧ allowed (Some ["en-US"]) c = true
      ∧ ∃ data, (c +:+ ".json", ReadOK (Node data))
                  ∈ [("readme.json", ReadOK doc_a); ("fr-FR.json", ReadOK doc_a);
                     ("en-US.json", ReadOK doc_a)]
                ∧ d = flatten_dict data "" ".".
Proof.
  apply (load_json_files_sound "input"
           [("readme.json", ReadOK doc_a); ("fr-FR.json", ReadOK doc_a);
            ("en-US.json", ReadOK doc_a)] (Some ["en-US"])).
  reflexivity.
Defined.

(** X11.  A file that cannot be decoded or parsed never stops the load: as
    long as no opened file fails with another error or holds something that
    is not a mapping at top level, [load_json_files] returns, and the
    progress stream names every opened file that could not be decoded or
    parsed. *)
Theorem load_json_files_parse_errors_local (lang_dir : string)
    (files : list (string * file_read)) (valid_langs : option (list string)) :
  (∀ file content, (file, content) ∈ files →
                   content ≠ ReadOSError ∧ ∀ l, content ≠ ReadOK (Leaf l)) →
  (∃ tr, (load_json_files lang_dir (Some files) valid_langs).2 = OK tr)
  ∧ (∀ file, (file, ReadUnicodeError) ∈ files → opened valid_langs file = true →
       ("Encoding error in " +:+ file +:+ ": File must be UTF-8 encoded")
         ∈ (load_json_files lang_dir (Some files) valid_langs).1)
  ∧ (∀ file msg, (file, ReadJSONError msg) ∈ files → opened valid_langs file = true →
       ("Error loading " +:+ file +:+ ": " +:+ msg)
         ∈ (load_json_files lang_dir (Some files) valid_langs).1).
Proof.
  intros Hfiles. cbn [load_json_files].
  destruct (load_loop_completes valid_langs files [] [] Hfiles) as [tr Htr].
  split; [by exists tr|]. split.
  - intros file Hin Hopened.
    apply (load_loop_reports valid_langs files [] [] file ReadUnicodeError); try done.
    + by left.
    + by rewrite Htr.
  - intros file msg Hin Hopened.
    apply (load_loop_reports valid_langs files [] [] file (ReadJSONError msg)); try done.
    + right. by exists msg.
    + by rewrite Htr.
Qed.

Lemma load_json_files_parse_errors_local_witness :
  ∃ tr, (load_json_files "input"
           (Some [("de-DE.json", ReadJSONError "bad"); ("en-US.json", ReadOK doc_a)])
           None).2 = OK tr.
Proof.
  apply (load_json_files_parse_errors_local "input"
           [("de-DE.json", ReadJSONError "bad"); ("en-US.json", ReadOK doc_a)] None).
  intros file content [[= -> ->]|[[= -> ->]|[]%elem_of_nil]%elem_of_cons]%elem_of_cons;
    by split.
Defined.

(** ** save_translations_to_json: what it writes and what stops it *)

Lemma save_loop_files_sound write_error output_dir tr w path doc :
  (path, doc) ∈ w_files (save_loop write_error output_dir tr w).1 →
  (path, doc) ∈ w_files w
  ∨ ∃ c d, (c, d) ∈ tr ∧ match_lang_code c = true
           ∧ path = path_join output_dir (c +:+ ".json")
           ∧ unflatten_dict d "." = OK doc ∧ write_error path = None.
Proof.
  revert w. induction tr as [|[c d] tr IH]; intros w; [by left|].
  assert (∀ w', (path, doc) ∈ w_files (save_loop write_error output_dir tr w').1 →
                w_files w' = w_files w →
                (path, doc) ∈ w_files w
                ∨ ∃ c0 d0, (c0, d0) ∈ (c, d) :: tr ∧ match_lang_code c0 = true
                           ∧ path = path_join output_dir (c0 +:+ ".json")
                           ∧ unflatten_dict d0 "." = OK doc ∧ write_error path = None)
    as Hsame.
  { intros w' [Hin|(c0 & d0 & Hin & Hrest)]%IH Hw; [left; by rewrite <- Hw|].
    right. exists c0, d0. split; [by apply list_elem_of_further | done]. }
  cbn [save_loop]. destruct (match_lang_code c) eqn:Hc; cbn [negb].
  - destruct (unflatten_dict d ".") as [t|e] eqn:Ht; [|by left].
    destruct (write_error (path_join output_dir (c +:+ ".json"))) as [msg|] eqn:Hw.
    + intros Hin. by apply (Hsame _ Hin).
    + intros [Hin|(c0 & d0 & Hin & Hrest)]%IH.
      * cbn in Hin. apply elem_of_app in Hin as [Hin|[= -> ->]%list_elem_of_singleton];
          [by left|].
        right. exists c, d. split; [apply list_elem_of_here | done].
      * right. exists c0, d0. split; [by apply list_elem_of_further | done].
  - intros Hin. by apply (Hsame _ Hin).
Qed.

Lemma save_loop_raises write_error output_dir tr w e :
  (save_loop write_error output_dir tr w).2 = Raise e →
  e = TypeError
  ∧ ∃ c d, (c, d) ∈ tr ∧ match_lang_code c = true ∧ unflatten_dict d "." = Raise e.
Proof.
  revert w. induction tr as [|[c d] tr IH]; intros w; [done|].
  assert (∀ w', (save_loop write_error output_dir tr w').2 = Raise e →
                e = TypeError
                ∧ ∃ c0 d0, (c0, d0) ∈ (c, d) :: tr ∧ match_lang_code c0 = true
                           ∧ unflatten_dict d0 "." = Raise e) as Hrest.
  { intros w' (He & c0 & d0 & Hin & H)%IH. split; [done|].
    exists c0, d0. split; [by apply list_elem_of_further | done]. }
  cbn [save_loop]. destruct (match_lang_code c) eqn:Hc; cbn [negb]; [|apply Hrest].
  destruct (unflatten_dict d ".") as [t|e'] eqn:Ht.
  - destruct (write_error _); apply Hrest.
  - cbn. intros [= ->]. split.
    + by destruct (unflatten_loop_raises d "." (Node []) e Ht) as [[? _]|[_ ?]].
    + exists c, d. split; [apply list_elem_of_here | done].
Qed.

Lemma save_loop_completes write_error output_dir tr w :
  (∀ c d, (c, d) ∈ tr → match_lang_code c = true → ∃ t, unflatten_dict d "." = OK t) →
  (save_loop write_error output_dir tr w).2 = OK ()
  ∧ length (w_out (save_loop write_error output_dir tr w).1)
    = length (w_out w) + length tr.
Proof.
  revert w. induction tr as [|[c d] tr IH]; intros w Htr.
  { cbn. split; [done|]. by rewrite Nat.add_0_r. }
  assert (∀ w', length (w_out w') = S (length (w_out w)) →
                (save_loop write_error output_dir tr w').2 = OK ()
                ∧ length (w_out (save_loop write_error output_dir tr w').1)
                  = length (w_out w) + length ((c, d) :: tr)) as Hrest.
  { intros w' Hw'. destruct (IH w') as [Hok Hlen].
    - intros c0 d0 Hin. apply Htr. by apply list_elem_of_further.
    - split; [done|]. rewrite Hlen, Hw'. cbn [length]. by rewrite Nat.add_succ_r. }
  assert (∀ line w', w_out w' = w_out w → length (w_out (w_print line w'))
                                          = S (length (w_out w))) as Hprint.
  { intros line w' Hw'. cbn. unfold print. rewrite length_app, Hw'. cbn.
    by rewrite Nat.add_1_r. }
  cbn [save_loop]. destruct (match_lang_code c) eqn:Hc; cbn [negb].
  - destruct (Htr c d (list_elem_of_here _ _) Hc) as [t ->].
    destruct (write_error _); apply Hrest; by apply Hprint.
  - apply Hrest. by apply Hprint.
Qed.

Lemma save_loop_app write_error output_dir l1 l2 w :
  save_loop write_error output_dir (l1 ++ l2) w
  = match (save_loop write_error output_dir l1 w).2 with
    | OK _ => save_loop write_error output_dir l2 (save_loop write_error output_dir l1 w).1
    | Raise _ => save_loop write_error output_dir l1 w
    end.
Proof.
  revert w. induction l1 as [|[c d] l1 IH]; intros w; [done|].
  cbn [app save_loop]. destruct (negb (match_lang_code c)); [apply IH|].
  destruct (unflatten_dict d ".") as [t|e]; [|done].
  destruct (write_error _); apply IH.
Qed.

(** X12.  Every file [save_translations_to_json] writes is the document of
    one of the given languages: the language code passed the code test, the
    path is the output directory joined with the code and the extension, the
    content is what [unflatten_dict] returns for that language's set, and
    opening and writing that path did not fail. *)
Theorem save_translations_files_sound (makedirs_ok : bool)
    (write_error : string → option string) (tr : dict (dict string))
    (output_dir path : string) (doc : nested) :
  (path, doc) ∈ w_files (save_translations_to_json makedirs_ok write_error tr output_dir).1 →
  ∃ c d, (c, d) ∈ tr
         ∧ (is_lang_code c = true ∨ lang_code_then_lf c = true)
         ∧ path = path_join output_dir (c +:+ ".json")
         ∧ unflatten_dict d "." = OK doc ∧ write_error path = None.
Proof.
  unfold save_translations_to_json. destruct makedirs_ok.
  - intros [Hin|(c & d & Hin & Hc & Hrest)]%save_loop_files_sound.
    + cbn in Hin. by apply elem_of_nil in Hin.
    + exists c, d. split; [done|]. split; [|done].
      rewrite match_lang_code_exact in Hc. by apply orb_prop in Hc.
  - cbn. by intros ?%elem_of_nil.
Qed.

Lemma save_translations_files_sound_witness :
  ∃ c d, (c, d) ∈ [("english", [("a", "x")]); ("en-US", [("a.b", "x")])]
         ∧ (is_lang_code c = true ∨ lang_code_then_lf c = true)
         ∧ "out/en-US.json" = path_join "out" (c +:+ ".json")
         ∧ unflatten_dict d "." = OK (Node [("a", Node [("b", Leaf "x")])])
         ∧ (fun _ : string => @None string) "out/en-US.json" = None.
Proof.
  apply (save_translations_files_sound true (fun _ => None)
           [("english", [("a", "x")]); ("en-US", [("a.b", "x")])] "out").
  vm_compute. apply list_elem_of_here.
Defined.

(** X13.  [save_translations_to_json] stops with an exception in two cases
    only: the output directory could not be created, or [unflatten_dict]
    raised [TypeError] on the set of a language whose code passed the test.
    A file that cannot be written never stops it. *)
Theorem save_translations_raises (makedirs_ok : bool)
    (write_error : string → option string) (tr : dict (dict string))
    (output_dir : string) (e : pyerr) :
  (save_translations_to_json makedirs_ok write_error tr output_dir).2 = Raise e →
  (makedirs_ok = false ∧ e = OSError)
  ∨ (makedirs_ok = true ∧ e = TypeError
     ∧ ∃ c d, (c, d) ∈ tr ∧ match_lang_code c = true
              ∧ unflatten_dict d "." = Raise TypeError).
Proof.
  unfold save_translations_to_json. destruct makedirs_ok.
  - intros (-> & c & d & Hin & Hc & Hd)%save_loop_raises. right.
    split; [done|]. split; [done|]. by exists c, d.
  - cbn. intros [= <-]. by left.
Qed.

Lemma save_translations_raises_witness :
  (true = false ∧ TypeError = OSError)
  ∨ (true = true ∧ TypeError = TypeError
     ∧ ∃ c d, (c, d) ∈ [("en-US", [("a", "x"); ("a.b", "y")])]
              ∧ match_lang_code c = true ∧ unflatten_dict d "." = Raise TypeError).
Proof.
  apply (save_translations_raises true (fun _ => None)
           [("en-US", [("a", "x"); ("a.b", "y")])] "out" TypeError).
  reflexivity.
Defined.

Lemma unflatten_dict_prefix_free_ok (flat_dict : dict string) :
  prefix_free (flat_dict.*1) = true → ∃ t, unflatten_dict flat_dict "." = OK t.
Proof.
  intros Hfree. destruct (unflatten_loop_prefix_free flat_dict []) as [d Hd].
  - intros ps kv Hps. cbn in Hps. by apply elem_of_nil in Hps.
  - intros kv1 kv2 H1 H2. apply (prefix_free_spec (flat_dict.*1)); [done|..];
      by apply list_elem_of_fmap_2.
  - by exists (Node d).
Qed.

(** X14.  [os.makedirs] is called outside any [try]: when the output
    directory cannot be created, [save_translations_to_json] raises
    [OSError] with nothing printed and nothing written.  When it can be
    created and, in every language, no key is a prefix of another, the
    function runs to the end whatever files fail to be written, and the
    progress stream holds exactly one line per language given: skipped,
    generated or failed. *)
Theorem save_translations_completes (makedirs_ok : bool)
    (write_error : string → option string)
    (tr : dict (dict string)) (output_dir : string) :
  (∀ c d, (c, d) ∈ tr → prefix_free (d.*1) = true) →
  let run := save_translations_to_json makedirs_ok write_error tr output_dir in
  if makedirs_ok
  then run.2 = OK () ∧ length (w_out run.1) = length tr
  else run = ({| w_out := []; w_files := [] |}, Raise OSError).
Proof.
  intros Htr. destruct makedirs_ok; [|reflexivity]. cbv zeta.
  unfold save_translations_to_json.
  apply (save_loop_completes write_error output_dir tr {| w_out := []; w_files := [] |}).
  intros c d Hin _. by apply unflatten_dict_prefix_free_ok, (Htr c).
Qed.

Lemma save_translations_completes_witness :
  ((save_translations_to_json true (fun _ => Some "disk full")
      [("english", [("a", "x")]); ("en-US", [("a.b", "x")])] "out").2 = OK ()
   ∧ length (w_out (save_translations_to_json true (fun _ => Some "disk full")
                      [("english", [("a", "x")]); ("en-US", [("a.b", "x")])] "out").1)
     = 2)
  ∧ save_translations_to_json false (fun _ => None) [("en-US", [("a.b", "x")])] "out"
    = ({| w_out := []; w_files := [] |}, Raise OSError).
Proof.
  split.
  - apply (save_translations_completes true (fun _ => Some "disk full")
             [("english", [("a", "x")]); ("en-US", [("a.b", "x")])] "out").
    intros c d [[= -> ->]|[[= -> ->]|[]%elem_of_nil]%elem_of_cons]%elem_of_cons;
      reflexivity.
  - apply (save_translations_completes false (fun _ => None) [("en-US", [("a.b", "x")])] "out").
    intros c d [[= -> ->]|[]%elem_of_nil]%elem_of_cons. reflexivity.
Defined.

(** X15.  When [unflatten_dict] raises on a language, the run stops there:
    the files of the languages before it stay written, their lines stay on
    the progress stream, and nothing is done for the languages after it. *)
Theorem save_translations_stops_midway (write_error : string → option string)
    (l1 l2 : dict (dict string)) (c : string) (d : dict string)
    (output_dir : string) (e : pyerr) :
  match_lang_code c = true →
  unflatten_dict d "." = Raise e →
  (save_translations_to_json true write_error l1 output_dir).2 = OK () →
  save_translations_to_json true write_error (l1 ++ (c, d) :: l2) output_dir
  = ((save_translations_to_json true write_error l1 output_dir).1, Raise e).
Proof.
  unfold save_translations_to_json. intros Hc Hd Hl1.
  rewrite save_loop_app, Hl1. cbn [save_loop]. by rewrite Hc, Hd.
Qed.

Lemma save_translations_stops_midway_witness :
  save_translations_to_json true (fun _ => None)
    ([("en-US", [("a", "x")])] ++ ("fr-FR", [("a", "x"); ("a.b", "y")])
       :: [("de-DE", [("a", "x")])]) "out"
  = ((save_translations_to_json true (fun _ => None) [("en-US", [("a", "x")])] "out").1,
     Raise TypeError).
Proof.
  apply (save_translations_stops_midway (fun _ => None)); reflexivity.
Defined.

(** ** The two entry points *)

Lemma create_excel_total tr p : is_dict tr → ∃ df, create_excel tr p = OK df.
Proof.
  intros Htr. destruct (create_excel_closed tr p Htr) as [Hclosed Hnone].
  destruct (sorted (elements (collect_keys tr))) as [|k0 keys] eqn:Hk.
  - rewrite Hnone by done. by eexists.
  - rewrite Hclosed by done. by eexists.
Qed.

Lemma load_json_files_is_dict lang_dir listing valid_langs tr :
  (load_json_files lang_dir listing valid_langs).2 = OK tr → is_dict tr.
Proof.
  destruct listing as [files|]; cbn [load_json_files].
  - intros Htr.
    apply (load_loop_sound valid_langs files files [] [] tr); try done.
    + constructor.
    + intros c d Hin. by apply elem_of_nil in Hin.
  - intros [= <-]. constructor.
Qed.

(** X16.  [main] of json_to_excel.py.  An exception can only come from
    loading: building the table never raises, and a failure to write it is
    only reported.  A table is written exactly when loading returned at
    least one language (even if every language is empty) and [to_excel]
    succeeded, and it is the table [create_excel] builds with priority
    en-US; when loading returns no language nothing is written and the last
    line of the progress stream says so. *)
Theorem json_to_excel_main_outcome (project_dir : string)
    (listing : option (list (string * file_read)))
    (to_excel : DataFrame → to_excel_outcome) :
  let run := json_to_excel_main project_dir listing to_excel in
  let loaded := load_json_files (path_join project_dir "input") listing None in
  (∀ e, run.2 = Raise e → loaded.2 = Raise e)
  ∧ (∀ df, run.2 = OK (Some df) →
       ∃ tr, loaded.2 = OK tr ∧ tr ≠ [] ∧ create_excel tr "en-US" = OK df
             ∧ to_excel df = ToExcelOK)
  ∧ (∀ tr, loaded.2 = OK tr → tr ≠ [] →
       ∃ df, create_excel tr "en-US" = OK df
             ∧ run.2 = match to_excel df with ToExcelOK => OK (Some df) | _ => OK None end)
  ∧ (loaded.2 = OK [] →
       run = (print "No translation files found!" loaded.1, OK None)).
Proof.
  intros run loaded. unfold run, json_to_excel_main. fold loaded.
  destruct (loaded.2) as [tr|e] eqn:Hloaded.
  - pose proof (load_json_files_is_dict _ _ _ _ Hloaded) as Hdict.
    destruct (create_excel_total tr "en-US" Hdict) as [df Hdf].
    destruct tr as [|lang tr].
    { repeat split; try done. intros tr' [= <-]. done. }
    unfold create_excel_io. rewrite Hdf. cbn [fst snd].
    split; [|split; [|split]].
    + intros e. by destruct (to_excel df).
    + intros df'. destruct (to_excel df) eqn:Hto; cbn; intros [=]. subst df'.
      by exists (lang :: tr).
    + intros tr' [= <-] _. exists df. split; [done|]. by destruct (to_excel df).
    + done.
  - repeat split; try done. cbn. by intros e' [= ->].
Qed.

Lemma json_to_excel_main_outcome_witness :
  ∃ df, create_excel [("en-US", [("a", "x")])] "en-US" = OK df
        ∧ (json_to_excel_main "/p" (Some [("en-US.json", ReadOK doc_a)])
             (fun _ => ToExcelPermissionError)).2
          = match (fun _ : DataFrame => ToExcelPermissionError) df with
            | ToExcelOK => OK (Some df)
            | _ => OK None
            end.
Proof.
  apply (proj1 (proj2 (proj2 (json_to_excel_main_outcome "/p"
           (Some [("en-US.json", ReadOK doc_a)]) (fun _ => ToExcelPermissionError))))).
  - reflexivity.
  - done.
Defined.

(** ** excel_to_json.py as main runs it: row keys and labels of any type *)

Lemma label_eqb_eq a b : label_eqb a b = true ↔ a = b.
Proof.
  destruct a as [s|n], b as [t|m]; cbn [label_eqb].
  - rewrite String.eqb_eq. split; congruence.
  - split; done.
  - split; done.
  - rewrite Z.eqb_eq. split; congruence.
Qed.

Lemma label_eqb_refl a : label_eqb a a = true.
Proof. by apply label_eqb_eq. Qed.

Lemma dyn_dict_set_fresh {V} (d : dyn.dict V) k v :
  k ∉ d.*1 → dyn.dict_set d k v = d ++ [(k, v)].
Proof.
  induction d as [|[k' v'] d IH]; [done|].
  rewrite fmap_cons, not_elem_of_cons. cbn [fst]. intros [Hne Hk]. cbn [dyn.dict_set].
  destruct (label_eqb k' k) eqn:E; [apply label_eqb_eq in E; congruence|].
  by rewrite IH.
Qed.

Lemma dyn_dict_get_nodup {V} (d : dyn.dict V) k v :
  NoDup (d.*1) → (k, v) ∈ d → dyn.dict_get d k = Some v.
Proof.
  induction d as [|[k' v'] d IH]; [by intros _ ?%elem_of_nil|].
  rewrite fmap_cons, NoDup_cons. cbn [fst].
  intros [Hk' Hnd] [[= -> ->]|Hin]%elem_of_cons; cbn [dyn.dict_get].
  - by rewrite label_eqb_refl.
  - destruct (label_eqb k' k) eqn:E; [|by apply IH].
    apply label_eqb_eq in E as ->. exfalso. apply Hk'.
    apply list_elem_of_fmap. by exists (k, v).
Qed.

Lemma dyn_dict_set_elem {V} (d : dyn.dict V) k v kv :
  kv ∈ dyn.dict_set d k v → kv = (k, v) ∨ kv ∈ d.
Proof.
  induction d as [|[k' v'] d IH]; cbn [dyn.dict_set].
  - intros ->%list_elem_of_singleton. by left.
  - destruct (label_eqb k' k).
    + intros [->|Hin]%elem_of_cons; [by left|]. right. by apply list_elem_of_further.
    + intros [->|[->|Hin]%IH]%elem_of_cons; [right; apply list_elem_of_here|by left|].
      right. by apply list_elem_of_further.
Qed.

Lemma dyn_fold_set_elem {V} (l : list (label * V)) acc kv :
  kv ∈ fold_left (fun d x => dyn.dict_set d x.1 x.2) l acc → kv ∈ acc ∨ kv ∈ l.
Proof.
  revert acc. induction l as [|[k v] l IH]; intros acc; [by left|]. cbn [fold_left fst snd].
  intros [[->|Hin]%dyn_dict_set_elem|Hin]%IH.
  - right. apply list_elem_of_here.
  - by left.
  - right. by apply list_elem_of_further.
Qed.

Lemma dyn_lang_dict_keys index series k v :
  (k, v) ∈ dyn.lang_dict_of index series → k ∈ index.
Proof.
  unfold dyn.lang_dict_of, dyn.dict_of_items.
  intros [[]%elem_of_nil|Hin]%dyn_fold_set_elem.
  apply list_elem_of_omap in Hin as ([k' c] & Hin & Hf). cbn [fst snd] in Hf.
  destruct (notna c); [|done]. injection Hf as -> _. by apply elem_of_zip_l in Hin.
Qed.

Lemma dyn_fold_set_fresh {V} (g : label → V) (l : list label) (acc : dyn.dict V) :
  NoDup (acc.*1 ++ l) →
  fold_left (fun d L => dyn.dict_set d L (g L)) l acc = acc ++ map (fun L => (L, g L)) l.
Proof.
  revert acc. induction l as [|L l IH]; intros acc Hnd; [by rewrite app_nil_r|].
  cbn [fold_left map]. rewrite dyn_dict_set_fresh.
  - rewrite IH; [by rewrite <- app_assoc|].
    rewrite fmap_app. cbn [fmap list_fmap fst]. by rewrite <- app_assoc.
  - apply NoDup_app in Hnd as (_ & Hd & _). intros Hin. apply (Hd _ Hin), list_elem_of_here.
Qed.

Lemma dyn_read_excel_closed df :
  NoDup (dyn.df_labels df) →
  dyn.read_excel_to_translations df
  = map (fun col => (col.1, dyn.lang_dict_of (dyn.df_index df) col.2)) (dyn.df_columns df).
Proof.
  intros Hnd. unfold dyn.read_excel_to_translations.
  rewrite (dyn_fold_set_fresh
             (fun L => dyn.lang_dict_of (dyn.df_index df)
                         (default [] (dyn.dict_get (dyn.df_columns df) L)))) by done.
  unfold dyn.df_labels. cbn [app]. rewrite map_map. apply map_ext_in.
  intros [L series] Hin%list_elem_of_In. cbn [fst snd].
  by rewrite (dyn_dict_get_nodup _ L series).
Qed.

Lemma dyn_unflatten_loop_raises items t e :
  dyn.unflatten_loop items "." t = Raise e →
  e = TypeError
  ∨ (e = AttributeError ∧ ∃ n v, (LabelOther n, v) ∈ items ∧ truthy v = true).
Proof.
  revert t. induction items as [|[key value] items IH]; intros t; [done|].
  assert (∀ t', dyn.unflatten_loop items "." t' = Raise e →
                e = TypeError
                ∨ (e = AttributeError
                   ∧ ∃ n v, (LabelOther n, v) ∈ (key, value) :: items ∧ truthy v = true))
    as Hrest.
  { intros t' [->|(-> & n & v & Hin & Hv)]%IH; [by left|]. right. split; [done|].
    exists n, v. split; [by apply list_elem_of_further | done]. }
  cbn [dyn.unflatten_loop]. destruct (truthy value) eqn:Hv; [|apply Hrest].
  destruct key as [k|n]; cbn [dyn.key_split].
  - cbn [py_split]. rewrite bind_OK.
    destruct (assign_path _ _ value t) as [t'|e'] eqn:Hassign.
    + rewrite bind_OK. apply Hrest.
    + rewrite bind_Raise. intros [= <-]. left. by eapply assign_path_raises.
  - rewrite bind_Raise. intros [= <-]. right. split; [done|].
    exists n, value. split; [apply list_elem_of_here | done].
Qed.

Lemma dyn_save_loop_files_sound write_error output_dir tr w path doc :
  (path, doc) ∈ w_files (dyn.save_loop write_error output_dir tr w).1 →
  (path, doc) ∈ w_files w
  ∨ ∃ c d, (LabelStr c, d) ∈ tr ∧ match_lang_code c = true
           ∧ path = path_join output_dir (c +:+ ".json")
           ∧ dyn.unflatten_dict d "." = OK doc ∧ write_error path = None.
Proof.
  revert w. induction tr as [|[[c|n] d] tr IH]; intros w; [by left| |by left].
  assert (∀ w', (path, doc) ∈ w_files (dyn.save_loop write_error output_dir tr w').1 →
                w_files w' = w_files w →
                (path, doc) ∈ w_files w
                ∨ ∃ c0 d0, (LabelStr c0, d0) ∈ (LabelStr c, d) :: tr
                           ∧ match_lang_code c0 = true
                           ∧ path = path_join output_dir (c0 +:+ ".json")
                           ∧ dyn.unflatten_dict d0 "." = OK doc ∧ write_error path = None)
    as Hsame.
  { intros w' [Hin|(c0 & d0 & Hin & Hrest)]%IH Hw; [left; by rewrite <- Hw|].
    right. exists c0, d0. split; [by apply list_elem_of_further | done]. }
  cbn [dyn.save_loop]. destruct (match_lang_code c) eqn:Hc; cbn [negb].
  - destruct (dyn.unflatten_dict d ".") as [t|e] eqn:Ht; [|by left].
    destruct (write_error (path_join output_dir (c +:+ ".json"))) as [msg|] eqn:Hw.
    + intros Hin. by apply (Hsame _ Hin).
    + intros [Hin|(c0 & d0 & Hin & Hrest)]%IH.
      * cbn in Hin. apply elem_of_app in Hin as [Hin|[= -> ->]%list_elem_of_singleton];
          [by left|].
        right. exists c, d. split; [apply list_elem_of_here | done].
      * right. exists c0, d0. split; [by apply list_elem_of_further | done].
  - intros Hin. by apply (Hsame _ Hin).
Qed.

Lemma dyn_save_loop_raises write_error output_dir tr w e :
  (dyn.save_loop write_error output_dir tr w).2 = Raise e →
  (e = TypeError ∧ ∃ n d, (LabelOther n, d) ∈ tr)
  ∨ ∃ c d, (LabelStr c, d) ∈ tr ∧ match_lang_code c = true
           ∧ dyn.unflatten_dict d "." = Raise e.
Proof.
  revert w. induction tr as [|[[c|n] d] tr IH]; intros w; [done| |].
  - assert (∀ w', (dyn.save_loop write_error output_dir tr w').2 = Raise e →
                  (e = TypeError ∧ ∃ n d0, (LabelOther n, d0) ∈ (LabelStr c, d) :: tr)
                  ∨ ∃ c0 d0, (LabelStr c0, d0) ∈ (LabelStr c, d) :: tr
                             ∧ match_lang_code c0 = true
                             ∧ dyn.unflatten_dict d0 "." = Raise e) as Hrest.
    { intros w' [(-> & n & d0 & Hin)|(c0 & d0 & Hin & H)]%IH.
      - left. split; [done|]. exists n, d0. by apply list_elem_of_further.
      - right. exists c0, d0. split; [by apply list_elem_of_further | done]. }
    cbn [dyn.save_loop]. destruct (match_lang_code c) eqn:Hc; cbn [negb]; [|apply Hrest].
    destruct (dyn.unflatten_dict d ".") as [t|e'] eqn:Ht.
    + destruct (write_error _); apply Hrest.
    + cbn. intros [= ->]. right. exists c, d. split; [apply list_elem_of_here | done].
  - cbn. intros [= <-]. left. split; [done|]. exists n, d. apply list_elem_of_here.
Qed.

(** On text keys the functions as [main] runs them are the typed ones. *)
Lemma dyn_dict_set_text {V W} (h : V → W) (d : dict V) k v :
  dyn.dict_set (map (fun kv => (LabelStr kv.1, h kv.2)) d) (LabelStr k) (h v)
  = map (fun kv => (LabelStr kv.1, h kv.2)) (dict_set d k v).
Proof.
  induction d as [|[k' v'] d IH]; [done|].
  cbn [map dict_set dyn.dict_set label_eqb fst snd].
  destruct (String.eqb k' k); [done|]. cbn [map fst snd]. by rewrite IH.
Qed.

Lemma dyn_dict_set_text_keys {V} (d : dict V) k v :
  dyn.dict_set (text_keys d) (LabelStr k) v = text_keys (dict_set d k v).
Proof. exact (dyn_dict_set_text id d k v). Qed.

Lemma dyn_dict_get_text {V} (d : dict V) k :
  dyn.dict_get (text_keys d) (LabelStr k) = dict_get d k.
Proof.
  induction d as [|[k' v'] d IH]; [done|].
  cbn [text_keys map dict_get dyn.dict_get label_eqb fst snd].
  destruct (String.eqb k' k); [done|]. apply IH.
Qed.

Lemma dyn_dict_of_items_text {V} (l : list (string * V)) :
  dyn.dict_of_items (text_keys l) = text_keys (dict_of_items l).
Proof.
  unfold dyn.dict_of_items, dict_of_items. change [] with (text_keys (@nil (string * V))) at 1.
  generalize (@nil (string * V)) as acc.
  induction l as [|[k v] l IH]; intros acc; [done|].
  change (text_keys ((k, v) :: l)) with ((LabelStr k, v) :: text_keys l).
  cbn [fold_left fst snd]. rewrite dyn_dict_set_text_keys. apply IH.
Qed.

Lemma dyn_lang_dict_of_text index series :
  dyn.lang_dict_of (map LabelStr index) series = text_keys (lang_dict_of index series).
Proof.
  unfold dyn.lang_dict_of, lang_dict_of. rewrite <- dyn_dict_of_items_text. f_equal.
  revert series. induction index as [|k index IH]; intros [|c series]; [done..|].
  cbn [map zip zip_with omap list_omap fst snd]. destruct (notna c); [|apply IH].
  cbn [text_keys map fst snd]. f_equal. apply IH.
Qed.

Lemma dyn_read_loop_text index (columns : dict (list cell)) labels
    (acc : dict (dict string)) :
  fold_left
    (fun translations lang_code =>
       dyn.dict_set translations lang_code
         (dyn.lang_dict_of (map LabelStr index)
            (default [] (dyn.dict_get (text_keys columns) lang_code))))
    (map LabelStr labels) (map (fun kv => (LabelStr kv.1, text_keys kv.2)) acc)
  = map (fun kv => (LabelStr kv.1, text_keys kv.2))
      (fold_left
         (fun translations lang_code =>
            dict_set translations lang_code
              (lang_dict_of index (default [] (dict_get columns lang_code))))
         labels acc).
Proof.
  revert acc. induction labels as [|L l IH]; intros acc; [done|].
  cbn [map fold_left]. rewrite dyn_dict_get_text, dyn_lang_dict_of_text.
  rewrite (dyn_dict_set_text text_keys). apply IH.
Qed.

Lemma dyn_read_excel_text df :
  dyn.read_excel_to_translations (text_frame df)
  = map (fun kv => (LabelStr kv.1, text_keys kv.2)) (read_excel_to_translations df).
Proof.
  unfold dyn.read_excel_to_translations, read_excel_to_translations, dyn.df_labels, df_labels.
  cbn [text_frame dyn.df_index dyn.df_columns].
  assert ((text_keys (df_columns df)).*1 = map LabelStr ((df_columns df).*1)) as ->.
  { unfold text_keys. induction (df_columns df) as [|[k v] l IH]; [done|].
    cbn [map fmap list_fmap fst] in *. by rewrite IH. }
  apply (dyn_read_loop_text (df_index df) (df_columns df) ((df_columns df).*1) []).
Qed.

Lemma dyn_unflatten_loop_text items sep t :
  dyn.unflatten_loop (text_keys items) sep t = unflatten_loop items sep t.
Proof.
  revert t. induction items as [|[key value] items IH]; intros t; [done|].
  cbn [text_keys map dyn.unflatten_loop unflatten_loop dyn.key_split fst snd].
  destruct (truthy value); [|apply IH].
  destruct (py_split key sep) as [parts|e]; [|done]. rewrite !bind_OK.
  destruct (assign_path _ _ value t) as [t'|e]; [|done]. rewrite !bind_OK. apply IH.
Qed.

Lemma dyn_save_loop_text write_error output_dir (tr : dict (dict string)) w :
  dyn.save_loop write_error output_dir
    (map (fun kv => (LabelStr kv.1, text_keys kv.2)) tr) w
  = save_loop write_error output_dir tr w.
Proof.
  revert w. induction tr as [|[c d] tr IH]; intros w; [done|].
  cbn [map dyn.save_loop save_loop fst snd].
  destruct (match_lang_code c); cbn [negb]; [|apply IH].
  unfold dyn.unflatten_dict, unflatten_dict. rewrite dyn_unflatten_loop_text.
  destruct (unflatten_loop d "." (Node [])) as [t|e]; [|done].
  destruct (write_error _); apply IH.
Qed.

(** ** read_excel_to_translations on the sheet *)













Lemma pd_read_excel_labels na_values sh :
  dyn.df_labels (pd_read_excel na_values sh) = (sh_columns sh).*1.
Proof.
  unfold dyn.df_labels, pd_read_excel. cbn [dyn.df_columns].
  rewrite <- list_fmap_compose. by apply list_fmap_ext.
Qed.

Lemma dyn_read_sheet_closed na_values sh :
  NoDup ((sh_columns sh).*1) →
  dyn.read_excel_to_translations (pd_read_excel na_values sh)
  = map (fun col => (col.1, dyn.lang_dict_of (sh_keys sh)
                              (map (pd_read_cell na_values) col.2)))
        (sh_columns sh).
Proof.
  intros Hnd. rewrite dyn_read_excel_closed by by rewrite pd_read_excel_labels.
  cbn [pd_read_excel dyn.df_columns dyn.df_index]. by rewrite map_map.
Qed.




(** ** main of excel_to_json.py *)

(** X17.  [main] of excel_to_json.py, on whatever sheet it finds; row keys
    and column labels need not be text.  A missing or unreadable table is
    reported in one line and nothing is written.  When the column labels
    are distinct, every file written is the document of one column: its
    label is text and passed the code test, the file is named after it
    under output/translations, and its content is what [unflatten_dict]
    returns for the cells of the column that are not read as missing.  An
    exception that escapes is [OSError] when the output directory cannot be
    created, [TypeError] when a column label is not text ([re.match]),
    [AttributeError] when a row key is not text ([key.split]), or the
    [TypeError] of [unflatten_dict] on a column whose label passed the test;
    a header 2024 and a row key 404 do raise.  On a sheet read as a frame
    whose row keys and column labels are all text, [main] is
    [save_translations_to_json] applied to [read_excel_to_translations] as
    annotated. *)
Theorem excel_to_json_main_outcome (project_dir : string) (r : excel_read)
    (makedirs_ok : bool) (write_error : string → option string) :
  let run := excel_to_json_main project_dir r makedirs_ok write_error in
  let output_dir := path_join (path_join project_dir "output") "translations" in
  ((∀ sh, r ≠ ExcelSheet sh) →
     run.2 = OK () ∧ w_files run.1 = [] ∧ length (w_out run.1) = 1)
  ∧ (∀ sh path doc,
       r = ExcelSheet sh → NoDup ((sh_columns sh).*1) →
       (path, doc) ∈ w_files run.1 →
       ∃ lang cells,
         (LabelStr lang, cells) ∈ sh_columns sh
         ∧ (is_lang_code lang = true ∨ lang_code_then_lf lang = true)
         ∧ path = path_join output_dir (lang +:+ ".json")
         ∧ dyn.unflatten_dict
             (dyn.lang_dict_of (sh_keys sh) (map (pd_read_cell default_na_values) cells))
             "."
           = OK doc)
  ∧ (∀ e, run.2 = Raise e →
       ∃ sh, r = ExcelSheet sh
             ∧ (NoDup ((sh_columns sh).*1) →
                (e = OSError ∧ makedirs_ok = false)
                ∨ (e = TypeError ∧ ∃ n, LabelOther n ∈ (sh_columns sh).*1)
                ∨ (e = AttributeError ∧ ∃ n, LabelOther n ∈ sh_keys sh)
                ∨ (e = TypeError
                   ∧ ∃ lang cells,
                       (LabelStr lang, cells) ∈ sh_columns sh
                       ∧ match_lang_code lang = true
                       ∧ dyn.unflatten_dict
                           (dyn.lang_dict_of (sh_keys sh)
                              (map (pd_read_cell default_na_values) cells)) "."
                         = Raise TypeError)))
  ∧ (∀ sh df, r = ExcelSheet sh →
       pd_read_excel default_na_values sh = text_frame df →
       run = match read_excel_to_translations df with
             | [] => ({| w_out := print "No translations found in Excel file!" [];
                         w_files := [] |}, OK ())
             | translations =>
                 save_translations_to_json makedirs_ok write_error translations output_dir
             end)
  ∧ excel_to_json_main project_dir
      (ExcelSheet {| sh_keys := [LabelStr "a"];
                     sh_columns := [(LabelOther 2024, [Text "x" (VStr "x")])] |})
      true write_error
    = ({| w_out := []; w_files := [] |}, Raise TypeError)
  ∧ excel_to_json_main project_dir
      (ExcelSheet {| sh_keys := [LabelOther 404];
                     sh_columns := [(LabelStr "en-US",
                                     [Text "Not found" (VStr "Not found")])] |})
      true write_error
    = ({| w_out := []; w_files := [] |}, Raise AttributeError).
Proof.
  intros run output_dir. unfold run, excel_to_json_main. fold output_dir.
  split; [|split; [|split; [|split; [|split; reflexivity]]]].
  - intros Hr. destruct r as [|msg|sh]; [done|done|]. by destruct (Hr sh).
  - intros sh path doc -> Hnd. cbn [read_excel_file].
    rewrite dyn_read_sheet_closed by done.
    destruct (sh_columns sh) as [|col cols] eqn:Hcols.
    { cbn. by intros ?%elem_of_nil. }
    cbn [map]. unfold dyn.save_translations_to_json. destruct makedirs_ok.
    + intros [Hin|(c & d & Hin & Hc & -> & Hd & _)]%dyn_save_loop_files_sound.
      { cbn in Hin. by apply elem_of_nil in Hin. }
      change (?x :: map ?f cols) with (map f (col :: cols)) in Hin.
      apply list_elem_of_fmap in Hin as ([lang cells] & [= <- ->] & Hin).
      cbn [fst] in Hin. exists c, cells. split; [done|]. split; [|done].
      rewrite match_lang_code_exact in Hc. by apply orb_prop in Hc.
    + cbn. by intros ?%elem_of_nil.
  - intros e. destruct r as [|msg|sh]; [done|done|]. cbn [read_excel_file].
    intros Hrun. exists sh. split; [done|]. intros Hnd. revert Hrun.
    rewrite dyn_read_sheet_closed by done.
    destruct (sh_columns sh) as [|col cols] eqn:Hcols; [done|].
    cbn [map]. unfold dyn.save_translations_to_json. destruct makedirs_ok.
    + change (?x :: map ?f cols) with (map f (col :: cols)).
      intros [(-> & n & d & Hin)|(c & d & Hin & Hc & Hd)]%dyn_save_loop_raises.
      * right. left. split; [done|]. exists n.
        apply list_elem_of_fmap in Hin as ([lang cells] & [= <- ->] & Hin).
        apply list_elem_of_fmap. by exists (LabelOther n, cells).
      * apply list_elem_of_fmap in Hin as ([lang cells] & [= <- ->] & Hin).
        cbn [fst snd] in *.
        destruct (dyn_unflatten_loop_raises _ _ _ Hd) as [->|(-> & n & v & Hnv & _)].
        -- do 3 right. split; [done|]. by exists c, cells.
        -- right. right. left. split; [done|]. exists n.
           by apply dyn_lang_dict_keys in Hnv.
    + cbn. intros [= <-]. by left.
  - intros sh df -> Hframe. cbn [read_excel_file]. rewrite Hframe, dyn_read_excel_text.
    destruct (read_excel_to_translations df) as [|l tr]; [done|].
    cbn [map]. change (?x :: map ?f tr) with (map f (l :: tr)).
    unfold dyn.save_translations_to_json, save_translations_to_json.
    destruct makedirs_ok; [|done]. apply dyn_save_loop_text.
Qed.

Lemma excel_to_json_main_outcome_witness :
  ((excel_to_json_main "/p" ExcelMissing true (fun _ => None)).2 = OK ()
   ∧ w_files (excel_to_json_main "/p" ExcelMissing true (fun _ => None)).1 = []
   ∧ length (w_out (excel_to_json_main "/p" ExcelMissing true (fun _ => None)).1) = 1)
  ∧ ∃ lang cells,
      (LabelStr lang, cells)
        ∈ [(LabelStr "en-US", [Text "x" (VStr "x"); Blank]);
           (LabelStr "note", [Blank; NonText (VInt 7)])]
      ∧ (is_lang_code lang = true ∨ lang_code_then_lf lang = true)
      ∧ "/p/output/translations/en-US.json"
        = path_join (path_join (path_join "/p" "output") "translations") (lang +:+ ".json")
      ∧ dyn.unflatten_dict
          (dyn.lang_dict_of [LabelStr "a.b"; LabelOther 404]
             (map (pd_read_cell default_na_values) cells)) "."
        = OK (Node [("a", Node [("b", Leaf "x")])]).
Proof.
  split.
  - apply (proj1 (excel_to_json_main_outcome "/p" ExcelMissing true (fun _ => None))).
    done.
  - apply (proj1 (proj2 (excel_to_json_main_outcome "/p"
             (ExcelSheet {| sh_keys := [LabelStr "a.b"; LabelOther 404];
                            sh_columns :=
                              [(LabelStr "en-US", [Text "x" (VStr "x"); Blank]);
                               (LabelStr "note", [Blank; NonText (VInt 7)])] |})
             true (fun _ => None)))
           {| sh_keys := [LabelStr "a.b"; LabelOther 404];
              sh_columns := [(LabelStr "en-US", [Text "x" (VStr "x"); Blank]);
                             (LabelStr "note", [Blank; NonText (VInt 7)])] |}).
    + reflexivity.
    + apply (bool_decide_unpack _). vm_compute. exact I.
    + vm_compute. apply list_elem_of_here.
Defined.

Lemma notna_items_all_missing index series :
  Forall (fun c => c = NaN) series → notna_items index series = [].
Proof.
  intros Hs. revert index. induction Hs as [|c series -> _ IH]; intros index.
  - by destruct index.
  - destruct index as [|k index]; [done|]. unfold notna_items.
    cbn [zip zip_with omap list_omap snd notna]. apply IH.
Qed.

(** X18.  Every column of the table yields a language, in column order,
    whatever its cells: a column whose cells are all missing yields a
    language with an empty set (for which an empty document is then
    written). *)
Theorem read_excel_every_column (df : DataFrame) :
  NoDup (df_labels df) →
  (read_excel_to_translations df).*1 = df_labels df
  ∧ ∀ lang series, (lang, series) ∈ df_columns df →
                   Forall (fun c => c = NaN) series →
                   dict_get (read_excel_to_translations df) lang = Some [].
Proof.
  intros Hnd. rewrite read_excel_closed by done. split.
  - unfold df_labels. rewrite <- list_fmap_compose. by apply list_fmap_ext.
  - intros lang series Hin Hmissing.
    apply (dict_get_nodup _ lang []).
    + rewrite <- list_fmap_compose. by rewrite (list_fmap_ext _ fst (df_columns df)).
    + apply list_elem_of_fmap. exists (lang, series). split; [|done].
      cbn [fst snd]. unfold lang_dict_of. fold (notna_items (df_index df) series).
      by rewrite notna_items_all_missing.
Qed.

Lemma read_excel_every_column_witness :
  (read_excel_to_translations
     {| df_index := ["a"; "b"];
        df_columns := [("en-US", [CStr "x"; NaN]); ("fr-FR", [NaN; NaN])] |}).*1
  = ["en-US"; "fr-FR"]
  ∧ dict_get (read_excel_to_translations
                {| df_index := ["a"; "b"];
                   df_columns := [("en-US", [CStr "x"; NaN]); ("fr-FR", [NaN; NaN])] |})
      "fr-FR" = Some [].
Proof.
  destruct (read_excel_every_column
              {| df_index := ["a"; "b"];
                 df_columns := [("en-US", [CStr "x"; NaN]); ("fr-FR", [NaN; NaN])] |})
    as [Hlabels Hmissing].
  - apply (bool_decide_unpack _). vm_compute. exact I.
  - split; [exact Hlabels|]. apply (Hmissing "fr-FR" [NaN; NaN]).
    + apply list_elem_of_further, list_elem_of_here.
    + by repeat constructor.
Defined.
